(** * Quantization layer of the vector store: product and binary quantizers

    Shallow embedding of [pkg/vectorspace/product.go] and
    [pkg/vectorspace/binary.go].

    Conventions of the embedding:
    - Go [int] and [uint64] values are [Z]; the wrap-around of unsigned
      operations is written out with [wrap64] and [wrap8].
    - [float32] values are IEEE-754 binary32 numbers, taken from the
      Standard Library's [SpecFloat] at precision 24 and maximal exponent 128.
    - A runtime panic (index or slice bound out of range, negative [make],
      division by zero) is [None] in the [option] monad; a function that
      cannot panic is a plain function.
    - A Go slice whose nil-ness the code observes is a [slice]; a slice that
      is only ever measured with [len] is a [list].  Capacity equals length.
    - Pointers held by the item cache are modelled by the cache's list of
      points: a mutation through the pointer is an update of that list. *)

From Stdlib Require Import ZArith Lia List Bool SpecFloat.
From stdpp Require Import base option list gmap strings.

Local Open Scope Z_scope.

(** ** binary32 arithmetic *)

Module F32.
Definition prec : Z := 24.
Definition emax : Z := 128.

Definition add : spec_float -> spec_float -> spec_float := SFadd prec emax.
Definition sub : spec_float -> spec_float -> spec_float := SFsub prec emax.
Definition mul : spec_float -> spec_float -> spec_float := SFmul prec emax.
Definition div : spec_float -> spec_float -> spec_float := SFdiv prec emax.

(** Go's [x < y] and [x > y]: both are false when an operand is NaN. *)
Definition ltb (x y : spec_float) : bool := SFltb x y.
Definition gtb (x y : spec_float) : bool := SFltb y x.
Definition eqb (x y : spec_float) : bool := SFeqb x y.
Definition leb (x y : spec_float) : bool := SFleb x y.

(** The zero value of a [float32] variable. *)
Definition zero : spec_float := S754_zero false.

(** [math.MaxFloat32] = (2^24 - 1) * 2^104. *)
Definition MaxFloat32 : spec_float := S754_finite false 16777215 104.

Definition PosInf : spec_float := S754_infinity false.

(** The conversion [float32(n)] of an integer, rounding to nearest even. *)
Definition of_int (n : Z) : spec_float := binary_normalize prec emax n 0 false.

Definition is_nan (x : spec_float) : bool :=
  match x with S754_nan => true | _ => false end.

Definition is_finite (x : spec_float) : bool :=
  match x with S754_zero _ | S754_finite _ _ _ => true | _ => false end.
End F32.

Abbreviation float32 := spec_float.

(** ** Slices, indexing and loops *)

(** A slice whose nil-ness is observable. *)
Inductive slice (A : Type) : Type :=
| Nil : slice A
| Slice (elems : list A) : slice A.
Arguments Nil {A}.
Arguments Slice {A} elems.

Definition elems_of {A} (s : slice A) : list A :=
  match s with Nil => [] | Slice l => l end.

Definition is_nil {A} (s : slice A) : bool :=
  match s with Nil => true | Slice _ => false end.

(** [len(l)] as a Go [int]. *)
Definition len {A} (l : list A) : Z := Z.of_nat (length l).

(** [l[i]]: panics outside [0, len(l)). *)
Definition index {A} (l : list A) (i : Z) : option A :=
  if (0 <=? i) && (i <? len l) then l !! Z.to_nat i else None.

(** [l[i] = x]: panics outside [0, len(l)). *)
Definition store {A} (l : list A) (i : Z) (x : A) : option (list A) :=
  if (0 <=? i) && (i <? len l) then Some (<[Z.to_nat i := x]> l) else None.

(** [l[lo:hi]]: panics unless [0 <= lo <= hi <= len(l)]. *)
Definition subslice {A} (l : list A) (lo hi : Z) : option (list A) :=
  if (0 <=? lo) && (lo <=? hi) && (hi <=? len l)
  then Some (take (Z.to_nat (hi - lo)) (drop (Z.to_nat lo) l))
  else None.

(** [make([]T, n)] filled with the zero value [z]: panics when [n < 0]. *)
Definition make {A} (n : Z) (z : A) : option (list A) :=
  if n <? 0 then None else Some (replicate (Z.to_nat n) z).

(** The indices visited by [for i := 0; i < n; i++]. *)
Definition upto (n : Z) : list Z := map Z.of_nat (seq 0 (Z.to_nat n)).

(** [copy(dst, src)]: overwrites the first [min(len dst, len src)] cells. *)
Definition copy {A} (dst src : list A) : list A :=
  take (length dst) src ++ drop (length src) dst.

(** [copy(l[lo:hi], src)] seen from [l]: panics like [l[lo:hi]]. *)
Definition copy_into {A} (l : list A) (lo hi : Z) (src : list A) : option (list A) :=
  window ← subslice l lo hi;
  Some (take (Z.to_nat lo) l ++ copy window src ++ drop (Z.to_nat hi) l).

Definition wrap64 (x : Z) : Z := x mod 2 ^ 64.
Definition wrap8 (x : Z) : Z := x mod 2 ^ 8.

(** A monadic left fold: the body of a [for] loop threaded through the
    panic monad. *)
Fixpoint foldM {A B} (f : A -> B -> option A) (a : A) (l : list B) : option A :=
  match l with
  | [] => Some a
  | b :: l' => a' ← f a b; foldM f a' l'
  end.

(** ** Errors and log events *)

Inductive errorKind : Type :=
| InvalidGeometry
| UnsupportedDistance
| DistanceLookupFailed
| StorageFailure.

(** A Go [error]: [None] is [nil]. *)
Definition error : Type := option errorKind.

(** ** Binary quantizer ([binary.go]) *)

Record binaryQuantizedPoint : Type := mkBQPoint {
  bq_id : Z;
  bq_Vector : list float32;
  BinaryVector : list Z;
  bq_isDirty : bool
}.

Record BinaryQuantizerParamaters : Type := mkBQParams {
  bq_TriggerThreshold : Z;
  DistanceMetric : string;
  Threshold : option float32
}.

(** Modelled from the spec: the item cache [cache.ItemCache], which is not
    part of the sources.  The spec gives its contract: [ForEach] visits every
    known point exactly once, in an unspecified order, and [Count] is the
    number of known ids.  The cache is the list of its points in the order
    [ForEach] visits them. *)
Definition ItemCache (P : Type) : Type := list P.

(** Modelled from the spec: [ItemCache.Count], the number of known ids. *)
Definition Count {P} (items : ItemCache P) : Z := len items.

(** Modelled from the spec: [ItemCache.ForEach], with a callback that mutates
    the visited point and a piece of captured state [S]; the callback may
    panic, and the sweep itself does not fail. *)
Fixpoint ForEach {P S} (fn : S -> P -> option (S * P)) (s : S) (items : ItemCache P)
  : option (S * ItemCache P) :=
  match items with
  | [] => Some (s, [])
  | p :: rest =>
      '(s1, p1) ← fn s p;
      '(s2, rest1) ← ForEach fn s1 rest;
      Some (s2, p1 :: rest1)
  end.

Record binaryQuantizer : Type := mkBQ {
  threshold : slice float32;
  bq_params : BinaryQuantizerParamaters;
  bq_items : ItemCache binaryQuantizedPoint;
  floatDistFn : list float32 -> list float32 -> float32;
  bitDistFn : list Z -> list Z -> float32
}.

(** One iteration of [for i, v := range vector] in [encode]. *)
Definition bq_encode_step (thr : list float32) (encoded : list Z) (iv : Z * float32)
  : option (list Z) :=
  let '(i, v) := iv in
  t ← index thr i;
  if F32.gtb v t then
    w ← index encoded (Z.quot i 64);
    store encoded (Z.quot i 64) (wrap64 (Z.lor w (wrap64 (Z.shiftl 1 (Z.rem i 64)))))
  else Some encoded.

(** [for i, v := range vector]: the pairs of index and element. *)
Definition range {A} (l : list A) : list (Z * A) := zip (upto (len l)) l.

Definition bq_encode (bq : binaryQuantizer) (vector : list float32) : option (slice Z) :=
  match threshold bq with
  | Nil => Some Nil
  | Slice thr =>
      let numUint64s := Z.quot (len vector) 64 in
      let numUint64s :=
        if negb (Z.rem (len vector) 64 =? 0) then numUint64s + 1 else numUint64s in
      encoded ← make numUint64s 0;
      encoded' ← foldM (bq_encode_step thr) encoded (range vector);
      Some (Slice encoded')
  end.

(** [for i := range sum { sum[i] /= float32(count) }] on a possibly nil
    slice. *)
Definition divide_all (sum : slice float32) (count : Z) : slice float32 :=
  match sum with
  | Nil => Nil
  | Slice l => Slice (map (fun x => F32.div x (F32.of_int count)) l)
  end.

(** First pass of [Fit]: the callback that accumulates the per-dimension
    sum and counts the points.  [sum] is allocated at the first point. *)
Definition bq_sum_step (acc : slice float32 * Z) (point : binaryQuantizedPoint)
  : option ((slice float32 * Z) * binaryQuantizedPoint) :=
  let '(sum, count) := acc in
  let sum0 :=
    match sum with
    | Nil => replicate (length (bq_Vector point)) F32.zero
    | Slice l => l
    end in
  sum1 ← foldM (fun (s : list float32) (iv : Z * float32) =>
                  cur ← index s (fst iv); store s (fst iv) (F32.add cur (snd iv)))
               sum0 (range (bq_Vector point));
  Some ((Slice sum1, count + 1), point).

Definition bq_set_threshold (bq : binaryQuantizer) (t : slice float32) : binaryQuantizer :=
  mkBQ t (bq_params bq) (bq_items bq) (floatDistFn bq) (bitDistFn bq).

Definition bq_set_items (bq : binaryQuantizer) (items : ItemCache binaryQuantizedPoint)
  : binaryQuantizer :=
  mkBQ (threshold bq) (bq_params bq) items (floatDistFn bq) (bitDistFn bq).

(** Second pass of [Fit]: re-encode the point and mark it dirty. *)
Definition bq_reencode_step (bq : binaryQuantizer) (u : unit) (point : binaryQuantizedPoint)
  : option (unit * binaryQuantizedPoint) :=
  bv ← bq_encode bq (bq_Vector point);
  Some (u, mkBQPoint (bq_id point) (bq_Vector point) (elems_of bv) true).

Definition bq_Fit (bq : binaryQuantizer) : option (binaryQuantizer * error) :=
  if negb (is_nil (threshold bq))
     || (Count (bq_items bq) <? bq_TriggerThreshold (bq_params bq))
  then Some (bq, None)
  else
    '(sum, count, items1) ← ForEach bq_sum_step (Nil, 0) (bq_items bq);
    let bq1 := bq_set_items (bq_set_threshold bq (divide_all sum count)) items1 in
    '(_, items2) ← ForEach (bq_reencode_step bq1) tt items1;
    Some (bq_set_items bq1 items2, None).

(** ** Storage and byte conversion *)

(** Bytes are integers in [0, 256). *)
Abbreviation bytes := (list Z) (only parsing).

(** Modelled from the spec: the key-value store behind the [storage.Storage]
    interface, of which the sources hold the interface and the empty
    read-only implementation only.  [Get] returns the stored bytes or nil;
    [Put] and [Delete] fail on a read-only store. *)
Record Storage : Type := mkStorage {
  st_data : gmap (list Z) (list Z);
  st_readOnly : bool
}.

Definition Storage_Get (st : Storage) (k : bytes) : option bytes := st_data st !! k.

Definition Storage_Put (st : Storage) (k v : bytes) : Storage * error :=
  if st_readOnly st then (st, Some StorageFailure)
  else (mkStorage (<[k := v]> (st_data st)) false, None).

Definition Storage_Delete (st : Storage) (k : bytes) : Storage * error :=
  if st_readOnly st then (st, Some StorageFailure)
  else (mkStorage (delete k (st_data st)) false, None).

(** [nullReadOnlyStorage] of [storage.go]. *)
Definition nullReadOnlyStorage : Storage := mkStorage ∅ true.

(** [n] bytes of [x], least significant first. *)
Fixpoint le_bytes (n : nat) (x : Z) : bytes :=
  match n with
  | O => []
  | S n' => (x mod 256) :: le_bytes n' (x / 256)
  end.

(** Modelled from the spec: [conversion.NodeKey], a one-byte tag followed by
    the 8-byte big-endian id. *)
Definition NodeKey (id : Z) (tag : Z) : bytes := tag :: rev (le_bytes 8 (wrap64 id)).

Definition tag_v : Z := 118.
Definition tag_q : Z := 113.

(** Modelled from the spec: [conversion.EdgeListToBytes], the little-endian
    stream of the 64-bit words. *)
Definition EdgeListToBytes (ws : list Z) : bytes := flat_map (le_bytes 8) ws.

(** The IEEE-754 binary32 bit pattern of a value (NaN has the quiet
    pattern, as [spec_float] carries no payload). *)
Definition f32_bits (x : float32) : Z :=
  let sign (s : bool) := if s then 2 ^ 31 else 0 in
  match x with
  | S754_zero s => sign s
  | S754_infinity s => sign s + 255 * 2 ^ 23
  | S754_nan => 255 * 2 ^ 23 + 2 ^ 22
  | S754_finite s m e =>
      if Z.pos m <? 2 ^ 23 then sign s + Z.pos m
      else sign s + (e + 150) * 2 ^ 23 + (Z.pos m - 2 ^ 23)
  end.

(** Modelled from the spec: [conversion.Float32ToBytes], the little-endian
    IEEE-754 stream. *)
Definition Float32ToBytes (v : list float32) : bytes :=
  flat_map (fun x => le_bytes 4 (f32_bits x)) v.

Definition bits_f32 (b : Z) : float32 :=
  let s := Z.testbit b 31 in
  let e := (b / 2 ^ 23) mod 256 in
  let m := b mod 2 ^ 23 in
  if e =? 255 then (if m =? 0 then S754_infinity s else S754_nan)
  else if e =? 0 then
    match m with Z.pos p => S754_finite s p (-149) | _ => S754_zero s end
  else
    match m + 2 ^ 23 with Z.pos p => S754_finite s p (e - 150) | _ => S754_zero s end.

Fixpoint le_value (bs : bytes) : Z :=
  match bs with
  | [] => 0
  | b :: bs' => b + 256 * le_value bs'
  end.

(** Modelled from the spec: [conversion.BytesToFloat32]; trailing bytes that
    do not fill a word are dropped. *)
Fixpoint BytesToFloat32 (bs : bytes) : list float32 :=
  match bs with
  | b0 :: b1 :: b2 :: b3 :: rest => bits_f32 (le_value [b0; b1; b2; b3]) :: BytesToFloat32 rest
  | _ => []
  end.

(** [binaryQuantizedPoint.WriteTo]. *)
Definition bq_WriteTo (bqp : binaryQuantizedPoint) (id : Z) (storage : Storage)
  : Storage * error :=
  if negb (len (BinaryVector bqp) =? 0) then
    match Storage_Put storage (NodeKey id tag_q) (EdgeListToBytes (BinaryVector bqp)) with
    | (storage', Some err) => (storage', Some err)
    | (storage', None) => (storage', None)
    end
  else if negb (len (bq_Vector bqp) =? 0) then
    match Storage_Put storage (NodeKey id tag_v) (Float32ToBytes (bq_Vector bqp)) with
    | (storage', Some err) => (storage', Some err)
    | (storage', None) => (storage', None)
    end
  else (storage, None).

(** ** Product quantizer ([product.go]) *)

Record ProductQuantizerParameters : Type := mkPQParams {
  NumCentroids : Z;
  NumSubVectors : Z;
  TriggerThreshold : Z
}.

Record productQuantizedPoint : Type := mkPQPoint {
  pq_id : Z;
  Vector : list float32;
  CentroidIds : list Z;
  isDirty : bool
}.

(** [distance.FloatDistFunc]. *)
Abbreviation FloatDistFunc := (list float32 -> list float32 -> float32).

Record productQuantizer : Type := mkPQ {
  params : ProductQuantizerParameters;
  distFn : FloatDistFunc;
  originalVectorLen : Z;
  subVectorLen : Z;
  distFnName : string;
  items : ItemCache productQuantizedPoint;
  centroidDists : list float32;
  flatCentroids : list float32;
  pq_storage : Storage
}.

(** The points that flow through a distance closure: the interface
    [VectorStorePoint] with its concrete variants. *)
Inductive VectorStorePoint : Type :=
| PQPoint (p : productQuantizedPoint)
| BQPoint (p : binaryQuantizedPoint)
| PlainPoint (id : Z).

Definition Id (y : VectorStorePoint) : Z :=
  match y with
  | PQPoint p => pq_id p
  | BQPoint p => bq_id p
  | PlainPoint id => id
  end.

(** What a call of a distance closure produces: the distance and the
    warnings it logged. *)
Inductive logEvent : Type :=
| Warn (msg : string) (ids : list Z).

Abbreviation PointIdDistFn := (VectorStorePoint -> option (float32 * list logEvent)).

(** Modelled from the spec: the distance name [models.DistanceEuclidean]. *)
Definition DistanceEuclidean : string := "euclidean".
(** Modelled from the spec: the distance name [models.DistanceCosine]. *)
Definition DistanceCosine : string := "cosine".
(** Modelled from the spec: the distance name [models.DistanceDot]. *)
Definition DistanceDot : string := "dot".

Definition productQuantizerCentroidDistsKey : bytes :=
  map (fun a => Z.of_nat (Ascii.nat_of_ascii a))
      (String.list_ascii_of_string "_productQuantizerCentroidDists").
Definition productQuantizerFlatCentroidsKey : bytes :=
  map (fun a => Z.of_nat (Ascii.nat_of_ascii a))
      (String.list_ascii_of_string "_productQuantizerFlatCentroids").

(** What [kmeans.KMeans] holds after [Fit]. *)
Record KMeans : Type := mkKMeans {
  Centroids : list (list float32);
  Labels : list Z
}.

Definition centroidDistIdx (pq : productQuantizer) (subvector centroidX centroidY : Z) : Z :=
  subvector * NumCentroids (params pq) * NumCentroids (params pq)
  + centroidX * NumCentroids (params pq) + centroidY.

Definition flatCentroidSlice (pq : productQuantizer) (subvector centroid : Z) : Z * Z :=
  let start := subvector * NumCentroids (params pq) * subVectorLen pq
               + centroid * subVectorLen pq in
  (start, start + subVectorLen pq).

(** One iteration of the inner loop of [encode]: the running closest
    centroid is replaced on a strictly smaller distance only. *)
Definition closest_step (pq : productQuantizer) (i : Z) (subVector : list float32)
  (best : float32 * Z) (j : Z) : option (float32 * Z) :=
  let '(sliceStart, sliceEnd) := flatCentroidSlice pq i j in
  centroid ← subslice (flatCentroids pq) sliceStart sliceEnd;
  let dist := distFn pq subVector centroid in
  if F32.ltb dist (fst best) then Some (dist, j) else Some best.

Definition encode_step (pq : productQuantizer) (vector : list float32)
  (encoded : list Z) (i : Z) : option (list Z) :=
  subVector ← subslice vector (i * subVectorLen pq) ((i + 1) * subVectorLen pq);
  best ← foldM (closest_step pq i subVector) (F32.MaxFloat32, 0)
               (upto (NumCentroids (params pq)));
  store encoded i (wrap8 (snd best)).

Definition encode (pq : productQuantizer) (vector : list float32) : option (list Z) :=
  if len (flatCentroids pq) =? 0 then Some []
  else
    encoded ← make (NumSubVectors (params pq)) 0;
    foldM (encode_step pq vector) encoded (upto (NumSubVectors (params pq))).

Definition msg_pq_float : string := "point not found for pq distance calculation".
Definition msg_pq_point : string := "point not found for distance calculation".

(** The table [dists] that [DistanceFromFloat] fills before it returns the
    closure of the fitted case. *)
Definition lookup_step (pq : productQuantizer) (x : list float32)
  (dists : list float32) (i : Z) : option (list float32) :=
  subvector ← subslice x (i * subVectorLen pq) ((i + 1) * subVectorLen pq);
  foldM (fun (dists : list float32) (j : Z) =>
           let '(start, end_) := flatCentroidSlice pq i j in
           centroid ← subslice (flatCentroids pq) start end_;
           store dists (i * NumCentroids (params pq) + j) (distFn pq subvector centroid))
        dists (upto (NumCentroids (params pq))).

Definition lookupTable (pq : productQuantizer) (x : list float32) : option (list float32) :=
  dists ← make (NumSubVectors (params pq) * NumCentroids (params pq)) F32.zero;
  foldM (lookup_step pq x) dists (upto (NumSubVectors (params pq))).

(** The closure of [DistanceFromFloat] before the quantizer is fitted. *)
Definition floatClosureUnfitted (pq : productQuantizer) (x : list float32) : PointIdDistFn :=
  fun y =>
    match y with
    | PQPoint pointY => Some (distFn pq x (Vector pointY), [])
    | _ => Some (F32.MaxFloat32, [Warn msg_pq_float [Id y]])
    end.

(** The closure of [DistanceFromFloat] once fitted, over its table. *)
Definition floatClosureFitted (pq : productQuantizer) (dists : list float32) : PointIdDistFn :=
  fun y =>
    match y with
    | PQPoint pointY =>
        dist ← foldM (fun (dist : float32) (i : Z) =>
                        c ← index (CentroidIds pointY) i;
                        d ← index dists (i * NumCentroids (params pq) + c);
                        Some (F32.add dist d))
                     F32.zero (upto (NumSubVectors (params pq)));
        Some (dist, [])
    | _ => Some (F32.MaxFloat32, [Warn msg_pq_float [Id y]])
    end.

Definition DistanceFromFloat (pq : productQuantizer) (x : list float32) : option PointIdDistFn :=
  if len (flatCentroids pq) =? 0 then Some (floatClosureUnfitted pq x)
  else
    dists ← lookupTable pq x;
    Some (floatClosureFitted pq dists).

Definition DistanceFromPoint (pq : productQuantizer) (x : VectorStorePoint) : PointIdDistFn :=
  if len (flatCentroids pq) =? 0 then
    fun y =>
      match x, y with
      | PQPoint pointX, PQPoint pointY => Some (distFn pq (Vector pointX) (Vector pointY), [])
      | _, _ => Some (F32.MaxFloat32, [Warn msg_pq_point [Id x; Id y]])
      end
  else
    fun y =>
      match x, y with
      | PQPoint pointX, PQPoint pointY =>
          dist ← foldM (fun (dist : float32) (i : Z) =>
                          cx ← index (CentroidIds pointX) i;
                          cy ← index (CentroidIds pointY) i;
                          d ← index (centroidDists pq) (centroidDistIdx pq i cx cy);
                          Some (F32.add dist d))
                       F32.zero (upto (NumSubVectors (params pq)));
          Some (dist, [])
      | _, _ => Some (F32.MaxFloat32, [Warn msg_pq_point [Id x; Id y]])
      end.

Definition pq_set_tables (pq : productQuantizer)
  (items' : ItemCache productQuantizedPoint) (dists flat : list float32) : productQuantizer :=
  mkPQ (params pq) (distFn pq) (originalVectorLen pq) (subVectorLen pq) (distFnName pq)
       items' dists flat (pq_storage pq).

(** The callback of the sweep that opens [Fit]: collect the raw vector,
    reset the code to [NumSubVectors] zero bytes, mark the point dirty. *)
Definition collect_step (pq : productQuantizer) (allVectors : list (list float32))
  (point : productQuantizedPoint)
  : option (list (list float32) * productQuantizedPoint) :=
  ids ← make (NumSubVectors (params pq)) 0;
  Some (allVectors ++ [Vector point], mkPQPoint (pq_id point) (Vector point) ids true).

(** [allPoints[j].CentroidIds[i] = kmeans.Labels[j]]. *)
Definition label_step (i : Z) (labels : list Z) (allPoints : list productQuantizedPoint)
  (j : Z) : option (list productQuantizedPoint) :=
  p ← index allPoints j;
  l ← index labels j;
  ids ← store (CentroidIds p) i l;
  store allPoints j (mkPQPoint (pq_id p) (Vector p) ids (isDirty p)).

(** [copy(pq.flatCentroids[start:end], kmeans.Centroids[j])]. *)
Definition flat_step (pq : productQuantizer) (i : Z) (centroids : list (list float32))
  (flat : list float32) (j : Z) : option (list float32) :=
  let '(start, end_) := flatCentroidSlice pq i j in
  c ← index centroids j;
  copy_into flat start end_ c.

(** [pq.centroidDists[idx] = pq.distFn(kmeans.Centroids[j], kmeans.Centroids[k])]. *)
Definition dist_step (pq : productQuantizer) (i : Z) (centroids : list (list float32))
  (j : Z) (dists : list float32) (k : Z) : option (list float32) :=
  cj ← index centroids j;
  ck ← index centroids k;
  store dists (centroidDistIdx pq i j k) (distFn pq cj ck).

Definition dist_row (pq : productQuantizer) (i : Z) (centroids : list (list float32))
  (dists : list float32) (j : Z) : option (list float32) :=
  foldM (dist_step pq i centroids j) dists (upto (NumCentroids (params pq))).

Section Collaborators.

(** [distance.GetFloatDistanceFn] and [kmeans.KMeans.Fit] belong to packages
    that are not part of the sources: the quantizer is parametric in them.
    The trainer receives [K], [MaxIter], [Offset], [VectorLen] and the
    vectors, and may panic. *)
Variable GetFloatDistanceFn : string -> FloatDistFunc + errorKind.
Variable kmeansFit : Z -> Z -> Z -> Z -> list (list float32) -> option KMeans.

(** [newProductQuantizer]: the quantizer or the error it returns; [None]
    is the integer division by zero of [vectorLen % 0].  The cache of a new
    quantizer is empty. *)
Definition newProductQuantizer (storage : Storage) (distFnName : string)
  (params : ProductQuantizerParameters) (vectorLen : Z)
  : option (productQuantizer + errorKind) :=
  if NumSubVectors params =? 0 then None
  else if negb (Z.rem vectorLen (NumSubVectors params) =? 0) then
    Some (inr InvalidGeometry)
  else if negb (String.eqb distFnName DistanceEuclidean)
          && negb (String.eqb distFnName DistanceCosine)
          && negb (String.eqb distFnName DistanceDot) then
    Some (inr UnsupportedDistance)
  else
    let distFnName :=
      if String.eqb distFnName DistanceCosine then DistanceEuclidean else distFnName in
    if NumCentroids params >? 256 then Some (inr InvalidGeometry)
    else
      match GetFloatDistanceFn distFnName with
      | inr err => Some (inr err)
      | inl distFn =>
          let centroidDists :=
            match Storage_Get storage productQuantizerCentroidDistsKey with
            | Some buff => BytesToFloat32 buff
            | None => []
            end in
          let flatCentroids :=
            match Storage_Get storage productQuantizerFlatCentroidsKey with
            | Some buff => BytesToFloat32 buff
            | None => []
            end in
          Some (inl (mkPQ params distFn vectorLen
                          (Z.quot vectorLen (NumSubVectors params))
                          distFnName [] centroidDists flatCentroids storage))
      end.

(** The body of the goroutine that [Fit] starts for subvector [i].  The
    goroutines write disjoint cells (column [i] of every code, the slices
    of [flatCentroids] and the block of [centroidDists] of subvector [i]),
    so running them in index order yields the state after [wg.Wait()]. *)
Definition fit_subvector (pq : productQuantizer) (allVectors : list (list float32))
  (st : list productQuantizedPoint * list float32 * list float32) (i : Z)
  : option (list productQuantizedPoint * list float32 * list float32) :=
  let '(allPoints, flat, dists) := st in
  kmeans ← kmeansFit (NumCentroids (params pq)) 100 (i * subVectorLen pq)
                     (subVectorLen pq) allVectors;
  allPoints' ← foldM (label_step i (Labels kmeans)) allPoints (upto (len allPoints));
  flat' ← foldM (flat_step pq i (Centroids kmeans)) flat (upto (NumCentroids (params pq)));
  dists' ← foldM (dist_row pq i (Centroids kmeans)) dists (upto (NumCentroids (params pq)));
  Some (allPoints', flat', dists').

Definition Fit (pq : productQuantizer) : option (productQuantizer * error) :=
  if negb (len (flatCentroids pq) =? 0) then Some (pq, None)
  else
    let itemCount := Count (items pq) in
    if itemCount <? TriggerThreshold (params pq) then Some (pq, None)
    else
      '(allVectors, allPoints) ← ForEach (collect_step pq) [] (items pq);
      flat0 ← make (NumSubVectors (params pq) * NumCentroids (params pq) * subVectorLen pq)
                   F32.zero;
      dists0 ← make (NumSubVectors (params pq) * NumCentroids (params pq)
                     * NumCentroids (params pq)) F32.zero;
      '(allPoints', flat, dists) ←
        foldM (fit_subvector pq allVectors) (allPoints, flat0, dists0)
              (upto (NumSubVectors (params pq)));
      Some (pq_set_tables pq allPoints' dists flat, None).

End Collaborators.

(** ** Reference collaborators *)

(** Modelled from the spec: the Euclidean kernel of [distance], in its
    squared form, on equal-length slices. *)
Definition euclideanDistance (x y : list float32) : float32 :=
  fold_left (fun (sum : float32) (ab : float32 * float32) =>
               let diff := F32.sub (fst ab) (snd ab) in
               F32.add sum (F32.mul diff diff))
            (zip x y) F32.zero.

(** Modelled from the spec: the dot kernel of [distance], the raw inner
    product, on equal-length slices. *)
Definition dotProductDistance (x y : list float32) : float32 :=
  fold_left (fun (sum : float32) (ab : float32 * float32) =>
               F32.add sum (F32.mul (fst ab) (snd ab)))
            (zip x y) F32.zero.

Definition f32_one : float32 := F32.of_int 1.

(** Modelled from the spec: the cosine kernel of [distance] on normalized
    inputs.  The product quantizer never requests it. *)
Definition cosineDistance (x y : list float32) : float32 :=
  F32.sub f32_one (dotProductDistance x y).

(** Modelled from the spec: [distance.GetFloatDistanceFn], which fails with
    [UnsupportedDistance] on an unrecognized name. *)
Definition floatDistanceFns (name : string) : FloatDistFunc + errorKind :=
  if String.eqb name DistanceEuclidean then inl euclideanDistance
  else if String.eqb name DistanceCosine then inl cosineDistance
  else if String.eqb name DistanceDot then inl dotProductDistance
  else inr UnsupportedDistance.

(** Modelled from the spec: [kmeans.KMeans.Fit], Lloyd's iteration over the
    column window [(Offset, VectorLen)] of the vectors.  Initial centroids are
    the first [K] distinct rows, padded with the last distinct one; a point
    is assigned to the nearest centroid in the Euclidean kernel, the lowest
    index winning ties; an empty cluster keeps its centroid; the iteration
    stops when no label changes or after [MaxIter] rounds. *)
Module Lloyd.

Definition row_eqb (a b : list float32) : bool :=
  (length a =? length b)%nat && forallb (fun ab => F32.eqb (fst ab) (snd ab)) (zip a b).

Fixpoint distinct (rows seen : list (list float32)) : list (list float32) :=
  match rows with
  | [] => []
  | r :: rows' =>
      if existsb (row_eqb r) seen then distinct rows' seen
      else r :: distinct rows' (r :: seen)
  end.

Definition init (K : Z) (vlen : Z) (rows : list (list float32)) : list (list float32) :=
  let d := take (Z.to_nat K) (distinct rows []) in
  d ++ replicate (Z.to_nat K - length d)
         (List.last d (replicate (Z.to_nat vlen) F32.zero)).

Definition nearest (centroids : list (list float32)) (row : list float32) : Z :=
  snd (fold_left (fun (best : float32 * Z) (jc : Z * list float32) =>
                    let d := euclideanDistance row (snd jc) in
                    if F32.ltb d (fst best) then (d, fst jc) else best)
                 (range centroids) (F32.PosInf, 0)).

Definition mean (members : list (list float32)) (prior : list float32) : list float32 :=
  match members with
  | [] => prior
  | m :: ms =>
      map (fun s => F32.div s (F32.of_int (len members)))
          (fold_left (zip_with F32.add) ms m)
  end.

Definition members (rows : list (list float32)) (labels : list Z) (j : Z)
  : list (list float32) :=
  map fst (filter (fun rl => snd rl = j) (zip rows labels)).

Definition update (centroids rows : list (list float32)) (labels : list Z)
  : list (list float32) :=
  map (fun jc => mean (members rows labels (fst jc)) (snd jc)) (range centroids).

Fixpoint iterate (fuel : nat) (centroids rows : list (list float32))
  (labels : option (list Z)) : list (list float32) * list Z :=
  let labels' := map (nearest centroids) rows in
  match fuel with
  | O => (centroids, labels')
  | S fuel' =>
      if decide (labels = Some labels') then (centroids, labels')
      else iterate fuel' (update centroids rows labels') rows (Some labels')
  end.

(** Modelled from the spec: [kmeans.KMeans.Fit]; it panics on a vector
    shorter than the column window. *)
Definition Fit (K MaxIter Offset VectorLen : Z) (vectors : list (list float32))
  : option KMeans :=
  rows ← mapM (fun v => subslice v Offset (Offset + VectorLen)) vectors;
  let '(centroids, labels) :=
    iterate (Z.to_nat MaxIter) (init K VectorLen rows) rows None in
  Some (mkKMeans centroids (map wrap8 labels)).

End Lloyd.

(** The number of set bits among the low 64 of a word. *)
Definition popcount64 (w : Z) : Z :=
  fold_left (fun (n : Z) (b : Z) => if Z.testbit w b then n + 1 else n) (upto 64) 0.

(** Modelled from the spec: the Hamming kernel of [distance], the population
    count of the exclusive or, on equal-length slices. *)
Definition hammingDistance (x y : list Z) : float32 :=
  F32.of_int (fold_left (fun (n : Z) (ab : Z * Z) => n + popcount64 (Z.lxor (fst ab) (snd ab)))
                        (zip x y) 0).

(** ** Sample data *)

Definition f32 (n : Z) : float32 := F32.of_int n.

(** Scenario S1 of the spec: [D = 4], [M = 2], [K = 2], four points. *)
Definition s1_params : ProductQuantizerParameters := mkPQParams 2 2 4.

Definition s1_points : ItemCache productQuantizedPoint :=
  [ mkPQPoint 1 [f32 0; f32 0; f32 10; f32 10] [] false;
    mkPQPoint 2 [f32 0; f32 0; f32 11; f32 11] [] false;
    mkPQPoint 3 [f32 5; f32 5; f32 0; f32 0] [] false;
    mkPQPoint 4 [f32 6; f32 6; f32 0; f32 0] [] false ].

Definition emptyStorage : Storage := mkStorage ∅ false.

Definition s1_pq : productQuantizer :=
  mkPQ s1_params euclideanDistance 4 2 DistanceEuclidean s1_points [] [] emptyStorage.

(** ** Specification-side definitions *)

(** Bit [j] of a packed bit string: bit [j mod 64] of word [j / 64]. *)
Definition bit_of (enc : list Z) (j : Z) : bool :=
  Z.testbit (nth (Z.to_nat (j / 64)) enc 0) (j mod 64).

(** Scenario S4 of the spec: the scalar threshold 0.5 broadcast over
    [D = 4], and the vector [0.1, 0.6, 0.7, 0.4]. *)
Definition f32_half : float32 := F32.div (f32 1) (f32 2).
Definition f32_tenths (n : Z) : float32 := F32.div (f32 n) (f32 10).

Definition s4_bq : binaryQuantizer :=
  mkBQ (Slice (replicate 4 f32_half)) (mkBQParams 0 "hamming" (Some f32_half)) []
       euclideanDistance hammingDistance.

Definition s4_vector : list float32 :=
  [f32_tenths 1; f32_tenths 6; f32_tenths 7; f32_tenths 4].

(** A point that holds its packed bits, one that holds its raw vector only,
    and one that holds neither. *)
Definition bq_encoded_point : binaryQuantizedPoint := mkBQPoint 7 s4_vector [6] true.
Definition bq_raw_point : binaryQuantizedPoint := mkBQPoint 7 s4_vector [] true.

(** A store that already holds a raw vector under the 'v' key of id 7. *)
Definition storage_with_v : Storage :=
  mkStorage {[ NodeKey 7 tag_v := [1; 2; 3; 4] ]} false.

(** The names the constructor of the product quantizer accepts. *)
Definition supported_name (name : string) : Prop :=
  name = DistanceEuclidean \/ name = DistanceCosine \/ name = DistanceDot.

(** A product quantizer that has not been fitted, a query and three
    points: one with a raw vector, one without, one of another variant. *)
Definition unfitted_pq : productQuantizer :=
  mkPQ s1_params euclideanDistance 4 2 DistanceEuclidean s1_points [] [] emptyStorage.
Definition query4 : list float32 := [f32 1; f32 2; f32 3; f32 4].
Definition pq_point_raw : productQuantizedPoint :=
  mkPQPoint 3 [f32 5; f32 5; f32 0; f32 0] [] false.
Definition pq_point_noraw : productQuantizedPoint := mkPQPoint 9 [] [1; 0] false.

(** The [m]-th subvector of a vector and centroid [c] of subvector [m], as
    the quantizer slices them. *)
Definition subvector_of (pq : productQuantizer) (x : list float32) (m : Z) : list float32 :=
  take (Z.to_nat (subVectorLen pq)) (drop (Z.to_nat (m * subVectorLen pq)) x).

Definition centroid_of (pq : productQuantizer) (m c : Z) : list float32 :=
  take (Z.to_nat (subVectorLen pq))
       (drop (Z.to_nat ((m * NumCentroids (params pq) + c) * subVectorLen pq))
             (flatCentroids pq)).

(** A quantizer whose centroid table is populated and consistent with its
    geometry [(M, K, d_sub)]. *)
Record fitted (pq : productQuantizer) : Prop := mkFitted {
  fitted_M : 0 < NumSubVectors (params pq);
  fitted_K : 0 < NumCentroids (params pq) <= 256;
  fitted_sub : 0 < subVectorLen pq;
  fitted_flat : len (flatCentroids pq)
                = NumSubVectors (params pq) * NumCentroids (params pq) * subVectorLen pq
}.

(** A code of [M] centroid ids below [K]. *)
Definition valid_code (pq : productQuantizer) (ids : list Z) : Prop :=
  len ids = NumSubVectors (params pq)
  /\ forall c, c ∈ ids -> 0 <= c < NumCentroids (params pq).

(** The sum over [m] in [0, M), in that order, of [L[m*K + ids[m]]]. *)
Definition table_sum (pq : productQuantizer) (L : list float32) (ids : list Z) : float32 :=
  fold_left F32.add
    (map (fun m => nth (Z.to_nat (m * NumCentroids (params pq) + nth (Z.to_nat m) ids 0))
                       L F32.zero)
         (upto (NumSubVectors (params pq))))
    F32.zero.

(** Scenario S1 after [Fit] with the reference trainer. *)
Definition s1_tables
  : option (ItemCache productQuantizedPoint * list float32 * list float32) :=
  Eval vm_compute in
    option_map (fun r => (items (fst r), centroidDists (fst r), flatCentroids (fst r)))
               (Fit Lloyd.Fit s1_pq).

Definition s1_fitted : productQuantizer :=
  match s1_tables with
  | Some (points, dists, flat) =>
      mkPQ s1_params euclideanDistance 4 2 DistanceEuclidean points dists flat emptyStorage
  | None => s1_pq
  end.

Definition s1_point (n : nat) : productQuantizedPoint :=
  nth n (items s1_fitted) (mkPQPoint 0 [] [] false).

(** The running closest centroid of [encode] over the distances [d]. *)
Definition argmin_step (d : Z -> float32) (best : float32 * Z) (c : Z) : float32 * Z :=
  if F32.ltb (d c) (fst best) then (d c, c) else best.

Definition argmin (d : Z -> float32) (K : Z) : float32 * Z :=
  fold_left (argmin_step d) (upto K) (F32.MaxFloat32, 0).

(** The distance, in the quantizer's kernel, between the [m]-th subvector of
    [v] and centroid [c] of subvector [m]. *)
Definition centroid_dist (pq : productQuantizer) (v : list float32) (m c : Z) : float32 :=
  distFn pq (subvector_of pq v m) (centroid_of pq m c).

(** [r] is the lowest index among the [K] that minimizes [d]. *)
Definition lowest_argmin (d : Z -> float32) (K r : Z) : Prop :=
  (forall c, 0 <= c < K -> F32.ltb (d c) (d r) = false)
  /\ (forall c, 0 <= c < r -> F32.ltb (d r) (d c) = true).

(** A quantizer built with the dot kernel over the one-dimensional centroids
    -5, 1 and 7, loaded from the store by the constructor. *)
Definition dot_params : ProductQuantizerParameters := mkPQParams 3 1 0.
Definition dot_flat : list float32 := [f32 (-5); f32 1; f32 7].
Definition dot_dists : list float32 :=
  [f32 25; f32 (-5); f32 (-35); f32 (-5); f32 1; f32 7; f32 (-35); f32 7; f32 49].
Definition dot_storage : Storage :=
  mkStorage (<[productQuantizerFlatCentroidsKey := Float32ToBytes dot_flat]>
             (<[productQuantizerCentroidDistsKey := Float32ToBytes dot_dists]> ∅)) false.
Definition dot_pq : productQuantizer :=
  mkPQ dot_params dotProductDistance 1 1 DistanceDot [] dot_dists dot_flat dot_storage.

(** The float32 sum of coordinate [i] over the vectors, accumulated from
    zero in the order of the list, and the mean threshold of [D] dimensions
    that the binary quantizer learns from its points. *)
Definition column_sum (vectors : list (list float32)) (i : nat) : float32 :=
  fold_left (fun s v => F32.add s (nth i v F32.zero)) vectors F32.zero.

Definition mean_threshold (points : ItemCache binaryQuantizedPoint) (D : nat)
  : list float32 :=
  map (fun i => F32.div (column_sum (map bq_Vector points) i) (F32.of_int (Count points)))
      (seq 0 D).

(** Scenario S3 of the spec: two points of dimension 4, trigger 2. *)
Definition s3_bq : binaryQuantizer :=
  mkBQ Nil (mkBQParams 2 "hamming" None)
       [ mkBQPoint 1 [f32 0; f32 0; f32 0; f32 0] [] false;
         mkBQPoint 2 [f32 2; f32 2; f32 2; f32 2] [] false ]
       euclideanDistance hammingDistance.

(** The state of the first sweep of the binary quantizer's [Fit] after one
    more point: the running sum, allocated at [D] zeros when still nil, and
    the count. *)
Definition sum_acc (D : nat) (acc : slice float32 * Z) (p : binaryQuantizedPoint)
  : slice float32 * Z :=
  (Slice (zip_with F32.add
            (match fst acc with Nil => replicate D F32.zero | Slice l => l end)
            (bq_Vector p)), snd acc + 1).

(** The point after the second sweep: re-encoded and dirty. *)
Definition reencoded (bq : binaryQuantizer) (p : binaryQuantizedPoint)
  : binaryQuantizedPoint :=
  mkBQPoint (bq_id p) (bq_Vector p)
            (elems_of (default Nil (bq_encode bq (bq_Vector p)))) true.

(** The contract of the trainer on the vectors of a fit: for each subvector
    it returns [K] centroids of length [d_sub] and one label per vector. *)
Definition trainer_ok (kmeansFit : Z -> Z -> Z -> Z -> list (list float32) -> option KMeans)
  (pq : productQuantizer) (vectors : list (list float32)) : Prop :=
  forall m, 0 <= m < NumSubVectors (params pq) ->
    exists km,
      kmeansFit (NumCentroids (params pq)) 100 (m * subVectorLen pq) (subVectorLen pq) vectors
      = Some km
      /\ len (Centroids km) = NumCentroids (params pq)
      /\ Forall (fun c => len c = subVectorLen pq) (Centroids km)
      /\ len (Labels km) = len vectors.

(** What the trainer returns for subvector [m] of a fit. *)
Definition trained (kmeansFit : Z -> Z -> Z -> Z -> list (list float32) -> option KMeans)
  (pq : productQuantizer) (vectors : list (list float32)) (m : Z) : KMeans :=
  default (mkKMeans [] [])
    (kmeansFit (NumCentroids (params pq)) 100 (m * subVectorLen pq) (subVectorLen pq) vectors).

Definition trained_centroid
  (kmeansFit : Z -> Z -> Z -> Z -> list (list float32) -> option KMeans)
  (pq : productQuantizer) (vectors : list (list float32)) (m c : Z) : list float32 :=
  nth (Z.to_nat c) (Centroids (trained kmeansFit pq vectors m)) [].

(** The point as the sweep that opens [Fit] leaves it. *)
Definition reset_point (pq : productQuantizer) (p : productQuantizedPoint)
  : productQuantizedPoint :=
  mkPQPoint (pq_id p) (Vector p) (replicate (Z.to_nat (NumSubVectors (params pq))) 0) true.

(** The point with label [l] written at subvector [i] of its code. *)
Definition relabel (i : Z) (l : Z) (p : productQuantizedPoint) : productQuantizedPoint :=
  mkPQPoint (pq_id p) (Vector p) (<[Z.to_nat i := l]> (CentroidIds p)) (isDirty p).

(** A value whose sign bit is clear, or NaN. *)
Definition sign_clear (x : float32) : Prop :=
  match x with
  | S754_zero s | S754_infinity s | S754_finite s _ _ => s = false
  | S754_nan => True
  end.

(** A quantizer with the dot kernel over the one-dimensional points 1 and
    -1, not yet fitted. *)
Definition dotfit_pq : productQuantizer :=
  mkPQ (mkPQParams 2 1 0) dotProductDistance 1 1 DistanceDot
       [mkPQPoint 1 [f32 1] [] false; mkPQPoint 2 [f32 (-1)] [] false] [] [] emptyStorage.

(** What identifies a point to the sweep that opens [Fit]: its id and its
    raw vector. *)
Definition point_key (p : productQuantizedPoint) : Z * list float32 := (pq_id p, Vector p).

(** ** Persistence of the points ([product.go], [binary.go]) *)

(** Modelled from the spec: [cache.ErrNotFound], the error of a point that
    is in neither tier. *)
Inductive cacheError : Type :=
| ErrNotFound.

(** Modelled from the spec: [conversion.BytesToEdgeList], the inverse of
    [EdgeListToBytes]; trailing bytes that do not fill a word are dropped. *)
Fixpoint BytesToEdgeList (bs : list Z) : list Z :=
  match bs with
  | b0 :: b1 :: b2 :: b3 :: b4 :: b5 :: b6 :: b7 :: rest =>
      le_value [b0; b1; b2; b3; b4; b5; b6; b7] :: BytesToEdgeList rest
  | _ => []
  end.

(** Modelled from the spec: [conversion.NodeIdFromKey], the inverse of
    [NodeKey]: the id of a nine-byte key whose first byte is the tag. *)
Definition NodeIdFromKey (key : list Z) (tag : Z) : Z * bool :=
  match key with
  | t :: rest =>
      if (t =? tag) && (len rest =? 8) then (le_value (rev rest), true) else (0, false)
  | [] => (0, false)
  end.

(** [productQuantizedPoint.IdFromKey]. *)
Definition pq_IdFromKey (key : list Z) : Z * bool := NodeIdFromKey key tag_v.

(** [productQuantizedPoint.SizeInMemory]. *)
Definition pq_SizeInMemory (p : productQuantizedPoint) : Z :=
  8 + 4 * len (Vector p) + len (CentroidIds p).

(** [productQuantizedPoint.CheckAndClearDirty]: the flag it returns and the
    point it leaves. *)
Definition pq_CheckAndClearDirty (p : productQuantizedPoint) : bool * productQuantizedPoint :=
  (isDirty p, mkPQPoint (pq_id p) (Vector p) (CentroidIds p) false).

(** [productQuantizedPoint.ReadFrom]: the point and the error it returns.
    The code under the 'q' key wins over the raw vector under the 'v' key. *)
Definition pq_ReadFrom (id : Z) (storage : Storage)
  : productQuantizedPoint * option cacheError :=
  match Storage_Get storage (NodeKey id tag_q) with
  | Some centroidIdsBytes => (mkPQPoint id [] centroidIdsBytes false, None)
  | None =>
      match Storage_Get storage (NodeKey id tag_v) with
      | None => (mkPQPoint id [] [] false, Some ErrNotFound)
      | Some fullVecBytes => (mkPQPoint id (BytesToFloat32 fullVecBytes) [] false, None)
      end
  end.

(** [productQuantizedPoint.WriteTo]. *)
Definition pq_WriteTo (p : productQuantizedPoint) (id : Z) (storage : Storage)
  : Storage * error :=
  let '(storage1, err1) :=
    if negb (len (Vector p) =? 0)
    then Storage_Put storage (NodeKey id tag_v) (Float32ToBytes (Vector p))
    else (storage, None) in
  match err1 with
  | Some err => (storage1, Some err)
  | None =>
      if negb (len (CentroidIds p) =? 0) then
        match Storage_Put storage1 (NodeKey id tag_q) (CentroidIds p) with
        | (storage2, Some err) => (storage2, Some err)
        | (storage2, None) => (storage2, None)
        end
      else (storage1, None)
  end.

(** [productQuantizedPoint.DeleteFrom] and [binaryQuantizedPoint.DeleteFrom],
    which have the same body. *)
Definition DeleteFrom (id : Z) (storage : Storage) : Storage * error :=
  match Storage_Delete storage (NodeKey id tag_v) with
  | (storage1, Some err) => (storage1, Some err)
  | (storage1, None) =>
      match Storage_Delete storage1 (NodeKey id tag_q) with
      | (storage2, Some err) => (storage2, Some err)
      | (storage2, None) => (storage2, None)
      end
  end.

(** [binaryQuantizedPoint.IdFromKey]. *)
Definition bq_IdFromKey (key : list Z) : Z * bool := NodeIdFromKey key tag_v.

(** [binaryQuantizedPoint.SizeInMemory]. *)
Definition bq_SizeInMemory (p : binaryQuantizedPoint) : Z :=
  len (bq_Vector p) * 4 + len (BinaryVector p) * 8.

(** [binaryQuantizedPoint.CheckAndClearDirty]. *)
Definition bq_CheckAndClearDirty (p : binaryQuantizedPoint) : bool * binaryQuantizedPoint :=
  (bq_isDirty p, mkBQPoint (bq_id p) (bq_Vector p) (BinaryVector p) false).

(** [binaryQuantizedPoint.ReadFrom]. *)
Definition bq_ReadFrom (id : Z) (storage : Storage)
  : binaryQuantizedPoint * option cacheError :=
  match Storage_Get storage (NodeKey id tag_q) with
  | Some binaryVecBytes => (mkBQPoint id [] (BytesToEdgeList binaryVecBytes) false, None)
  | None =>
      match Storage_Get storage (NodeKey id tag_v) with
      | None => (mkBQPoint id [] [] false, Some ErrNotFound)
      | Some fullVecBytes => (mkBQPoint id (BytesToFloat32 fullVecBytes) [] false, None)
      end
  end.

(** ** The remaining operations of the quantizers *)

Definition binaryQuantizerThresholdKey : list Z :=
  map (fun a => Z.of_nat (Ascii.nat_of_ascii a))
      (String.list_ascii_of_string "_binaryQuantizerThreshold").

Definition msg_bq_float : string := "point not found for distance calculation".

(** [binaryQuantizer.DistanceFromFloat]: [None] is the panic of encoding
    [x]. *)
Definition bq_DistanceFromFloat (bq : binaryQuantizer) (x : list float32)
  : option PointIdDistFn :=
  match threshold bq with
  | Slice _ =>
      encodedX ← bq_encode bq x;
      Some (fun y =>
              match y with
              | BQPoint pointY =>
                  Some (bitDistFn bq (elems_of encodedX) (BinaryVector pointY), [])
              | _ => Some (F32.MaxFloat32, [Warn msg_bq_float [Id y]])
              end)
  | Nil =>
      Some (fun y =>
              match y with
              | BQPoint pointY => Some (floatDistFn bq x (bq_Vector pointY), [])
              | _ => Some (F32.MaxFloat32, [Warn msg_bq_float [Id y]])
              end)
  end.

(** [binaryQuantizer.DistanceFromPoint]. *)
Definition bq_DistanceFromPoint (bq : binaryQuantizer) (x : VectorStorePoint)
  : PointIdDistFn :=
  match threshold bq with
  | Slice _ =>
      fun y =>
        match x, y with
        | BQPoint pointX, BQPoint pointB =>
            Some (bitDistFn bq (BinaryVector pointX) (BinaryVector pointB), [])
        | _, _ => Some (F32.MaxFloat32, [Warn msg_bq_float [Id x; Id y]])
        end
  | Nil =>
      fun y =>
        match x, y with
        | BQPoint pointX, BQPoint pointB =>
            Some (floatDistFn bq (bq_Vector pointX) (bq_Vector pointB), [])
        | _, _ => Some (F32.MaxFloat32, [Warn msg_bq_float [Id x; Id y]])
        end
  end.

(** [binaryQuantizer.Flush] after the cache has been flushed: the threshold
    is persisted when it is not empty.  The record of the binary quantizer
    carries no storage handle, so the store is passed along. *)
Definition bq_Flush_threshold (bq : binaryQuantizer) (storage : Storage) : Storage * error :=
  if len (elems_of (threshold bq)) >? 0
  then Storage_Put storage binaryQuantizerThresholdKey
                   (Float32ToBytes (elems_of (threshold bq)))
  else (storage, None).

Definition pq_set_items (pq : productQuantizer) (items' : ItemCache productQuantizedPoint)
  : productQuantizer :=
  mkPQ (params pq) (distFn pq) (originalVectorLen pq) (subVectorLen pq) (distFnName pq)
       items' (centroidDists pq) (flatCentroids pq) (pq_storage pq).

(** [productQuantizer.UpdateStorage]. *)
Definition UpdateStorage (pq : productQuantizer) (storage : Storage) : productQuantizer :=
  mkPQ (params pq) (distFn pq) (originalVectorLen pq) (subVectorLen pq) (distFnName pq)
       (items pq) (centroidDists pq) (flatCentroids pq) storage.

(** [productQuantizer.Flush] after the cache has been flushed into
    [storage]: the two tables are persisted when the centroid table is not
    empty, the distances first. *)
Definition pq_Flush_tables (pq : productQuantizer) (storage : Storage) : Storage * error :=
  if negb (len (flatCentroids pq) =? 0) then
    match Storage_Put storage productQuantizerCentroidDistsKey
                      (Float32ToBytes (centroidDists pq)) with
    | (storage1, Some err) => (storage1, Some err)
    | (storage1, None) =>
        match Storage_Put storage1 productQuantizerFlatCentroidsKey
                          (Float32ToBytes (flatCentroids pq)) with
        | (storage2, Some err) => (storage2, Some err)
        | (storage2, None) => (storage2, None)
        end
    end
  else (storage, None).

Section Cache.

(** The operations of [cache.ItemCache] that [Set] and [Flush] call are not
    part of the sources: the quantizers are parametric in them.  [Put]
    receives the id and the point; [Flush] receives the store, and returns the
    cache, the store and the error it leaves. *)
Variable GetBitDistanceFn : string -> (list Z -> list Z -> float32) + errorKind.
Variable pqCachePut : Z -> productQuantizedPoint -> ItemCache productQuantizedPoint
                      -> ItemCache productQuantizedPoint.
Variable bqCachePut : Z -> binaryQuantizedPoint -> ItemCache binaryQuantizedPoint
                      -> ItemCache binaryQuantizedPoint.
Variable pqCacheFlush : ItemCache productQuantizedPoint -> Storage
                        -> ItemCache productQuantizedPoint * Storage * error.
Variable bqCacheFlush : ItemCache binaryQuantizedPoint -> Storage
                        -> ItemCache binaryQuantizedPoint * Storage * error.

(** [newBinaryQuantizer]: [None] is the panic of [make] on a negative
    length.  The cache of a new quantizer is empty. *)
Definition newBinaryQuantizer (storage : Storage) (floatDistFn : FloatDistFunc)
  (params : BinaryQuantizerParamaters) (vectorLen : Z)
  : option (binaryQuantizer + errorKind) :=
  match GetBitDistanceFn (DistanceMetric params) with
  | inr err => Some (inr err)
  | inl bitDistFn =>
      match Threshold params with
      | Some t =>
          thr ← make vectorLen F32.zero;
          Some (inl (mkBQ (Slice (map (fun _ => t) thr)) params [] floatDistFn bitDistFn))
      | None =>
          let thr :=
            match Storage_Get storage binaryQuantizerThresholdKey with
            | Some floatBytes => Slice (BytesToFloat32 floatBytes)
            | None => Nil
            end in
          Some (inl (mkBQ thr params [] floatDistFn bitDistFn))
      end
  end.

(** [productQuantizer.Set]: the quantizer and the point it returns; [None]
    is the panic of [encode]. *)
Definition pq_Set (pq : productQuantizer) (id : Z) (vector : list float32)
  : option (productQuantizer * productQuantizedPoint) :=
  ids ← encode pq vector;
  let point := mkPQPoint id vector ids false in
  Some (pq_set_items pq (pqCachePut id point (items pq)), point).

(** [binaryQuantizer.Set]. *)
Definition bq_Set (bq : binaryQuantizer) (id : Z) (vector : list float32)
  : option (binaryQuantizer * binaryQuantizedPoint) :=
  bv ← bq_encode bq vector;
  let point := mkBQPoint id vector (elems_of bv) false in
  Some (bq_set_items bq (bqCachePut id point (bq_items bq)), point).

(** [productQuantizer.Flush]. *)
Definition pq_Flush (pq : productQuantizer) : productQuantizer * error :=
  let '(items', storage1, err) := pqCacheFlush (items pq) (pq_storage pq) in
  match err with
  | Some e => (UpdateStorage (pq_set_items pq items') storage1, Some e)
  | None =>
      let '(storage2, err2) := pq_Flush_tables pq storage1 in
      (UpdateStorage (pq_set_items pq items') storage2, err2)
  end.

(** [binaryQuantizer.Flush], on the store the quantizer was built on. *)
Definition bq_Flush (bq : binaryQuantizer) (storage : Storage)
  : binaryQuantizer * Storage * error :=
  let '(items', storage1, err) := bqCacheFlush (bq_items bq) storage in
  match err with
  | Some e => (bq_set_items bq items', storage1, Some e)
  | None =>
      let '(storage2, err2) := bq_Flush_threshold bq storage1 in
      (bq_set_items bq items', storage2, err2)
  end.

End Cache.

(** Modelled from the spec: [ItemCache.Put], which inserts the point or
    replaces the one of the same id. *)
Fixpoint cachePut {P} (idOf : P -> Z) (id : Z) (point : P) (items : ItemCache P)
  : ItemCache P :=
  match items with
  | [] => [point]
  | p :: rest => if idOf p =? id then point :: rest else p :: cachePut idOf id point rest
  end.

(** Modelled from the spec: [ItemCache.Flush], which writes every point whose
    [CheckAndClearDirty] answers true and stops at the first write error. *)
Fixpoint cacheFlush {P} (idOf : P -> Z) (check : P -> bool * P)
  (write : P -> Z -> Storage -> Storage * error)
  (items : ItemCache P) (storage : Storage) : ItemCache P * Storage * error :=
  match items with
  | [] => ([], storage, None)
  | p :: rest =>
      let '(dirty, p') := check p in
      if dirty then
        match write p' (idOf p') storage with
        | (storage1, Some err) => (p' :: rest, storage1, Some err)
        | (storage1, None) =>
            let '(rest', storage2, err) := cacheFlush idOf check write rest storage1 in
            (p' :: rest', storage2, err)
        end
      else
        let '(rest', storage2, err) := cacheFlush idOf check write rest storage in
        (p' :: rest', storage2, err)
  end.

(** ** Specification-side definitions for the remaining operations *)

(** The sum over [m] in [0, M), in that order, of the table entries
    [centroidDists[m, cx[m], cy[m]]] of two codes. *)
Definition code_distance (pq : productQuantizer) (cx cy : list Z) : float32 :=
  fold_left F32.add
    (map (fun m => nth (Z.to_nat (centroidDistIdx pq m (nth (Z.to_nat m) cx 0)
                                                  (nth (Z.to_nat m) cy 0)))
                       (centroidDists pq) F32.zero)
         (upto (NumSubVectors (params pq))))
    F32.zero.

(** The distance a closure returns, without its log. *)
Definition distance_of (r : option (float32 * list logEvent)) : option float32 :=
  option_map fst r.

(** A lookup of bit kernels that knows the Hamming kernel only. *)
Definition hammingOnly (name : string) : (list Z -> list Z -> float32) + errorKind :=
  if String.eqb name "hamming" then inl hammingDistance else inr UnsupportedDistance.

(** The sum over [m] in [0, M), in that order, of the kernel distances
    between the trained centroids that two codes name. *)
Definition trained_code_distance
  (kmeansFit : Z -> Z -> Z -> Z -> list (list float32) -> option KMeans)
  (pq : productQuantizer) (cx cy : list Z) : float32 :=
  fold_left F32.add
    (map (fun m => distFn pq
                     (trained_centroid kmeansFit pq (map Vector (items pq)) m
                                       (nth (Z.to_nat m) cx 0))
                     (trained_centroid kmeansFit pq (map Vector (items pq)) m
                                       (nth (Z.to_nat m) cy 0)))
         (upto (NumSubVectors (params pq))))
    F32.zero.

(** A value of the binary32 format. *)
Definition is_float32 (x : float32) : Prop := valid_binary F32.prec F32.emax x = true.

(** A binary quantizer whose second cached vector is longer than the
    first. *)
Definition ragged_bq : binaryQuantizer :=
  mkBQ Nil (mkBQParams 2 "hamming" None)
       [ mkBQPoint 1 [f32 0; f32 0] [] false;
         mkBQPoint 2 [f32 1; f32 1; f32 1] [] false ]
       euclideanDistance hammingDistance.

(** * Properties *)

(** ** Indexing and loops *)

Lemma len_nonneg {A} (l : list A) : 0 <= len l.
Proof. unfold len. lia. Qed.

Lemma index_Some {A} (l : list A) (i : Z) (x : A) :
  index l i = Some x <-> 0 <= i < len l /\ l !! Z.to_nat i = Some x.
Proof.
  unfold index. destruct (0 <=? i) eqn:H0; destruct (i <? len l) eqn:H1; simpl;
    split; try (intros [? ?]); try intros ?; try split; try lia; try done.
Qed.

Lemma index_in_range {A} (l : list A) (i : Z) :
  0 <= i < len l -> exists x, index l i = Some x /\ l !! Z.to_nat i = Some x.
Proof.
  intros Hi. destruct (lookup_lt_is_Some_2 l (Z.to_nat i)) as [x Hx].
  { unfold len in Hi. lia. }
  exists x. split; [|done]. apply index_Some. done.
Qed.

Lemma index_of_nat {A} (l : list A) (n : nat) (x : A) :
  l !! n = Some x -> index l (Z.of_nat n) = Some x.
Proof.
  intros H. apply index_Some. rewrite Nat2Z.id. split; [|done].
  apply lookup_lt_Some in H. unfold len. lia.
Qed.

Lemma store_Some {A} (l : list A) (i : Z) (x : A) :
  0 <= i < len l -> store l i x = Some (<[Z.to_nat i := x]> l).
Proof.
  intros Hi. unfold store.
  destruct (0 <=? i) eqn:H0; destruct (i <? len l) eqn:H1; simpl; try done; lia.
Qed.

Lemma testbit_one_shift (k j : Z) :
  0 <= k -> 0 <= j -> Z.testbit (Z.shiftl 1 k) j = (j =? k).
Proof.
  intros Hk Hj. rewrite Z.shiftl_spec by done.
  destruct (Z.eqb_spec j k) as [->|Hne].
  - rewrite Z.sub_diag. reflexivity.
  - destruct (Z.lt_ge_cases j k).
    + apply Z.testbit_neg_r. lia.
    + replace (j - k) with (Z.succ (j - k - 1)) by lia.
      rewrite Z.bit0_odd || idtac.
      change 1 with (Z.of_nat 1). 
      apply Z.bits_above_log2; simpl; lia.
Qed.

Lemma nth_lookup_Z {A} (l : list A) (n : nat) (d x : A) :
  l !! n = Some x -> nth n l d = x.
Proof. intros H. apply nth_lookup_Some with (d := d) in H. done. Qed.

Lemma bit_of_insert (enc : list Z) (k j w : Z) :
  0 <= k -> 0 <= j -> k / 64 < len enc ->
  bit_of (<[Z.to_nat (k / 64) := w]> enc) j =
    if j / 64 =? k / 64 then Z.testbit w (j mod 64) else bit_of enc j.
Proof.
  intros Hk Hj Hlen. unfold bit_of.
  assert (0 <= k / 64) by (apply Z.div_pos; lia).
  assert (0 <= j / 64) by (apply Z.div_pos; lia).
  destruct (Z.eqb_spec (j / 64) (k / 64)) as [->|Hne].
  - f_equal. apply nth_lookup_Z. apply list_lookup_insert_eq. unfold len in Hlen. lia.
  - f_equal. rewrite !nth_lookup. rewrite list_lookup_insert_ne; [done|]. lia.
Qed.

Lemma bq_encode_step_spec (thr : list float32) (enc : list Z) (k : Z) (v t : float32) :
  0 <= k -> thr !! Z.to_nat k = Some t -> k / 64 < len enc ->
  exists enc', bq_encode_step thr enc (k, v) = Some enc'
    /\ length enc' = length enc
    /\ forall j, 0 <= j ->
         bit_of enc' j = if j =? k then bit_of enc k || F32.gtb v t else bit_of enc j.
Proof.
  intros Hk Ht Hlen. unfold bq_encode_step.
  assert (Hit : index thr k = Some t).
  { apply index_Some. split; [|done]. apply lookup_lt_Some in Ht. unfold len. lia. }
  rewrite Hit. simpl.
  assert (Hq : Z.quot k 64 = k / 64) by (apply Z.quot_div_nonneg; lia).
  assert (Hr : Z.rem k 64 = k mod 64) by (apply Z.rem_mod_nonneg; lia).
  assert (Hd : 0 <= k / 64) by (apply Z.div_pos; lia).
  assert (Hm : 0 <= k mod 64 < 64) by (apply Z.mod_pos_bound; lia).
  destruct (F32.gtb v t) eqn:Hgt.
  - rewrite Hq, Hr.
    destruct (index_in_range enc (k / 64)) as (w & Hiw & Hw); [lia|].
    rewrite Hiw. simpl. rewrite store_Some by lia.
    eexists. split; [reflexivity|]. split; [apply length_insert|].
    intros j Hj. rewrite bit_of_insert by lia.
    assert (Hjm : 0 <= j mod 64 < 64) by (apply Z.mod_pos_bound; lia).
    destruct (Z.eqb_spec j k) as [->|Hne].
    + rewrite Z.eqb_refl. unfold wrap64.
      rewrite Z.mod_pow2_bits_low by lia. rewrite Z.lor_spec.
      rewrite Z.mod_pow2_bits_low by lia. rewrite testbit_one_shift by lia.
      rewrite Z.eqb_refl. rewrite orb_true_r. rewrite orb_true_r. reflexivity.
    + destruct (Z.eqb_spec (j / 64) (k / 64)) as [Heq|Hne2]; [|done].
      unfold wrap64.
      rewrite Z.mod_pow2_bits_low by lia. rewrite Z.lor_spec.
      rewrite Z.mod_pow2_bits_low by lia. rewrite testbit_one_shift by lia.
      assert (Hmm : j mod 64 <> k mod 64).
      { intros Hc. apply Hne. rewrite (Z.div_mod j 64), (Z.div_mod k 64) by lia. lia. }
      apply Z.eqb_neq in Hmm. rewrite Hmm. rewrite orb_false_r.
      unfold bit_of. rewrite Heq. f_equal. symmetry. apply nth_lookup_Z. done.
  - exists enc. split; [done|]. split; [done|]. intros j Hj.
    destruct (Z.eqb_spec j k) as [->|Hne]; [|done]. rewrite orb_false_r. done.
Qed.

Lemma foldM_cons {A B} (f : A -> B -> option A) (a : A) (b : B) (l : list B) :
  foldM f a (b :: l) = f a b ≫= fun a' => foldM f a' l.
Proof. reflexivity. Qed.

Lemma bq_encode_loop_spec (thr : list float32) :
  forall (vs : list float32) (k : nat) (enc : list Z),
    (k + length vs <= length thr)%nat ->
    Z.of_nat (k + length vs) <= 64 * len enc ->
    exists enc',
      foldM (bq_encode_step thr) enc (zip (map Z.of_nat (seq k (length vs))) vs) = Some enc'
      /\ length enc' = length enc
      /\ (forall j, 0 <= j -> (j < Z.of_nat k \/ Z.of_nat (k + length vs) <= j) ->
            bit_of enc' j = bit_of enc j)
      /\ (forall (n : nat) x t, vs !! n = Some x -> thr !! (k + n)%nat = Some t ->
            bit_of enc' (Z.of_nat (k + n)) = bit_of enc (Z.of_nat (k + n)) || F32.gtb x t).
Proof.
  induction vs as [|v vs IH]; intros k enc Hthr Henc.
  - simpl. exists enc. repeat split; try done.
  - simpl in Hthr, Henc. cbn [length seq map zip_with]. rewrite foldM_cons.
    destruct (lookup_lt_is_Some_2 thr k) as [t Ht]; [lia|].
    destruct (bq_encode_step_spec thr enc (Z.of_nat k) v t) as (enc1 & Hs & Hl1 & Hb1).
    { lia. } { rewrite Nat2Z.id. done. }
    { apply Z.div_lt_upper_bound; lia. }
    rewrite Hs. simpl.
    destruct (IH (S k) enc1) as (enc2 & Hf & Hl2 & Hout & Hin).
    { lia. } { unfold len in *. rewrite Hl1. lia. }
    exists enc2. split; [done|]. split; [congruence|]. split.
    + intros j Hj Hrange. rewrite Hout by lia. rewrite Hb1 by lia.
      destruct (Z.eqb_spec j (Z.of_nat k)); [lia|done].
    + intros n x t' Hx Ht'. destruct n as [|n].
      * simpl in Hx. injection Hx as ->. rewrite Nat.add_0_r in *.
        rewrite Hout by lia. rewrite Hb1 by lia. rewrite Z.eqb_refl.
        congruence.
      * simpl in Hx. replace (k + S n)%nat with (S k + n)%nat in * by lia.
        rewrite (Hin n x t' Hx Ht'). rewrite Hb1 by lia.
        destruct (Z.eqb_spec (Z.of_nat (S k + n)) (Z.of_nat k)); [lia|done].
Qed.

Lemma bit_of_replicate (n : nat) (j : Z) : bit_of (replicate n 0) j = false.
Proof.
  unfold bit_of. 
  destruct (Nat.lt_ge_cases (Z.to_nat (j / 64)) n).
  - erewrite nth_lookup_Z; [apply Z.bits_0 | apply lookup_replicate_2; done].
  - rewrite nth_overflow; [apply Z.bits_0 | rewrite length_replicate; done].
Qed.

Lemma numUint64s_ceil (d : Z) :
  0 <= d ->
  (if negb (Z.rem d 64 =? 0) then Z.quot d 64 + 1 else Z.quot d 64) = (d + 63) / 64.
Proof.
  intros Hd. rewrite Z.quot_div_nonneg, Z.rem_mod_nonneg by lia.
  pose proof (Z.div_mod d 64 ltac:(lia)) as E.
  pose proof (Z.mod_pos_bound d 64 ltac:(lia)) as B.
  destruct (Z.eqb_spec (d mod 64) 0) as [H0|H0]; simpl.
  - apply Z.div_unique with (r := 63); lia.
  - apply Z.div_unique with (r := d mod 64 - 1); lia.
Qed.

Lemma bq_encode_spec (bq : binaryQuantizer) (vector thr : list float32) :
  threshold bq = Slice thr -> length thr = length vector ->
  exists enc : list Z,
    bq_encode bq vector = Some (Slice enc)
    /\ len enc = (len vector + 63) / 64
    /\ forall (i : Z) (x t : float32),
         0 <= i -> vector !! Z.to_nat i = Some x -> thr !! Z.to_nat i = Some t ->
         Z.testbit (nth (Z.to_nat (i / 64)) enc 0) (i mod 64) = F32.gtb x t.
Proof.
  intros Hthr Hlen. unfold bq_encode. rewrite Hthr.
  pose proof (len_nonneg vector) as Hd.
  rewrite numUint64s_ceil by done.
  assert (Hw : 0 <= (len vector + 63) / 64) by (apply Z.div_pos; lia).
  unfold make. destruct (Z.ltb_spec ((len vector + 63) / 64) 0) as [?|_]; [lia|].
  cbn [mbind option_bind].
  set (enc0 := replicate (Z.to_nat ((len vector + 63) / 64)) 0).
  destruct (bq_encode_loop_spec thr vector 0 enc0) as (enc & Hf & Hl & _ & Hin).
  { simpl. lia. }
  { assert (E : len enc0 = (len vector + 63) / 64).
    { unfold len at 1. unfold enc0. rewrite length_replicate. lia. }
    rewrite E. change (0 + length vector)%nat with (length vector).
    fold (len vector).
    pose proof (Z.div_mod (len vector + 63) 64 ltac:(lia)).
    pose proof (Z.mod_pos_bound (len vector + 63) 64 ltac:(lia)).
    unfold len in *. lia. }
  unfold range, upto, len. rewrite Nat2Z.id. rewrite Hf.
  exists enc. split; [reflexivity|]. split.
  - unfold len in *. rewrite Hl. unfold enc0. rewrite length_replicate. lia.
  - intros i x t Hi Hx Ht.
    specialize (Hin (Z.to_nat i) x t Hx Ht). simpl in Hin.
    rewrite Z2Nat.id in Hin by done. unfold enc0 in Hin.
    rewrite bit_of_replicate in Hin. exact Hin.
Qed.

(** C3: with a threshold of the vector's length, [encode] returns
    [ceil(D/64)] words and bit [i mod 64] of word [i / 64] is set exactly when
    [vector[i] > threshold[i]]; without a threshold it returns nil. *)
Theorem bq_encode_packs_bits (bq : binaryQuantizer) (vector : list float32) :
  (threshold bq = Nil -> bq_encode bq vector = Some Nil)
  /\ (forall thr : list float32,
        threshold bq = Slice thr -> length thr = length vector ->
        exists enc : list Z,
          bq_encode bq vector = Some (Slice enc)
          /\ len enc = (len vector + 63) / 64
          /\ forall (i : Z) (x t : float32),
               0 <= i -> vector !! Z.to_nat i = Some x -> thr !! Z.to_nat i = Some t ->
               Z.testbit (nth (Z.to_nat (i / 64)) enc 0) (i mod 64) = F32.gtb x t).
Proof.
  split.
  - intros Hnil. unfold bq_encode. rewrite Hnil. reflexivity.
  - intros thr. apply bq_encode_spec.
Qed.

Lemma bq_encode_packs_bits_witness :
  exists enc : list Z,
    bq_encode s4_bq s4_vector = Some (Slice enc)
    /\ len enc = (len s4_vector + 63) / 64
    /\ forall (i : Z) (x t : float32),
         0 <= i -> s4_vector !! Z.to_nat i = Some x ->
         replicate 4 f32_half !! Z.to_nat i = Some t ->
         Z.testbit (nth (Z.to_nat (i / 64)) enc 0) (i mod 64) = F32.gtb x t.
Proof.
  exact (proj2 (bq_encode_packs_bits s4_bq s4_vector)
               (replicate 4 f32_half) eq_refl eq_refl).
Defined.

(** Scenario S4 of the spec: the bits 0110 are the word 6. *)
Example bq_encode_s4 : bq_encode s4_bq s4_vector = Some (Slice [6]).
Proof. vm_compute. reflexivity. Qed.

(** ** Persistence of a binary-quantized point *)

Lemma NodeKey_tag_inj (id tag tag' : Z) : tag <> tag' -> NodeKey id tag <> NodeKey id tag'.
Proof. unfold NodeKey. intros Hne Heq. injection Heq as Heq. contradiction. Qed.

Lemma Storage_Put_other (st : Storage) (k k' v : list Z) :
  k <> k' -> Storage_Get (fst (Storage_Put st k v)) k' = Storage_Get st k'.
Proof.
  intros Hne. unfold Storage_Put, Storage_Get.
  destruct (st_readOnly st); simpl; [done|]. by rewrite lookup_insert_ne.
Qed.

Lemma len_zero_iff {A} (l : list A) : (len l =? 0) = true <-> l = [].
Proof.
  unfold len. destruct l as [|a l]; split; intros H; try done.
  all: apply Z.eqb_eq in H; simpl in H; lia.
Qed.

(** C10: a point with packed bits is written as one [Put] on its 'q' key and
    every other key, the 'v' key among them, keeps its stored value; the 'v'
    key is put only for a point without packed bits and with a raw vector; a
    point with neither is not written. *)
Theorem bq_WriteTo_q_only (bqp : binaryQuantizedPoint) (id : Z) (storage : Storage) :
  (BinaryVector bqp <> [] ->
     bq_WriteTo bqp id storage
       = Storage_Put storage (NodeKey id tag_q) (EdgeListToBytes (BinaryVector bqp))
     /\ Storage_Get (fst (bq_WriteTo bqp id storage)) (NodeKey id tag_v)
        = Storage_Get storage (NodeKey id tag_v)
     /\ forall k, k <> NodeKey id tag_q ->
          Storage_Get (fst (bq_WriteTo bqp id storage)) k = Storage_Get storage k)
  /\ (BinaryVector bqp = [] -> bq_Vector bqp <> [] ->
        bq_WriteTo bqp id storage
          = Storage_Put storage (NodeKey id tag_v) (Float32ToBytes (bq_Vector bqp)))
  /\ (BinaryVector bqp = [] -> bq_Vector bqp = [] ->
        bq_WriteTo bqp id storage = (storage, None)).
Proof.
  unfold bq_WriteTo. split; [|split].
  - intros Hbv.
    assert (Hz : (len (BinaryVector bqp) =? 0) = false).
    { destruct (len (BinaryVector bqp) =? 0) eqn:E; [|done].
      apply len_zero_iff in E. contradiction. }
    rewrite Hz. cbn [negb].
    assert (E : forall r : Storage * error,
               match r with
               | (storage', Some err) => (storage', Some err)
               | (storage', None) => (storage', None)
               end = r).
    { intros [s' [e|]]; reflexivity. }
    rewrite E. split; [reflexivity|]. split.
    + apply Storage_Put_other. apply NodeKey_tag_inj. unfold tag_q, tag_v. lia.
    + intros k Hk. apply Storage_Put_other. congruence.
  - intros Hbv Hv. rewrite Hbv. cbn.
    assert (Hz : (len (bq_Vector bqp) =? 0) = false).
    { destruct (len (bq_Vector bqp) =? 0) eqn:E; [|done].
      apply len_zero_iff in E. contradiction. }
    rewrite Hz. cbn [negb].
    destruct (Storage_Put storage (NodeKey id tag_v) (Float32ToBytes (bq_Vector bqp)))
      as [s' [e|]]; reflexivity.
  - intros Hbv Hv. rewrite Hbv, Hv. reflexivity.
Qed.

Lemma bq_WriteTo_q_only_witness :
  bq_WriteTo bq_encoded_point 7 storage_with_v
    = Storage_Put storage_with_v (NodeKey 7 tag_q) (EdgeListToBytes [6])
  /\ Storage_Get (fst (bq_WriteTo bq_encoded_point 7 storage_with_v)) (NodeKey 7 tag_v)
     = Storage_Get storage_with_v (NodeKey 7 tag_v)
  /\ forall k, k <> NodeKey 7 tag_q ->
       Storage_Get (fst (bq_WriteTo bq_encoded_point 7 storage_with_v)) k
       = Storage_Get storage_with_v k.
Proof.
  apply (proj1 (bq_WriteTo_q_only bq_encoded_point 7 storage_with_v)).
  discriminate.
Defined.

(** The stored raw vector survives the write of an encoded point, and the
    write of a raw point replaces it. *)
Example bq_WriteTo_keeps_v :
  Storage_Get (fst (bq_WriteTo bq_encoded_point 7 storage_with_v)) (NodeKey 7 tag_v)
  = Some [1; 2; 3; 4].
Proof. vm_compute. reflexivity. Qed.

Example bq_WriteTo_raw_puts_v :
  Storage_Get (fst (bq_WriteTo bq_raw_point 7 storage_with_v)) (NodeKey 7 tag_v)
  = Some (Float32ToBytes s4_vector).
Proof. vm_compute. reflexivity. Qed.

(** ** Construction of the product quantizer *)

Lemma supported_name_eqb (name : string) :
  supported_name name <->
  negb (String.eqb name DistanceEuclidean) && negb (String.eqb name DistanceCosine)
  && negb (String.eqb name DistanceDot) = false.
Proof.
  unfold supported_name.
  destruct (String.eqb_spec name DistanceEuclidean);
    destruct (String.eqb_spec name DistanceCosine);
    destruct (String.eqb_spec name DistanceDot); simpl; intuition congruence.
Qed.

Lemma effective_name_known (name : string) :
  supported_name name ->
  let name' := if String.eqb name DistanceCosine then DistanceEuclidean else name in
  name' = DistanceEuclidean \/ name' = DistanceDot.
Proof.
  intros [H|[H|H]]; subst; simpl; auto.
Qed.

Section Construction.

Variable GetFloatDistanceFn : string -> FloatDistFunc + errorKind.
Variable kmeansFit : Z -> Z -> Z -> Z -> list (list float32) -> option KMeans.

(** C8, as the constructor behaves: with a non-zero number of subvectors
    and a registry that knows the Euclidean and the dot kernel, the
    geometry error is returned exactly when [D % M != 0], or the name is
    supported and [K > 256]; the distance error exactly when [D % M = 0]
    and the name is not supported; otherwise the constructor succeeds, a
    zero [D] included. *)
Theorem newProductQuantizer_errors (storage : Storage) (name : string)
  (p : ProductQuantizerParameters) (D : Z) :
  NumSubVectors p <> 0 ->
  (forall n, n = DistanceEuclidean \/ n = DistanceDot ->
             exists f, GetFloatDistanceFn n = inl f) ->
  (newProductQuantizer GetFloatDistanceFn storage name p D = Some (inr InvalidGeometry)
     <-> Z.rem D (NumSubVectors p) <> 0 \/ (supported_name name /\ NumCentroids p > 256))
  /\ (newProductQuantizer GetFloatDistanceFn storage name p D = Some (inr UnsupportedDistance)
        <-> Z.rem D (NumSubVectors p) = 0 /\ ~ supported_name name)
  /\ ((exists pq, newProductQuantizer GetFloatDistanceFn storage name p D = Some (inl pq))
        <-> Z.rem D (NumSubVectors p) = 0 /\ supported_name name /\ NumCentroids p <= 256).
Proof.
  intros HM Hreg. unfold newProductQuantizer.
  destruct (Z.eqb_spec (NumSubVectors p) 0) as [?|_]; [contradiction|].
  destruct (Z.eqb_spec (Z.rem D (NumSubVectors p)) 0) as [Hrem|Hrem]; cbn [negb].
  2:{ split; [|split].
      - split; auto.
      - split; [discriminate|]. intros [? _]. contradiction.
      - split; [intros [pq ?]; discriminate|]. intros [? _]. contradiction. }
  pose proof (supported_name_eqb name) as Hsup.
  destruct (negb (String.eqb name DistanceEuclidean) && negb (String.eqb name DistanceCosine)
            && negb (String.eqb name DistanceDot)) eqn:Hn.
  { assert (Hns : ~ supported_name name) by (intros H; apply Hsup in H; discriminate).
    split; [|split].
    - split; [discriminate|]. intros [?|[? _]]; contradiction.
    - split; auto.
    - split; [intros [pq ?]; discriminate|]. intros (_ & ? & _). contradiction. }
  assert (Hs : supported_name name) by (apply Hsup; reflexivity).
  destruct (Z.gtb_spec (NumCentroids p) 256) as [HK|HK].
  { split; [|split].
    - split; auto. intros _. right. split; [done|lia].
    - split; [discriminate|]. intros [_ ?]. contradiction.
    - split; [intros [pq ?]; discriminate|]. intros (_ & _ & ?). lia. }
  destruct (Hreg _ (effective_name_known name Hs)) as [f Hf]. rewrite Hf.
  split; [|split].
  - split; [discriminate|]. intros [?|[_ ?]]; [contradiction|lia].
  - split; [discriminate|]. intros [_ ?]. contradiction.
  - split; [|eauto]. intros _. auto.
Qed.

(** C9: the constructor yields the same quantizer for the names cosine and
    euclidean, so the two encode, fit and measure distances alike. *)
Theorem cosine_is_euclidean (storage : Storage) (p : ProductQuantizerParameters) (D : Z) :
  newProductQuantizer GetFloatDistanceFn storage DistanceCosine p D
  = newProductQuantizer GetFloatDistanceFn storage DistanceEuclidean p D
  /\ forall pqc pqe : productQuantizer,
       newProductQuantizer GetFloatDistanceFn storage DistanceCosine p D = Some (inl pqc) ->
       newProductQuantizer GetFloatDistanceFn storage DistanceEuclidean p D = Some (inl pqe) ->
       distFnName pqc = DistanceEuclidean
       /\ distFn pqc = distFn pqe
       /\ (forall v, encode pqc v = encode pqe v)
       /\ Fit kmeansFit pqc = Fit kmeansFit pqe
       /\ (forall x, DistanceFromFloat pqc x = DistanceFromFloat pqe x)
       /\ (forall x, DistanceFromPoint pqc x = DistanceFromPoint pqe x).
Proof.
  assert (E : newProductQuantizer GetFloatDistanceFn storage DistanceCosine p D
              = newProductQuantizer GetFloatDistanceFn storage DistanceEuclidean p D)
    by reflexivity.
  split; [exact E|]. intros pqc pqe Hc He.
  assert (pqc = pqe) as -> by congruence.
  split; [|auto 10].
  revert He. unfold newProductQuantizer.
  destruct (NumSubVectors p =? 0); [discriminate|].
  destruct (negb (Z.rem D (NumSubVectors p) =? 0)); [discriminate|].
  cbn.
  destruct (NumCentroids p >? 256); [discriminate|].
  destruct (GetFloatDistanceFn DistanceEuclidean); [|discriminate].
  intros [= <-]. reflexivity.
Qed.

End Construction.

Lemma floatDistanceFns_known (n : string) :
  n = DistanceEuclidean \/ n = DistanceDot -> exists f, floatDistanceFns n = inl f.
Proof. intros [->| ->]; eexists; reflexivity. Qed.

Lemma newProductQuantizer_errors_witness :
  (newProductQuantizer floatDistanceFns emptyStorage DistanceEuclidean s1_params 4
     = Some (inr InvalidGeometry)
     <-> Z.rem 4 (NumSubVectors s1_params) <> 0
         \/ (supported_name DistanceEuclidean /\ NumCentroids s1_params > 256))
  /\ (newProductQuantizer floatDistanceFns emptyStorage DistanceEuclidean s1_params 4
        = Some (inr UnsupportedDistance)
        <-> Z.rem 4 (NumSubVectors s1_params) = 0 /\ ~ supported_name DistanceEuclidean)
  /\ ((exists pq, newProductQuantizer floatDistanceFns emptyStorage DistanceEuclidean
                    s1_params 4 = Some (inl pq))
        <-> Z.rem 4 (NumSubVectors s1_params) = 0 /\ supported_name DistanceEuclidean
            /\ NumCentroids s1_params <= 256).
Proof.
  apply (newProductQuantizer_errors floatDistanceFns emptyStorage DistanceEuclidean s1_params 4).
  - simpl. lia.
  - exact floatDistanceFns_known.
Defined.

(** The claim of C8 fails three ways: a zero dimension is accepted; an
    unsupported name wins over too many centroids; an indivisible length wins
    over an unsupported name. *)
Lemma newProductQuantizer_claim_fails :
  (exists pq, newProductQuantizer floatDistanceFns emptyStorage DistanceEuclidean
                (mkPQParams 1 1 0) 0 = Some (inl pq))
  /\ newProductQuantizer floatDistanceFns emptyStorage "manhattan" (mkPQParams 257 2 0) 4
     = Some (inr UnsupportedDistance)
  /\ newProductQuantizer floatDistanceFns emptyStorage "manhattan" (mkPQParams 2 3 0) 10
     = Some (inr InvalidGeometry).
Proof.
  split; [|split].
  - eexists. reflexivity.
  - reflexivity.
  - reflexivity.
Qed.

(** Scenario S6 of the spec: [D = 10], [M = 3] is a geometry error. *)
Example newProductQuantizer_s6 :
  newProductQuantizer floatDistanceFns emptyStorage DistanceEuclidean (mkPQParams 2 3 0) 10
  = Some (inr InvalidGeometry).
Proof. reflexivity. Qed.

Lemma cosine_is_euclidean_witness :
  newProductQuantizer floatDistanceFns emptyStorage DistanceCosine s1_params 4
  = newProductQuantizer floatDistanceFns emptyStorage DistanceEuclidean s1_params 4.
Proof.
  exact (proj1 (cosine_is_euclidean floatDistanceFns Lloyd.Fit emptyStorage s1_params 4)).
Defined.

(** ** Distance from a float vector before the fit *)

(** C7, as the closure behaves: before the fit the closure returns the float
    kernel of [x] and the point's vector for every point of the product
    quantizer and logs nothing, a point without raw vector included (its
    vector is empty); for a point of another variant it returns
    [math.MaxFloat32] and logs a warning. *)
Theorem DistanceFromFloat_unfitted (pq : productQuantizer) (x : list float32) :
  flatCentroids pq = [] ->
  exists f : PointIdDistFn,
    DistanceFromFloat pq x = Some f
    /\ (forall y : productQuantizedPoint,
          f (PQPoint y) = Some (distFn pq x (Vector y), []))
    /\ (forall y : VectorStorePoint,
          (forall p, y <> PQPoint p) ->
          f y = Some (F32.MaxFloat32, [Warn msg_pq_float [Id y]])).
Proof.
  intros Hflat. unfold DistanceFromFloat. rewrite Hflat. cbn.
  eexists. split; [reflexivity|]. split.
  - reflexivity.
  - intros [p|p|id] Hy; [exfalso; eapply Hy; reflexivity|reflexivity|reflexivity].
Qed.

Lemma DistanceFromFloat_unfitted_witness :
  exists f : PointIdDistFn,
    DistanceFromFloat unfitted_pq query4 = Some f
    /\ (forall y : productQuantizedPoint,
          f (PQPoint y) = Some (distFn unfitted_pq query4 (Vector y), []))
    /\ (forall y : VectorStorePoint,
          (forall p, y <> PQPoint p) ->
          f y = Some (F32.MaxFloat32, [Warn msg_pq_float [Id y]])).
Proof. apply (DistanceFromFloat_unfitted unfitted_pq query4). reflexivity. Defined.

(** The claim of C7 fails on a point of the product quantizer without raw
    vector: the closure logs nothing and returns the kernel's value on the
    empty vector, which is not +infinity; and the value returned with the
    warning is the finite [math.MaxFloat32]. *)
Lemma DistanceFromFloat_noraw_claim_fails :
  exists f : PointIdDistFn,
    DistanceFromFloat unfitted_pq query4 = Some f
    /\ Vector pq_point_noraw = []
    /\ f (PQPoint pq_point_noraw) = Some (euclideanDistance query4 [], [])
    /\ euclideanDistance query4 [] <> F32.PosInf
    /\ f (PlainPoint 5) = Some (F32.MaxFloat32, [Warn msg_pq_float [5]])
    /\ F32.ltb F32.MaxFloat32 F32.PosInf = true.
Proof.
  eexists. split; [reflexivity|]. repeat split.
  vm_compute. discriminate.
Qed.

(** ** Loops over index ranges *)

Lemma elem_of_upto (n i : Z) : i ∈ upto n <-> 0 <= i < n.
Proof.
  unfold upto. rewrite list_elem_of_fmap. split.
  - intros (k & -> & Hk). apply elem_of_seq in Hk. lia.
  - intros Hi. exists (Z.to_nat i). split; [lia|]. apply elem_of_seq. lia.
Qed.

Lemma length_upto (n : Z) : length (upto n) = Z.to_nat n.
Proof. unfold upto. rewrite length_map, length_seq. reflexivity. Qed.

Lemma upto_succ (n : Z) : 0 <= n -> upto (n + 1) = upto n ++ [n].
Proof.
  intros Hn. unfold upto. replace (Z.to_nat (n + 1)) with (S (Z.to_nat n)) by lia.
  rewrite seq_S, map_app. simpl. rewrite Z2Nat.id by done. reflexivity.
Qed.

Lemma upto_nonpos (n : Z) : n <= 0 -> upto n = [].
Proof. intros Hn. unfold upto. replace (Z.to_nat n) with O by lia. reflexivity. Qed.

Lemma lookup_upto (n : Z) (k : nat) : (k < Z.to_nat n)%nat -> upto n !! k = Some (Z.of_nat k).
Proof.
  intros Hk. unfold upto. rewrite list_lookup_fmap, lookup_seq_lt by done. reflexivity.
Qed.

Lemma foldM_app {A B} (f : A -> B -> option A) (a : A) (l1 l2 : list B) :
  foldM f a (l1 ++ l2) = foldM f a l1 ≫= fun a' => foldM f a' l2.
Proof.
  revert a. induction l1 as [|b l1 IH]; intros a; [reflexivity|].
  rewrite <- app_comm_cons, !foldM_cons. destruct (f a b) as [a'|]; [apply IH|reflexivity].
Qed.

Lemma foldM_ext {A B} (f g : A -> B -> option A) (a : A) (l : list B) :
  (forall a b, b ∈ l -> f a b = g a b) -> foldM f a l = foldM g a l.
Proof.
  revert a. induction l as [|b l IH]; intros a H; [reflexivity|].
  rewrite !foldM_cons, H by (left). destruct (g a b); [|reflexivity].
  apply IH. intros a' b' Hb'. apply H. by right.
Qed.

(** A loop whose body always succeeds is a fold. *)
Lemma foldM_fold {A B} (f : A -> B -> option A) (g : A -> B -> A) (P : A -> Prop)
  (l : list B) (a : A) :
  P a ->
  (forall a b, P a -> b ∈ l -> f a b = Some (g a b) /\ P (g a b)) ->
  foldM f a l = Some (fold_left g l a) /\ P (fold_left g l a).
Proof.
  revert a. induction l as [|b l IH]; intros a Ha H; [done|].
  destruct (H a b Ha) as [Hf Hp]; [left|].
  rewrite foldM_cons, Hf. simpl. apply IH; [done|].
  intros a' b' Ha' Hb'. apply H; [done|by right].
Qed.

(** An invariant over the processed prefix survives a loop that returns. *)
Lemma foldM_invariant {A B} (f : A -> B -> option A) (P : list B -> A -> Prop)
  (l : list B) (a a' : A) :
  P [] a ->
  (forall pre b a1 a2, P pre a1 -> f a1 b = Some a2 -> P (pre ++ [b]) a2) ->
  foldM f a l = Some a' -> P l a'.
Proof.
  intros H0 Hstep.
  assert (G : forall l2 pre a, P pre a -> foldM f a l2 = Some a' -> P (pre ++ l2) a').
  { induction l2 as [|b l2 IH]; intros pre a1 Hp Hf.
    - injection Hf as <-. by rewrite app_nil_r.
    - rewrite foldM_cons in Hf. destruct (f a1 b) as [a2|] eqn:E; [|discriminate].
      simpl in Hf. replace (pre ++ b :: l2) with ((pre ++ [b]) ++ l2)
        by (rewrite <- app_assoc; reflexivity).
      eapply IH; [|exact Hf]. eapply Hstep; eauto. }
  apply (G l [] a); done.
Qed.

(** A loop of stores at indices that determine the stored value. *)
Lemma foldM_store {A B} (idx : B -> Z) (val : B -> A) (N : nat)
  (f : list A -> B -> option (list A)) :
  forall (l : list B) (acc : list A),
    length acc = N ->
    (forall acc b, b ∈ l -> length acc = N -> f acc b = store acc (idx b) (val b)) ->
    (forall b, b ∈ l -> 0 <= idx b < Z.of_nat N) ->
    (forall b b', b ∈ l -> b' ∈ l -> idx b = idx b' -> val b = val b') ->
    exists acc',
      foldM f acc l = Some acc'
      /\ length acc' = N
      /\ (forall b, b ∈ l -> acc' !! Z.to_nat (idx b) = Some (val b))
      /\ (forall n, (forall b, b ∈ l -> Z.to_nat (idx b) <> n) -> acc' !! n = acc !! n).
Proof.
  induction l as [|b l IH]; intros acc Hlen Hf Hidx Hval.
  - exists acc. split; [done|]. split; [done|]. split; [|done].
    intros b Hb. by apply elem_of_nil in Hb.
  - rewrite foldM_cons, Hf by (done || left).
    rewrite store_Some by (unfold len; rewrite Hlen; apply Hidx; left).
    simpl.
    destruct (IH (<[Z.to_nat (idx b) := val b]> acc)) as (acc' & Hfold & Hl' & Hin & Hout).
    { by rewrite length_insert. }
    { intros acc0 b0 Hb0 Hl0. apply Hf; [by right|done]. }
    { intros b0 Hb0. apply Hidx. by right. }
    { intros b0 b1 Hb0 Hb1. apply Hval; by right. }
    exists acc'. split; [done|]. split; [done|]. split.
    + intros b0 Hb0. apply elem_of_cons in Hb0 as [->|Hb0]; [|by apply Hin].
      destruct (decide (idx b ∈ map idx l)) as [Hyes|Hno].
      * apply list_elem_of_fmap in Hyes as (b1 & E & Hb1). symmetry in E.
        rewrite <- E. rewrite (Hin b1 Hb1). f_equal. apply Hval; [by right|left|done].
      * rewrite Hout.
        -- apply list_lookup_insert_eq. rewrite Hlen.
           specialize (Hidx b ltac:(left)). lia.
        -- intros b1 Hb1 E. apply Hno. apply list_elem_of_fmap. exists b1. split; [|done].
           pose proof (Hidx b ltac:(left)). pose proof (Hidx b1 ltac:(by right)). lia.
    + intros n Hn. rewrite Hout.
      * apply list_lookup_insert_ne. apply Hn. left.
      * intros b0 Hb0. apply Hn. by right.
Qed.

Lemma foldM_map {A B C} (g : A -> B -> option A) (k : C -> B) (a : A) (l : list C) :
  foldM g a (map k l) = foldM (fun a c => g a (k c)) a l.
Proof.
  revert a. induction l as [|c l IH]; intros a; [reflexivity|].
  cbn [map]. rewrite !foldM_cons. destruct (g a (k c)); [apply IH|reflexivity].
Qed.

(** The index pairs visited by two nested loops. *)
Lemma foldM_nested {A B C} (f : B -> A -> C -> option A) (h : B -> list C)
  (l : list B) (a : A) :
  foldM (fun a i => foldM (f i) a (h i)) a l
  = foldM (fun a ic => f (fst ic) a (snd ic)) a (flat_map (fun i => map (pair i) (h i)) l).
Proof.
  revert a. induction l as [|i l IH]; intros a; [reflexivity|].
  cbn [flat_map]. rewrite foldM_cons, foldM_app, foldM_map. cbn [fst snd].
  destruct (foldM (f i) a (h i)) as [a'|] eqn:E.
  - replace (foldM (λ (a0 : A) (c : C), f i a0 c) a (h i)) with (Some a')
      by (rewrite <- E; apply foldM_ext; reflexivity).
    apply IH.
  - replace (foldM (λ (a0 : A) (c : C), f i a0 c) a (h i)) with (@None A)
      by (rewrite <- E; apply foldM_ext; reflexivity).
    reflexivity.
Qed.

Lemma elem_of_pairs (M K i j : Z) :
  (i, j) ∈ flat_map (fun i => map (pair i) (upto K)) (upto M)
  <-> 0 <= i < M /\ 0 <= j < K.
Proof.
  rewrite list_elem_of_In, in_flat_map. split.
  - intros (i' & Hi' & Hin). apply in_map_iff in Hin as (j' & [= <- <-] & Hj').
    apply list_elem_of_In, elem_of_upto in Hi'. apply list_elem_of_In, elem_of_upto in Hj'.
    done.
  - intros [Hi Hj]. exists i. split; [by apply list_elem_of_In, elem_of_upto|].
    apply in_map. by apply list_elem_of_In, elem_of_upto.
Qed.

Lemma subslice_Some {A} (l : list A) (lo hi : Z) :
  0 <= lo <= hi -> hi <= len l ->
  subslice l lo hi = Some (take (Z.to_nat (hi - lo)) (drop (Z.to_nat lo) l)).
Proof.
  intros H1 H2. unfold subslice.
  destruct (Z.leb_spec 0 lo); [|lia]. destruct (Z.leb_spec lo hi); [|lia].
  destruct (Z.leb_spec hi (len l)); [|lia]. reflexivity.
Qed.

Lemma index_nth {A} (l : list A) (i : Z) (d : A) :
  0 <= i < len l -> index l i = Some (nth (Z.to_nat i) l d).
Proof.
  intros Hi. destruct (index_in_range l i Hi) as (x & Hx & Hl).
  rewrite Hx. f_equal. symmetry. by apply nth_lookup_Z.
Qed.

Lemma fold_left_map_r {A B C} (g : A -> B -> A) (k : C -> B) (l : list C) (a : A) :
  fold_left (fun a c => g a (k c)) l a = fold_left g (map k l) a.
Proof. revert a. induction l as [|c l IH]; intros a; [reflexivity|apply IH]. Qed.

(** ** The fitted product quantizer *)

Lemma subvector_slice (pq : productQuantizer) (x : list float32) (m : Z) :
  0 < subVectorLen pq -> 0 <= m < NumSubVectors (params pq) ->
  NumSubVectors (params pq) * subVectorLen pq <= len x ->
  subslice x (m * subVectorLen pq) ((m + 1) * subVectorLen pq) = Some (subvector_of pq x m).
Proof.
  intros Hs Hm Hx. rewrite subslice_Some by nia.
  unfold subvector_of. do 2 f_equal. lia.
Qed.

Lemma centroid_slice (pq : productQuantizer) (m c : Z) :
  fitted pq -> 0 <= m < NumSubVectors (params pq) -> 0 <= c < NumCentroids (params pq) ->
  let '(s, e) := flatCentroidSlice pq m c in
  subslice (flatCentroids pq) s e = Some (centroid_of pq m c).
Proof.
  intros [HM HK Hs Hflat] Hm Hc. unfold flatCentroidSlice.
  assert (H1 : 0 <= m * NumCentroids (params pq) + c) by nia.
  assert (H2 : m * NumCentroids (params pq) + c + 1
               <= NumSubVectors (params pq) * NumCentroids (params pq)) by nia.
  pose proof (Z.mul_le_mono_nonneg_r _ _ (subVectorLen pq) ltac:(lia) H1) as H3.
  pose proof (Z.mul_le_mono_nonneg_r _ _ (subVectorLen pq) ltac:(lia) H2) as H4.
  rewrite subslice_Some; [|lia|rewrite Hflat; lia].
  unfold centroid_of. f_equal. f_equal; [f_equal; lia|]. do 2 f_equal. ring.
Qed.

Lemma lookupTable_spec (pq : productQuantizer) (x : list float32) :
  fitted pq ->
  NumSubVectors (params pq) * subVectorLen pq <= len x ->
  exists L : list float32,
    lookupTable pq x = Some L
    /\ len L = NumSubVectors (params pq) * NumCentroids (params pq)
    /\ forall m c, 0 <= m < NumSubVectors (params pq) -> 0 <= c < NumCentroids (params pq) ->
         L !! Z.to_nat (m * NumCentroids (params pq) + c)
         = Some (distFn pq (subvector_of pq x m) (centroid_of pq m c)).
Proof.
  intros Hfit Hx. pose proof Hfit as [HM HK Hs Hflat].
  set (M := NumSubVectors (params pq)) in *. set (K := NumCentroids (params pq)) in *.
  unfold lookupTable. fold M K. unfold make.
  destruct (Z.ltb_spec (M * K) 0) as [?|_]; [nia|]. cbn [mbind option_bind].
  set (inner := fun (i : Z) (dists : list float32) (j : Z) =>
                  let '(start, end_) := flatCentroidSlice pq i j in
                  centroid ← subslice (flatCentroids pq) start end_;
                  store dists (i * K + j) (distFn pq (subvector_of pq x i) centroid)).
  rewrite (foldM_ext _ (fun d i => foldM (inner i) d (upto K))).
  2:{ intros d i Hi. apply elem_of_upto in Hi. unfold lookup_step.
      rewrite subvector_slice by (done || lia). reflexivity. }
  rewrite foldM_nested.
  destruct (foldM_store (fun ic : Z * Z => fst ic * K + snd ic)
              (fun ic => distFn pq (subvector_of pq x (fst ic)) (centroid_of pq (fst ic) (snd ic)))
              (Z.to_nat (M * K))
              (fun a ic => inner (fst ic) a (snd ic))
              (flat_map (fun i => map (pair i) (upto K)) (upto M))
              (replicate (Z.to_nat (M * K)) F32.zero))
    as (L & HL & Hlen & Hin & _).
  { apply length_replicate. }
  { intros acc [i j] Hij _. apply elem_of_pairs in Hij as [Hi Hj]. cbn [fst snd].
    unfold inner. pose proof (centroid_slice pq i j Hfit Hi Hj) as Hc.
    destruct (flatCentroidSlice pq i j) as [s e]. rewrite Hc. reflexivity. }
  { intros [i j] Hij. apply elem_of_pairs in Hij as [Hi Hj]. cbn [fst snd]. nia. }
  { intros [i j] [i' j'] Hij Hij' E. apply elem_of_pairs in Hij as [Hi Hj].
    apply elem_of_pairs in Hij' as [Hi' Hj']. cbn [fst snd] in *.
    assert (i = i') by nia. subst i'. assert (j = j') by lia. subst j'. reflexivity. }
  exists L. split; [exact HL|]. split; [unfold len; rewrite Hlen; nia|].
  intros m c Hm Hc. apply (Hin (m, c)). by apply elem_of_pairs.
Qed.

(** C1: once fitted, [DistanceFromFloat] fills a table [L] of [M*K] entries
    with [L[m*K + c]] the kernel of the [m]-th subvector of [x] and centroid
    [c] of subvector [m], and the closure returns, for a point with a code of
    [M] ids below [K], the sum over [m] of [L[m*K + ids[m]]]. *)
Theorem DistanceFromFloat_fitted (pq : productQuantizer) (x : list float32) :
  fitted pq ->
  len x = NumSubVectors (params pq) * subVectorLen pq ->
  exists L : list float32,
    lookupTable pq x = Some L
    /\ len L = NumSubVectors (params pq) * NumCentroids (params pq)
    /\ (forall m c,
          0 <= m < NumSubVectors (params pq) -> 0 <= c < NumCentroids (params pq) ->
          L !! Z.to_nat (m * NumCentroids (params pq) + c)
          = Some (distFn pq (subvector_of pq x m) (centroid_of pq m c)))
    /\ exists f : PointIdDistFn,
         DistanceFromFloat pq x = Some f
         /\ forall y : productQuantizedPoint,
              valid_code pq (CentroidIds y) ->
              f (PQPoint y) = Some (table_sum pq L (CentroidIds y), []).
Proof.
  intros Hfit Hx. pose proof Hfit as [HM HK Hs Hflat].
  destruct (lookupTable_spec pq x Hfit) as (L & HL & Hlen & Hent); [lia|].
  exists L. split; [done|]. split; [done|]. split; [done|].
  unfold DistanceFromFloat.
  destruct (Z.eqb_spec (len (flatCentroids pq)) 0) as [E|_]; [rewrite Hflat in E; nia|].
  rewrite HL. cbn [mbind option_bind]. eexists. split; [reflexivity|].
  intros y [Hcl Hcr]. unfold floatClosureFitted.
  set (K := NumCentroids (params pq)) in *. set (M := NumSubVectors (params pq)) in *.
  destruct (foldM_fold
              (fun (dist : float32) (i : Z) =>
                 c ← index (CentroidIds y) i; d ← index L (i * K + c); Some (F32.add dist d))
              (fun (dist : float32) (i : Z) =>
                 F32.add dist (nth (Z.to_nat (i * K + nth (Z.to_nat i) (CentroidIds y) 0))
                                   L F32.zero))
              (fun _ => True) (upto M) F32.zero I) as [Hf _].
  { intros a i _ Hi. apply elem_of_upto in Hi. split; [|done].
    rewrite (index_nth _ _ 0) by lia. cbn [mbind option_bind].
    assert (Hc : 0 <= nth (Z.to_nat i) (CentroidIds y) 0 < K).
    { apply Hcr. apply list_elem_of_In. apply nth_In. unfold len in Hcl. lia. }
    rewrite (index_nth _ _ F32.zero) by nia. reflexivity. }
  rewrite Hf. cbn [mbind option_bind]. unfold table_sum. fold K M.
  rewrite <- fold_left_map_r. reflexivity.
Qed.

Lemma s1_fitted_ok : fitted s1_fitted.
Proof. split; cbn; try lia. reflexivity. Qed.

Lemma DistanceFromFloat_fitted_witness :
  exists L : list float32,
    lookupTable s1_fitted query4 = Some L
    /\ len L = NumSubVectors (params s1_fitted) * NumCentroids (params s1_fitted)
    /\ (forall m c,
          0 <= m < NumSubVectors (params s1_fitted) ->
          0 <= c < NumCentroids (params s1_fitted) ->
          L !! Z.to_nat (m * NumCentroids (params s1_fitted) + c)
          = Some (distFn s1_fitted (subvector_of s1_fitted query4 m)
                         (centroid_of s1_fitted m c)))
    /\ exists f : PointIdDistFn,
         DistanceFromFloat s1_fitted query4 = Some f
         /\ forall y : productQuantizedPoint,
              valid_code s1_fitted (CentroidIds y) ->
              f (PQPoint y) = Some (table_sum s1_fitted L (CentroidIds y), []).
Proof.
  apply (DistanceFromFloat_fitted s1_fitted query4).
  - exact s1_fitted_ok.
  - reflexivity.
Defined.

(** Scenario S2 of the spec: the asymmetric distance from the vector of
    point 1 to point 3 is the sum of the two table entries, 60.5 + 200. *)
Example DistanceFromFloat_s2 :
  (DistanceFromFloat s1_fitted (Vector (s1_point 0)) ≫= fun f => f (PQPoint (s1_point 2)))
  = Some (F32.div (f32 521) (f32 2), []).
Proof. vm_compute. reflexivity. Qed.

(** ** Order of binary32 values *)

Lemma ltb_not_nan (a b : float32) :
  F32.ltb a b = true -> F32.is_nan a = false /\ F32.is_nan b = false.
Proof. destruct a as [[]|[]| |[] ? ?], b as [[]|[]| |[] ? ?]; cbn; auto; discriminate. Qed.

Ltac float_order :=
  repeat match goal with
  | |- context [Z.compare ?x ?y] => destruct (Z.compare_spec x y)
  | |- context [Pos.compare_cont Eq ?x ?y] =>
      change (Pos.compare_cont Eq x y) with (Pos.compare x y);
      destruct (Pos.compare_spec x y)
  | H : context [Z.compare ?x ?y] |- _ => destruct (Z.compare_spec x y)
  | H : context [Pos.compare_cont Eq ?x ?y] |- _ =>
      change (Pos.compare_cont Eq x y) with (Pos.compare x y) in H;
      destruct (Pos.compare_spec x y)
  end; subst; cbn in *; try congruence; try lia.

Lemma ltb_trans (a b c : float32) :
  F32.ltb a b = true -> F32.ltb b c = true -> F32.ltb a c = true.
Proof.
  unfold F32.ltb, SFltb, SFcompare.
  destruct a as [[]|[]| |[] ma ea], b as [[]|[]| |[] mb eb], c as [[]|[]| |[] mc ec];
    cbn; intros H1 H2; try congruence; float_order.
Qed.

(** [a < b] and not [c < b], with [c] a number, give [a < c]. *)
Lemma ltb_le_trans (a b c : float32) :
  F32.ltb a b = true -> F32.ltb c b = false -> F32.is_nan c = false ->
  F32.ltb a c = true.
Proof.
  unfold F32.ltb, SFltb, SFcompare.
  destruct a as [[]|[]| |[] ma ea], b as [[]|[]| |[] mb eb], c as [[]|[]| |[] mc ec];
    cbn; intros H1 H2 H3; try congruence; float_order.
Qed.

Lemma ltb_irrefl (a : float32) : F32.ltb a a = false.
Proof.
  unfold F32.ltb, SFltb, SFcompare.
  destruct a as [[]|[]| |[] ma ea]; cbn; try reflexivity.
  - rewrite Z.compare_refl. change (Pos.compare_cont Eq ma ma) with (Pos.compare ma ma).
    rewrite Pos.compare_refl. reflexivity.
  - rewrite Z.compare_refl. change (Pos.compare_cont Eq ma ma) with (Pos.compare ma ma).
    rewrite Pos.compare_refl. reflexivity.
Qed.

(** ** Encoding with the product quantizer *)

Lemma argmin_range (d : Z -> float32) (n : nat) :
  0 <= snd (argmin d (Z.of_nat n))
  /\ (snd (argmin d (Z.of_nat n)) < Z.of_nat n \/ snd (argmin d (Z.of_nat n)) = 0).
Proof.
  unfold argmin. induction n as [|n IH].
  - change (upto (Z.of_nat 0)) with (@nil Z). cbn [fold_left snd]. lia.
  - replace (Z.of_nat (S n)) with (Z.of_nat n + 1) by lia.
    rewrite upto_succ, fold_left_app by lia. cbn [fold_left].
    set (best := fold_left (argmin_step d) (upto (Z.of_nat n)) (F32.MaxFloat32, 0)) in *.
    assert (E : forall b c, snd (argmin_step d b c) = c \/ snd (argmin_step d b c) = snd b).
    { intros b c. unfold argmin_step. destruct (F32.ltb (d c) (fst b)); auto. }
    destruct (E best (Z.of_nat n)) as [-> | ->]; lia.
Qed.

Lemma argmin_spec (d : Z -> float32) (n : nat) :
  (forall c, 0 <= c < Z.of_nat n -> F32.is_nan (d c) = false) ->
  let best := argmin d (Z.of_nat n) in
  (fst best = F32.MaxFloat32 /\ snd best = 0
   /\ forall c, 0 <= c < Z.of_nat n -> F32.ltb (d c) F32.MaxFloat32 = false)
  \/ (0 <= snd best < Z.of_nat n /\ fst best = d (snd best)
      /\ F32.ltb (d (snd best)) F32.MaxFloat32 = true
      /\ lowest_argmin d (Z.of_nat n) (snd best)).
Proof.
  unfold argmin, lowest_argmin. induction n as [|n IH]; intros Hnan.
  - change (upto (Z.of_nat 0)) with (@nil Z). cbn [fold_left fst snd].
    left. repeat split; intros; lia.
  - replace (Z.of_nat (S n)) with (Z.of_nat n + 1) in * by lia.
    rewrite upto_succ, fold_left_app by lia. cbn [fold_left].
    specialize (IH ltac:(intros; apply Hnan; lia)). cbn zeta in IH.
    set (best := fold_left (argmin_step d) (upto (Z.of_nat n)) (F32.MaxFloat32, 0)) in *.
    assert (Hn : F32.is_nan (d (Z.of_nat n)) = false) by (apply Hnan; lia).
    cbn zeta. unfold argmin_step.
    destruct (F32.ltb (d (Z.of_nat n)) (fst best)) eqn:Hlt; cbn [fst snd].
    + right. split; [lia|]. split; [done|].
      destruct IH as [(Hb & Hi & Hall)|(Hr & Hb & HltM & Hmin & Hlow)].
      * rewrite Hb in Hlt. split; [done|]. split.
        -- intros c Hc. destruct (decide (c = Z.of_nat n)) as [->|Hne];
             [apply ltb_irrefl|].
           destruct (F32.ltb (d c) (d (Z.of_nat n))) eqn:E; [|done].
           rewrite <- (Hall c ltac:(lia)). symmetry. eapply ltb_trans; eauto.
        -- intros c Hc. eapply ltb_le_trans; [exact Hlt| |apply Hnan; lia].
           apply Hall. lia.
      * rewrite Hb in Hlt. split; [eapply ltb_trans; eauto|]. split.
        -- intros c Hc. destruct (decide (c = Z.of_nat n)) as [->|Hne];
             [apply ltb_irrefl|].
           destruct (F32.ltb (d c) (d (Z.of_nat n))) eqn:E; [|done].
           rewrite <- (Hmin c ltac:(lia)). symmetry. eapply ltb_trans; eauto.
        -- intros c Hc. eapply ltb_le_trans; [exact Hlt| |apply Hnan; lia].
           apply Hmin. lia.
    + destruct IH as [(Hb & Hi & Hall)|(Hr & Hb & HltM & Hmin & Hlow)].
      * left. split; [done|]. split; [done|]. intros c Hc.
        destruct (decide (c = Z.of_nat n)) as [->|Hne]; [congruence|]. apply Hall. lia.
      * right. split; [lia|]. split; [done|]. split; [done|]. split; [|done].
        intros c Hc. destruct (decide (c = Z.of_nat n)) as [->|Hne]; [congruence|].
        apply Hmin. lia.
Qed.

Lemma closest_loop_argmin (pq : productQuantizer) (v : list float32) (m : Z) :
  fitted pq -> 0 <= m < NumSubVectors (params pq) ->
  foldM (closest_step pq m (subvector_of pq v m)) (F32.MaxFloat32, 0)
        (upto (NumCentroids (params pq)))
  = Some (argmin (centroid_dist pq v m) (NumCentroids (params pq))).
Proof.
  intros Hfit Hm.
  apply (foldM_fold _ (argmin_step (centroid_dist pq v m)) (fun _ => True)); [done|].
  intros best c _ Hc. apply elem_of_upto in Hc. split; [|done].
  unfold closest_step. pose proof (centroid_slice pq m c Hfit Hm Hc) as Hs.
  destruct (flatCentroidSlice pq m c) as [s e]. rewrite Hs. cbn [mbind option_bind].
  unfold argmin_step, centroid_dist. destruct (F32.ltb _ _); reflexivity.
Qed.

(** C2, as [encode] behaves: before the fit the code is empty; once fitted,
    the code of a vector of length [D] has [M] entries below [K], and entry
    [m] is the lowest index that minimizes the quantizer's own kernel between
    the [m]-th subvector and the centroids, when no distance is NaN and one of
    them is below [math.MaxFloat32]; it is 0 when none is below. *)
Theorem encode_nearest_centroid (pq : productQuantizer) (v : list float32) :
  (flatCentroids pq = [] -> encode pq v = Some [])
  /\ (fitted pq -> len v = NumSubVectors (params pq) * subVectorLen pq ->
      exists code : list Z,
        encode pq v = Some code
        /\ len code = NumSubVectors (params pq)
        /\ forall m, 0 <= m < NumSubVectors (params pq) ->
             exists r, code !! Z.to_nat m = Some r
               /\ 0 <= r < NumCentroids (params pq)
               /\ ((forall c, 0 <= c < NumCentroids (params pq) ->
                      F32.is_nan (centroid_dist pq v m c) = false) ->
                   (r = 0 /\ forall c, 0 <= c < NumCentroids (params pq) ->
                               F32.ltb (centroid_dist pq v m c) F32.MaxFloat32 = false)
                   \/ (F32.ltb (centroid_dist pq v m r) F32.MaxFloat32 = true
                       /\ lowest_argmin (centroid_dist pq v m) (NumCentroids (params pq)) r))).
Proof.
  split.
  - intros Hflat. unfold encode. rewrite Hflat. reflexivity.
  - intros Hfit Hv. pose proof Hfit as [HM HK Hs Hflat].
    set (M := NumSubVectors (params pq)) in *. set (K := NumCentroids (params pq)) in *.
    unfold encode. destruct (Z.eqb_spec (len (flatCentroids pq)) 0) as [E|_];
      [rewrite Hflat in E; nia|].
    fold M K. unfold make. destruct (Z.ltb_spec M 0) as [?|_]; [lia|].
    cbn [mbind option_bind].
    destruct (foldM_store (fun i : Z => i)
                (fun i => wrap8 (snd (argmin (centroid_dist pq v i) K)))
                (Z.to_nat M) (encode_step pq v) (upto M) (replicate (Z.to_nat M) 0))
      as (code & Hcode & Hlen & Hin & _).
    { apply length_replicate. }
    { intros acc i Hi _. apply elem_of_upto in Hi. unfold encode_step.
      rewrite subvector_slice by (done || fold M; lia).
      cbn [mbind option_bind]. fold K. rewrite closest_loop_argmin by done.
      reflexivity. }
    { intros i Hi. apply elem_of_upto in Hi. lia. }
    { intros i i' _ _ ->. reflexivity. }
    exists code. split; [exact Hcode|]. split; [unfold len; rewrite Hlen; lia|].
    intros m Hm. exists (snd (argmin (centroid_dist pq v m) K)).
    pose proof (argmin_range (centroid_dist pq v m) (Z.to_nat K)) as [Hr0 Hr1].
    rewrite Z2Nat.id in Hr0, Hr1 by lia.
    assert (Hr : 0 <= snd (argmin (centroid_dist pq v m) K) < K) by lia.
    split.
    { rewrite (Hin m) by (apply elem_of_upto; done). f_equal.
      unfold wrap8. apply Z.mod_small. lia. }
    split; [exact Hr|]. intros Hnan.
    pose proof (argmin_spec (centroid_dist pq v m) (Z.to_nat K)) as Hspec.
    rewrite Z2Nat.id in Hspec by lia. specialize (Hspec Hnan). cbn zeta in Hspec.
    destruct Hspec as [(_ & H0 & Hall)|(_ & _ & HltM & Hmin)]; [left|right]; done.
Qed.

Lemma encode_nearest_centroid_witness :
  exists code : list Z,
    encode s1_fitted query4 = Some code
    /\ len code = NumSubVectors (params s1_fitted)
    /\ forall m, 0 <= m < NumSubVectors (params s1_fitted) ->
         exists r, code !! Z.to_nat m = Some r
           /\ 0 <= r < NumCentroids (params s1_fitted)
           /\ ((forall c, 0 <= c < NumCentroids (params s1_fitted) ->
                  F32.is_nan (centroid_dist s1_fitted query4 m c) = false) ->
               (r = 0 /\ forall c, 0 <= c < NumCentroids (params s1_fitted) ->
                           F32.ltb (centroid_dist s1_fitted query4 m c) F32.MaxFloat32 = false)
               \/ (F32.ltb (centroid_dist s1_fitted query4 m r) F32.MaxFloat32 = true
                   /\ lowest_argmin (centroid_dist s1_fitted query4 m)
                                    (NumCentroids (params s1_fitted)) r)).
Proof.
  exact (proj2 (encode_nearest_centroid s1_fitted query4) s1_fitted_ok eq_refl).
Defined.

Example encode_s1 : encode s1_fitted query4 = Some [0; 0].
Proof. vm_compute. reflexivity. Qed.

(** The claim of C2 fails for a quantizer built with the dot kernel: over
    the centroids -5, 1 and 7 the code of the vector [1] is 0, the centroid of
    least inner product, while centroid 1 is strictly nearer in the Euclidean
    kernel. *)
Lemma encode_dot_claim_fails :
  newProductQuantizer floatDistanceFns dot_storage DistanceDot dot_params 1
  = Some (inl dot_pq)
  /\ fitted dot_pq
  /\ encode dot_pq [f32 1] = Some [0]
  /\ F32.ltb (euclideanDistance (subvector_of dot_pq [f32 1] 0) (centroid_of dot_pq 0 1))
             (euclideanDistance (subvector_of dot_pq [f32 1] 0) (centroid_of dot_pq 0 0))
     = true.
Proof.
  split; [reflexivity|]. split; [split; cbn; try lia; reflexivity|].
  split; vm_compute; reflexivity.
Qed.

(** ** Fitting the binary quantizer *)

Lemma ForEach_fold {P S} (fn : S -> P -> option (S * P)) (h : S -> P -> S) (g : P -> P)
  (Inv : S -> Prop) (points : ItemCache P) (s : S) :
  Inv s ->
  (forall s p, Inv s -> p ∈ points -> fn s p = Some (h s p, g p) /\ Inv (h s p)) ->
  ForEach fn s points = Some (fold_left h points s, map g points).
Proof.
  revert s. induction points as [|p points IH]; intros s Hs H; [reflexivity|].
  destruct (H s p Hs) as [Hf Hi]; [left|].
  cbn [ForEach fold_left map]. rewrite Hf. cbn [mbind option_bind].
  rewrite IH; [reflexivity|done|].
  intros s' p' Hs' Hp'. apply H; [done|by right].
Qed.

Lemma vector_add_loop :
  forall (v pre s : list float32),
    length s = length v ->
    foldM (fun (s : list float32) (iv : Z * float32) =>
             cur ← index s (fst iv); store s (fst iv) (F32.add cur (snd iv)))
          (pre ++ s) (zip (map Z.of_nat (seq (length pre) (length v))) v)
    = Some (pre ++ zip_with F32.add s v).
Proof.
  induction v as [|x v IH]; intros pre s Hlen.
  - destruct s; [|discriminate]. reflexivity.
  - destruct s as [|y s]; [discriminate|]. injection Hlen as Hlen.
    cbn [length seq map zip_with]. rewrite foldM_cons. cbn [fst snd].
    assert (Hin : 0 <= Z.of_nat (length pre) < len (pre ++ y :: s)).
    { unfold len. rewrite length_app. cbn [length]. lia. }
    assert (Hl : (pre ++ y :: s) !! Z.to_nat (Z.of_nat (length pre)) = Some y).
    { rewrite Nat2Z.id. rewrite lookup_app_r by lia. by rewrite Nat.sub_diag. }
    rewrite (proj2 (index_Some _ _ _) (conj Hin Hl)). cbn [mbind option_bind].
    rewrite store_Some by done. cbn [mbind option_bind].
    rewrite Nat2Z.id.
    replace (<[length pre := F32.add y x]> (pre ++ y :: s))
      with ((pre ++ [F32.add y x]) ++ s).
    2:{ rewrite insert_app_r_alt by lia. rewrite Nat.sub_diag. cbn.
        rewrite <- app_assoc. reflexivity. }
    specialize (IH (pre ++ [F32.add y x]) s Hlen).
    rewrite length_app in IH. cbn [length] in IH.
    replace (length pre + 1)%nat with (S (length pre)) in IH by lia.
    rewrite IH. rewrite <- app_assoc. reflexivity.
Qed.

Lemma bq_sum_step_spec (D : nat) (acc : slice float32) (count : Z)
  (p : binaryQuantizedPoint) :
  length (bq_Vector p) = D ->
  (acc = Nil \/ exists s, acc = Slice s /\ length s = D) ->
  bq_sum_step (acc, count) p
  = Some ((Slice (zip_with F32.add
                    (match acc with Nil => replicate D F32.zero | Slice l => l end)
                    (bq_Vector p)), count + 1), p).
Proof.
  intros Hp Hacc. unfold bq_sum_step.
  set (sum0 := match acc with
               | Nil => replicate (length (bq_Vector p)) F32.zero
               | Slice l => l
               end).
  assert (Hs0 : length sum0 = length (bq_Vector p)).
  { unfold sum0. destruct Hacc as [->|(s & -> & Hs)]; [apply length_replicate|lia]. }
  pose proof (vector_add_loop (bq_Vector p) [] sum0 Hs0) as Hloop.
  cbn [app length] in Hloop. unfold range, upto, len. rewrite Nat2Z.id, Hloop.
  cbn [mbind option_bind]. do 3 f_equal.
  unfold sum0. rewrite Hp. reflexivity.
Qed.

Lemma sum_pass (D : nat) (points : ItemCache binaryQuantizedPoint) (acc : slice float32 * Z) :
  Forall (fun p => length (bq_Vector p) = D) points ->
  (fst acc = Nil \/ exists s, fst acc = Slice s /\ length s = D) ->
  ForEach bq_sum_step acc points = Some (fold_left (sum_acc D) points acc, points).
Proof.
  intros Hall Hacc.
  rewrite (ForEach_fold bq_sum_step (sum_acc D) (fun p => p)
             (fun acc => fst acc = Nil \/ exists s, fst acc = Slice s /\ length s = D));
    [by rewrite map_id|done|].
  intros [a c] p Ha Hp. rewrite Forall_forall in Hall. specialize (Hall p Hp).
  split.
  - rewrite (bq_sum_step_spec D) by done. reflexivity.
  - right. eexists. split; [reflexivity|]. cbn [fst] in *.
    rewrite length_zip_with.
    destruct Ha as [->|(s & -> & Hs)]; [rewrite length_replicate|]; lia.
Qed.

Lemma sum_acc_fold_Slice (D : nat) (points : ItemCache binaryQuantizedPoint)
  (s : list float32) (c : Z) :
  fold_left (sum_acc D) points (Slice s, c)
  = (Slice (fold_left (zip_with F32.add) (map bq_Vector points) s), c + len points).
Proof.
  revert s c. induction points as [|p points IH]; intros s c.
  - cbn. f_equal. unfold len. cbn. lia.
  - cbn [fold_left map]. unfold sum_acc at 2. cbn [fst snd]. rewrite IH.
    f_equal. unfold len. cbn [length]. lia.
Qed.

Lemma sum_acc_fold_Nil (D : nat) (points : ItemCache binaryQuantizedPoint) :
  points <> [] ->
  fold_left (sum_acc D) points (Nil, 0)
  = (Slice (fold_left (zip_with F32.add) (map bq_Vector points) (replicate D F32.zero)),
     len points).
Proof.
  destruct points as [|p points]; [done|]. intros _.
  cbn [fold_left map]. unfold sum_acc at 2. cbn [fst snd]. rewrite sum_acc_fold_Slice.
  f_equal. unfold len. cbn [length]. lia.
Qed.

Lemma length_fold_vector_add (D : nat) (vs : list (list float32)) (s : list float32) :
  Forall (fun v => length v = D) vs -> length s = D ->
  length (fold_left (zip_with F32.add) vs s) = D.
Proof.
  revert s. induction vs as [|v vs IH]; intros s Hall Hs; [done|].
  apply Forall_cons in Hall as [Hv Hall]. cbn [fold_left]. apply IH; [done|].
  rewrite length_zip_with. lia.
Qed.

Lemma nth_fold_vector_add (D : nat) (vs : list (list float32)) (s : list float32) (i : nat) :
  Forall (fun v => length v = D) vs -> length s = D -> (i < D)%nat ->
  nth i (fold_left (zip_with F32.add) vs s) F32.zero
  = fold_left (fun a v => F32.add a (nth i v F32.zero)) vs (nth i s F32.zero).
Proof.
  revert s. induction vs as [|v vs IH]; intros s Hall Hs Hi; [done|].
  apply Forall_cons in Hall as [Hv Hall]. cbn [fold_left].
  rewrite IH; [|done|rewrite length_zip_with; lia|done].
  f_equal. apply nth_lookup_Z. rewrite lookup_zip_with.
  destruct (lookup_lt_is_Some_2 s i ltac:(lia)) as [a Ha].
  destruct (lookup_lt_is_Some_2 v i ltac:(lia)) as [b Hb].
  rewrite Ha, Hb. cbn. rewrite (nth_lookup_Z _ _ _ _ Ha), (nth_lookup_Z _ _ _ _ Hb).
  reflexivity.
Qed.

Lemma mean_threshold_spec (D : nat) (points : ItemCache binaryQuantizedPoint) :
  Forall (fun p => length (bq_Vector p) = D) points ->
  map (fun x => F32.div x (F32.of_int (len points)))
      (fold_left (zip_with F32.add) (map bq_Vector points) (replicate D F32.zero))
  = mean_threshold points D.
Proof.
  intros Hall. unfold mean_threshold, Count.
  assert (Hall' : Forall (fun v : list float32 => length v = D) (map bq_Vector points)).
  { apply Forall_fmap. exact Hall. }
  pose proof (length_fold_vector_add D _ (replicate D F32.zero) Hall'
                (length_replicate _ _)) as Hlen.
  apply list_eq. intros i. rewrite !list_lookup_fmap.
  destruct (Nat.lt_ge_cases i D) as [Hi|Hi].
  - rewrite lookup_seq_lt by done. cbn.
    destruct (lookup_lt_is_Some_2 _ i ltac:(rewrite Hlen; exact Hi)) as [x Hx].
    rewrite Hx. cbn. do 2 f_equal.
    rewrite <- (nth_lookup_Z _ _ F32.zero _ Hx).
    rewrite (nth_fold_vector_add D) by (done || apply length_replicate).
    unfold column_sum. f_equal. apply nth_lookup_Z. by apply lookup_replicate_2.
  - rewrite lookup_seq_ge by done. rewrite lookup_ge_None_2 by lia. reflexivity.
Qed.

Lemma bq_encode_threshold (bq bq' : binaryQuantizer) (v : list float32) :
  threshold bq = threshold bq' -> bq_encode bq v = bq_encode bq' v.
Proof. intros H. unfold bq_encode. rewrite H. reflexivity. Qed.

Lemma ForEach_map {P} (fn : unit -> P -> option (unit * P)) (g : P -> P)
  (points : ItemCache P) :
  (forall p, p ∈ points -> fn tt p = Some (tt, g p)) ->
  ForEach fn tt points = Some (tt, map g points).
Proof.
  intros H.
  rewrite (ForEach_fold fn (fun _ _ => tt) g (fun _ => True)); [|done|].
  - f_equal. f_equal. by destruct (fold_left _ _ _).
  - intros [] p _ Hp. split; [by apply H|done].
Qed.

(** C4: when [Fit] runs on a non-empty cache of vectors of length [D], it
    returns without error, the threshold is the per-dimension float32 sum over
    the points divided by their count, and every point keeps its id and
    vector, holds the encoding of its vector under the new threshold, and is
    dirty. *)
Theorem bq_Fit_mean (bq : binaryQuantizer) (D : nat) :
  threshold bq = Nil ->
  bq_TriggerThreshold (bq_params bq) <= Count (bq_items bq) ->
  bq_items bq <> [] ->
  Forall (fun p => length (bq_Vector p) = D) (bq_items bq) ->
  exists bq' : binaryQuantizer,
    bq_Fit bq = Some (bq', None)
    /\ threshold bq' = Slice (mean_threshold (bq_items bq) D)
    /\ Forall2 (fun p p' =>
                  bq_id p' = bq_id p /\ bq_Vector p' = bq_Vector p
                  /\ bq_isDirty p' = true
                  /\ bq_encode bq' (bq_Vector p) = Some (Slice (BinaryVector p')))
               (bq_items bq) (bq_items bq').
Proof.
  intros Hnil Htrig Hne Hall. unfold bq_Fit. rewrite Hnil. cbn [is_nil negb orb].
  destruct (Z.ltb_spec (Count (bq_items bq)) (bq_TriggerThreshold (bq_params bq)))
    as [?|_]; [lia|].
  rewrite (sum_pass D) by (done || by left). cbn [mbind option_bind].
  rewrite sum_acc_fold_Nil by done. cbn [divide_all].
  rewrite mean_threshold_spec by done.
  set (bq1 := bq_set_items (bq_set_threshold bq (Slice (mean_threshold (bq_items bq) D)))
                           (bq_items bq)).
  assert (Henc : forall p, p ∈ bq_items bq ->
            exists enc, bq_encode bq1 (bq_Vector p) = Some (Slice enc)).
  { intros p Hp. rewrite Forall_forall in Hall.
    destruct (bq_encode_spec bq1 (bq_Vector p) (mean_threshold (bq_items bq) D))
      as (enc & Henc & _); [reflexivity| |eauto].
    unfold mean_threshold. rewrite length_map, length_seq. symmetry. by apply Hall. }
  rewrite (ForEach_map _ (reencoded bq1)).
  2:{ intros p Hp. destruct (Henc p Hp) as [enc He]. unfold bq_reencode_step, reencoded.
      rewrite He. reflexivity. }
  cbn [mbind option_bind]. eexists. split; [reflexivity|]. split; [reflexivity|].
  apply Forall2_fmap_r. apply Forall_Forall2_diag. apply Forall_forall.
  intros p Hp. destruct (Henc p Hp) as [enc He]. unfold reencoded.
  repeat split; try reflexivity. cbn [BinaryVector].
  rewrite (bq_encode_threshold _ bq1) by reflexivity. rewrite He. reflexivity.
Qed.

Lemma bq_Fit_mean_witness :
  exists bq' : binaryQuantizer,
    bq_Fit s3_bq = Some (bq', None)
    /\ threshold bq' = Slice (mean_threshold (bq_items s3_bq) 4)
    /\ Forall2 (fun p p' =>
                  bq_id p' = bq_id p /\ bq_Vector p' = bq_Vector p
                  /\ bq_isDirty p' = true
                  /\ bq_encode bq' (bq_Vector p) = Some (Slice (BinaryVector p')))
               (bq_items s3_bq) (bq_items bq').
Proof.
  apply (bq_Fit_mean s3_bq 4).
  - reflexivity.
  - apply Z.leb_le. reflexivity.
  - discriminate.
  - repeat constructor.
Defined.

(** Scenario S3 of the spec: the threshold is [1, 1, 1, 1], the codes are
    the words 0 and 15, at Hamming distance 4. *)
Example bq_Fit_s3 :
  (bq_Fit s3_bq ≫= fun r =>
     Some (threshold (fst r), map BinaryVector (bq_items (fst r)),
           map bq_isDirty (bq_items (fst r))))
  = Some (Slice [f32 1; f32 1; f32 1; f32 1], [[0]; [15]], [true; true])
  /\ hammingDistance [0] [15] = f32 4.
Proof. split; vm_compute; reflexivity. Qed.

(** ** Fitting the product quantizer *)

(** A loop over [0, N) whose body succeeds keeps an invariant indexed by the
    number of completed iterations. *)
Lemma foldM_upto {A} (f : A -> Z -> option A) (P : Z -> A -> Prop) (N : Z) (a : A) :
  0 <= N -> P 0 a ->
  (forall i a1, 0 <= i < N -> P i a1 -> exists a2, f a1 i = Some a2 /\ P (i + 1) a2) ->
  exists a', foldM f a (upto N) = Some a' /\ P N a'.
Proof.
  intros HN H0 Hstep.
  assert (G : forall n : nat, Z.of_nat n <= N ->
            exists a', foldM f a (upto (Z.of_nat n)) = Some a' /\ P (Z.of_nat n) a').
  { induction n as [|n IH]; intros Hn.
    - exists a. split; [reflexivity|exact H0].
    - destruct IH as (a1 & Hf & Hp); [lia|].
      destruct (Hstep (Z.of_nat n) a1 ltac:(lia) Hp) as (a2 & Hf2 & Hp2).
      exists a2. replace (Z.of_nat (S n)) with (Z.of_nat n + 1) by lia.
      rewrite upto_succ, foldM_app, Hf by lia. cbn [mbind option_bind].
      rewrite foldM_cons, Hf2. split; [reflexivity|exact Hp2]. }
  destruct (G (Z.to_nat N)) as (a' & Hf & Hp); [lia|].
  rewrite Z2Nat.id in Hf, Hp by done. eauto.
Qed.

Lemma fold_left_snoc_map {A B} (k : B -> A) (l : list B) (acc : list A) :
  fold_left (fun acc b => acc ++ [k b]) l acc = acc ++ map k l.
Proof.
  revert acc. induction l as [|b l IH]; intros acc; cbn [fold_left map].
  - by rewrite app_nil_r.
  - rewrite IH, <- app_assoc. reflexivity.
Qed.

Lemma collect_pass (pq : productQuantizer) (points : ItemCache productQuantizedPoint) :
  0 <= NumSubVectors (params pq) ->
  ForEach (collect_step pq) [] points
  = Some (map Vector points, map (reset_point pq) points).
Proof.
  intros HM.
  rewrite (ForEach_fold (collect_step pq) (fun acc p => acc ++ [Vector p]) (reset_point pq)
             (fun _ => True)); [|done|].
  - rewrite fold_left_snoc_map. reflexivity.
  - intros acc p _ _. split; [|done]. unfold collect_step, make.
    destruct (Z.ltb_spec (NumSubVectors (params pq)) 0); [lia|]. reflexivity.
Qed.

Lemma label_loop (i : Z) (labels : list Z) (points : list productQuantizedPoint) :
  0 <= i -> len points <= len labels ->
  Forall (fun p => i < len (CentroidIds p)) points ->
  exists points',
    foldM (label_step i labels) points (upto (len points)) = Some points'
    /\ length points' = length points
    /\ forall (j : nat) p, points !! j = Some p ->
         exists l, labels !! j = Some l /\ points' !! j = Some (relabel i l p).
Proof.
  intros Hi Hlab Hids.
  destruct (foldM_upto (label_step i labels)
              (fun n acc =>
                 length acc = length points
                 /\ forall (j : nat) p, points !! j = Some p ->
                      exists l, labels !! j = Some l
                        /\ acc !! j = Some (if Z.of_nat j <? n then relabel i l p else p))
              (len points) points) as (points' & Hf & Hlen & Hall).
  { apply len_nonneg. }
  { split; [done|]. intros j p Hp.
    destruct (lookup_lt_is_Some_2 labels j) as [l Hl].
    { apply lookup_lt_Some in Hp. unfold len in Hlab. lia. }
    exists l. split; [done|]. destruct (Z.ltb_spec (Z.of_nat j) 0); [lia|done]. }
  { intros n acc Hn [Hlen Hacc]. unfold len in Hn.
    destruct (lookup_lt_is_Some_2 points (Z.to_nat n)) as [p Hp]; [lia|].
    destruct (Hacc _ p Hp) as (l & Hl & Hap).
    rewrite Z2Nat.id in Hap by lia. rewrite Z.ltb_irrefl in Hap.
    unfold label_step.
    rewrite (proj2 (index_Some acc n p)) by (unfold len in *; split; [lia|done]).
    cbn [mbind option_bind].
    rewrite (proj2 (index_Some labels n l)) by (unfold len in *; split; [lia|done]).
    cbn [mbind option_bind].
    rewrite Forall_forall in Hids.
    rewrite store_Some by (split; [lia|apply Hids; eapply list_elem_of_lookup_2; eauto]).
    cbn [mbind option_bind].
    rewrite store_Some by (unfold len in *; lia).
    eexists. split; [reflexivity|]. split; [by rewrite length_insert|].
    intros j q Hq. destruct (Hacc j q Hq) as (lq & Hlq & Haq). exists lq. split; [done|].
    destruct (decide (j = Z.to_nat n)) as [->|Hne].
    - rewrite list_lookup_insert_eq by lia.
      assert (q = p) by congruence. assert (lq = l) by congruence. subst.
      destruct (Z.ltb_spec (Z.of_nat (Z.to_nat n)) (n + 1)); [|lia]. reflexivity.
    - rewrite list_lookup_insert_ne by done. rewrite Haq.
      destruct (Z.ltb_spec (Z.of_nat j) n), (Z.ltb_spec (Z.of_nat j) (n + 1));
        try reflexivity; lia. }
  exists points'. split; [done|]. split; [done|].
  intros j p Hp. destruct (Hall j p Hp) as (l & Hl & Hpj). exists l. split; [done|].
  rewrite Hpj. apply lookup_lt_Some in Hp.
  destruct (Z.ltb_spec (Z.of_nat j) (len points)); [done|unfold len in *; lia].
Qed.

Lemma copy_exact {A} (dst src : list A) : length src = length dst -> copy dst src = src.
Proof.
  intros H. unfold copy. rewrite take_ge, drop_ge by lia. apply app_nil_r.
Qed.

Lemma copy_into_spec {A} (l : list A) (lo : Z) (src : list A) :
  0 <= lo -> lo + len src <= len l ->
  exists l',
    copy_into l lo (lo + len src) src = Some l'
    /\ length l' = length l
    /\ forall n : nat,
         l' !! n = if (Z.to_nat lo <=? n)%nat && (n <? Z.to_nat lo + length src)%nat
                   then src !! (n - Z.to_nat lo)%nat else l !! n.
Proof.
  intros Hlo Hhi. unfold copy_into. pose proof (len_nonneg src) as Hs.
  rewrite subslice_Some by lia. cbn [mbind option_bind].
  unfold len in *.
  rewrite copy_exact.
  2:{ rewrite length_take, length_drop. lia. }
  eexists. split; [reflexivity|]. split.
  - rewrite !length_app, length_take, length_drop. lia.
  - intros n. destruct (Nat.leb_spec (Z.to_nat lo) n) as [H1|H1]; cbn [andb].
    + rewrite lookup_app_r by (rewrite length_take; lia).
      rewrite length_take. replace (Z.to_nat lo `min` length l)%nat with (Z.to_nat lo) by lia.
      destruct (Nat.ltb_spec n (Z.to_nat lo + length src)) as [H2|H2].
      * rewrite lookup_app_l by lia. reflexivity.
      * rewrite lookup_app_r by lia. rewrite lookup_drop. f_equal. lia.
    + rewrite lookup_app_l by (rewrite length_take; lia).
      rewrite lookup_take_lt by lia. reflexivity.
Qed.

Lemma flat_loop (pq : productQuantizer) (i : Z) (centroids : list (list float32))
  (flat : list float32) :
  0 <= i < NumSubVectors (params pq) -> 0 <= NumCentroids (params pq) ->
  0 <= subVectorLen pq ->
  len centroids = NumCentroids (params pq) ->
  Forall (fun c => len c = subVectorLen pq) centroids ->
  len flat = NumSubVectors (params pq) * NumCentroids (params pq) * subVectorLen pq ->
  exists flat',
    foldM (flat_step pq i centroids) flat (upto (NumCentroids (params pq))) = Some flat'
    /\ length flat' = length flat
    /\ (forall c t, 0 <= c < NumCentroids (params pq) -> 0 <= t < subVectorLen pq ->
          flat' !! Z.to_nat ((i * NumCentroids (params pq) + c) * subVectorLen pq + t)
          = nth (Z.to_nat c) centroids [] !! Z.to_nat t)
    /\ (forall n, ~ (i * NumCentroids (params pq) * subVectorLen pq <= n
                     < (i + 1) * NumCentroids (params pq) * subVectorLen pq) ->
          0 <= n -> flat' !! Z.to_nat n = flat !! Z.to_nat n).
Proof.
  set (M := NumSubVectors (params pq)). set (K := NumCentroids (params pq)).
  set (sub := subVectorLen pq).
  intros Hi HK Hsub HC Hcs Hflat.
  destruct (foldM_upto (flat_step pq i centroids)
              (fun c acc =>
                 length acc = length flat
                 /\ (forall c' t, 0 <= c' < c -> 0 <= t < sub ->
                       acc !! Z.to_nat ((i * K + c') * sub + t)
                       = nth (Z.to_nat c') centroids [] !! Z.to_nat t)
                 /\ (forall n, ~ (i * K * sub <= n < (i * K + c) * sub) -> 0 <= n ->
                       acc !! Z.to_nat n = flat !! Z.to_nat n))
              K flat) as (flat' & Hf & Hlen & Hin & Hout).
  { done. }
  { split; [done|]. split; [intros; lia|done]. }
  { intros c acc Hc (Hlen & Hin & Hout). unfold flat_step, flatCentroidSlice. fold K sub.
    rewrite (index_nth _ _ []) by lia. cbn [mbind option_bind].
    set (cc := nth (Z.to_nat c) centroids []).
    assert (Hcc : len cc = sub).
    { rewrite Forall_forall in Hcs. apply Hcs. apply list_elem_of_In. apply nth_In.
      unfold len in HC. lia. }
    assert (B1 : 0 <= i * K + c) by nia.
    assert (B2 : i * K + c + 1 <= M * K) by nia.
    pose proof (Z.mul_le_mono_nonneg_r _ _ sub Hsub B1) as B3.
    pose proof (Z.mul_le_mono_nonneg_r _ _ sub Hsub B2) as B4.
    replace (i * K * sub + c * sub) with ((i * K + c) * sub) by ring.
    replace ((i * K + c) * sub + sub) with ((i * K + c) * sub + len cc) by lia.
    destruct (copy_into_spec acc ((i * K + c) * sub) cc) as (acc' & Hcp & Hl' & Hlk).
    { lia. } { unfold len in *. rewrite Hlen. lia. }
    exists acc'. split; [exact Hcp|]. split; [congruence|].
    assert (Hccn : length cc = Z.to_nat sub) by (unfold len in Hcc; lia).
    split.
    - intros c' t Hc' Ht. rewrite Hlk. rewrite Hccn.
      destruct (decide (c' = c)) as [->|Hne].
      + destruct (Nat.leb_spec (Z.to_nat ((i * K + c) * sub))
                               (Z.to_nat ((i * K + c) * sub + t))); [|lia].
        destruct (Nat.ltb_spec (Z.to_nat ((i * K + c) * sub + t))
                               (Z.to_nat ((i * K + c) * sub) + Z.to_nat sub)); [|lia].
        cbn [andb]. f_equal. lia.
      + assert (c' * sub + sub <= c * sub) by nia.
        assert (0 <= c' * sub) by nia.
        destruct (Nat.leb_spec (Z.to_nat ((i * K + c) * sub))
                               (Z.to_nat ((i * K + c') * sub + t))); [nia|].
        cbn [andb]. apply Hin; lia.
    - intros n Hn Hn0. rewrite Hlk. rewrite Hccn.
      destruct (Nat.leb_spec (Z.to_nat ((i * K + c) * sub)) (Z.to_nat n));
        destruct (Nat.ltb_spec (Z.to_nat n) (Z.to_nat ((i * K + c) * sub) + Z.to_nat sub));
        cbn [andb]; try (apply Hout; [nia|lia]).
      exfalso. apply Hn. nia. }
  exists flat'. split; [done|]. split; [done|]. split; [done|].
  intros n Hn Hn0. apply Hout; [|done]. intros Hr. apply Hn.
  replace ((i + 1) * K * sub) with ((i * K + K) * sub) by ring. lia.
Qed.

Lemma dist_loop (pq : productQuantizer) (i : Z) (centroids : list (list float32))
  (dists : list float32) :
  0 <= i < NumSubVectors (params pq) -> 0 <= NumCentroids (params pq) ->
  len centroids = NumCentroids (params pq) ->
  len dists = NumSubVectors (params pq) * NumCentroids (params pq) * NumCentroids (params pq) ->
  exists dists',
    foldM (dist_row pq i centroids) dists (upto (NumCentroids (params pq))) = Some dists'
    /\ length dists' = length dists
    /\ (forall a b, 0 <= a < NumCentroids (params pq) -> 0 <= b < NumCentroids (params pq) ->
          dists' !! Z.to_nat (centroidDistIdx pq i a b)
          = Some (distFn pq (nth (Z.to_nat a) centroids []) (nth (Z.to_nat b) centroids [])))
    /\ (forall n, (forall a b, 0 <= a < NumCentroids (params pq) ->
                     0 <= b < NumCentroids (params pq) ->
                     Z.to_nat (centroidDistIdx pq i a b) <> n) ->
          dists' !! n = dists !! n).
Proof.
  set (M := NumSubVectors (params pq)). set (K := NumCentroids (params pq)).
  intros Hi HK HC Hd.
  unfold dist_row. fold K.
  rewrite (foldM_nested (dist_step pq i centroids) (fun _ => upto K)).
  destruct (foldM_store (fun jk : Z * Z => centroidDistIdx pq i (fst jk) (snd jk))
              (fun jk => distFn pq (nth (Z.to_nat (fst jk)) centroids [])
                                (nth (Z.to_nat (snd jk)) centroids []))
              (length dists)
              (fun a jk => dist_step pq i centroids (fst jk) a (snd jk))
              (flat_map (fun j => map (pair j) (upto K)) (upto K)) dists)
    as (dists' & Hf & Hlen & Hin & Hout).
  { done. }
  { intros acc [j k] Hjk _. apply elem_of_pairs in Hjk as [Hj Hk]. cbn [fst snd].
    unfold dist_step. rewrite (index_nth _ _ []) by lia. cbn [mbind option_bind].
    rewrite (index_nth _ _ []) by lia. reflexivity. }
  { intros [j k] Hjk. apply elem_of_pairs in Hjk as [Hj Hk]. cbn [fst snd].
    unfold centroidDistIdx. fold K. unfold len in Hd. rewrite Hd. fold M K.
    assert (0 <= i * K + j) by nia. assert (i * K + j + 1 <= M * K) by nia.
    pose proof (Z.mul_le_mono_nonneg_r _ _ K HK H) as B3.
    pose proof (Z.mul_le_mono_nonneg_r _ _ K HK H0) as B4.
    replace (i * K * K + j * K + k) with ((i * K + j) * K + k) by ring. lia. }
  { intros [j k] [j' k'] Hjk Hjk' E. apply elem_of_pairs in Hjk as [Hj Hk].
    apply elem_of_pairs in Hjk' as [Hj' Hk']. cbn [fst snd] in *.
    unfold centroidDistIdx in E. fold K in E.
    assert (j = j') by nia. subst j'. assert (k = k') by lia. subst k'. reflexivity. }
  exists dists'. split; [exact Hf|]. split; [done|]. split.
  - intros a b Ha Hb. apply (Hin (a, b)). by apply elem_of_pairs.
  - intros n Hn. apply Hout. intros [j k] Hjk. apply elem_of_pairs in Hjk as [Hj Hk].
    cbn [fst snd]. by apply Hn.
Qed.

Section FitRuns.

Variable kmeansFit : Z -> Z -> Z -> Z -> list (list float32) -> option KMeans.
Variable pq : productQuantizer.

Let M := NumSubVectors (params pq).
Let K := NumCentroids (params pq).
Let sub := subVectorLen pq.
Let vectors := map Vector (items pq).
Let tc := trained_centroid kmeansFit pq vectors.
Let labels (m : Z) := Labels (trained kmeansFit pq vectors m).

Hypothesis HM : 0 <= M.
Hypothesis HK : 0 <= K.
Hypothesis Hsub : 0 <= sub.
Hypothesis Htrainer : trainer_ok kmeansFit pq vectors.

(** The state after the goroutines of the first [m] subvectors. *)
Let fit_inv (m : Z) (st : list productQuantizedPoint * list float32 * list float32) : Prop :=
  let '(points, flat, dists) := st in
  length points = length (items pq)
  /\ len flat = M * K * sub
  /\ len dists = M * K * K
  /\ (forall (j : nat) p, items pq !! j = Some p ->
        exists p', points !! j = Some p'
          /\ pq_id p' = pq_id p /\ Vector p' = Vector p /\ isDirty p' = true
          /\ len (CentroidIds p') = M
          /\ forall m', 0 <= m' < m -> CentroidIds p' !! Z.to_nat m' = labels m' !! j)
  /\ (forall m' c t, 0 <= m' < m -> 0 <= c < K -> 0 <= t < sub ->
        flat !! Z.to_nat ((m' * K + c) * sub + t) = tc m' c !! Z.to_nat t)
  /\ (forall m' a b, 0 <= m' < m -> 0 <= a < K -> 0 <= b < K ->
        dists !! Z.to_nat (centroidDistIdx pq m' a b) = Some (distFn pq (tc m' a) (tc m' b))).

Lemma fit_subvector_step (i : Z)
  (st : list productQuantizedPoint * list float32 * list float32) :
  0 <= i < M -> fit_inv i st ->
  exists st', fit_subvector kmeansFit pq vectors st i = Some st' /\ fit_inv (i + 1) st'.
Proof.
  intros Hi. destruct st as [[points flat] dists].
  intros (Hlen & Hflat & Hdists & Hpts & Hfl & Hds).
  destruct (Htrainer i Hi) as (km & Hkm & HC & Hcs & HL).
  assert (Htr : trained kmeansFit pq vectors i = km).
  { unfold trained. fold K sub. unfold K, sub. rewrite Hkm. reflexivity. }
  unfold fit_subvector. rewrite Hkm. cbn [mbind option_bind].
  destruct (label_loop i (Labels km) points) as (points' & Hlab & Hlen' & Hrel).
  { lia. }
  { rewrite HL. unfold len, vectors. rewrite length_map, Hlen. lia. }
  { apply Forall_forall. intros p' Hp'. apply list_elem_of_lookup in Hp' as [j Hj].
    destruct (lookup_lt_is_Some_2 (items pq) j) as [p Hp].
    { apply lookup_lt_Some in Hj. lia. }
    destruct (Hpts j p Hp) as (p'' & Hp'' & _ & _ & _ & Hl & _).
    assert (p'' = p') by congruence. subst. fold M in Hl. lia. }
  rewrite Hlab. cbn [mbind option_bind].
  destruct (flat_loop pq i (Centroids km) flat) as (flat' & Hfloop & Hflen & Hfin & Hfout);
    try done.
  rewrite Hfloop. cbn [mbind option_bind].
  destruct (dist_loop pq i (Centroids km) dists) as (dists' & Hdloop & Hdlen & Hdin & Hdout);
    try done.
  rewrite Hdloop. cbn [mbind option_bind].
  eexists. split; [reflexivity|].
  split; [congruence|]. split; [unfold len in *; congruence|].
  split; [unfold len in *; congruence|]. split; [|split].
  - intros j p Hp. destruct (Hpts j p Hp) as (p' & Hp' & Hid & Hv & Hd & Hl & Hlbl).
    destruct (Hrel j p' Hp') as (l & Hlj & Hpj).
    exists (relabel i l p'). split; [done|]. cbn [relabel pq_id Vector isDirty CentroidIds].
    split; [done|]. split; [done|]. split; [done|].
    split; [unfold len in *; by rewrite length_insert|].
    intros m' Hm'. destruct (decide (m' = i)) as [->|Hne].
    + rewrite list_lookup_insert_eq by (unfold len in Hl; lia).
      unfold labels. rewrite Htr. done.
    + rewrite list_lookup_insert_ne by lia. apply Hlbl. lia.
  - intros m' c t Hm' Hc Ht. fold K sub in Hfin, Hfout.
    destruct (decide (m' = i)) as [->|Hne].
    + rewrite Hfin by done. unfold tc, trained_centroid. rewrite Htr. reflexivity.
    + assert (0 <= m' * K + c) by nia. assert (m' * K + c + 1 <= i * K) by nia.
      pose proof (Z.mul_le_mono_nonneg_r _ _ sub Hsub H) as B3.
      pose proof (Z.mul_le_mono_nonneg_r _ _ sub Hsub H0) as B4.
      rewrite Hfout; [apply Hfl; lia| |lia].
      replace (i * K * sub) with ((i * K) * sub) by ring. lia.
  - intros m' a b Hm' Ha Hb. fold K in Hdin, Hdout.
    destruct (decide (m' = i)) as [->|Hne].
    + rewrite Hdin by done. unfold tc, trained_centroid. rewrite Htr. reflexivity.
    + rewrite Hdout; [apply Hds; lia|].
      intros a' b' Ha' Hb'. unfold centroidDistIdx. fold K.
      assert (0 <= m' * K + a) by nia. assert (m' * K + a + 1 <= i * K) by nia.
      pose proof (Z.mul_le_mono_nonneg_r _ _ K HK H) as B3.
      pose proof (Z.mul_le_mono_nonneg_r _ _ K HK H0) as B4.
      assert (0 <= a' * K) by nia. 
      replace (m' * K * K + a * K + b) with ((m' * K + a) * K + b) by ring.
      replace (i * K * K + a' * K + b') with ((i * K) * K + a' * K + b') by ring.
      lia.
Qed.

Lemma tc_length (m c : Z) : 0 <= m < M -> 0 <= c < K -> len (tc m c) = sub.
Proof.
  intros Hm Hc. destruct (Htrainer m Hm) as (km & Hkm & HC & Hcs & _).
  unfold tc, trained_centroid, trained. fold K sub. unfold K, sub. rewrite Hkm.
  cbn [default]. rewrite Forall_forall in Hcs. apply Hcs.
  apply list_elem_of_In, nth_In. unfold len in HC. fold K in HC. lia.
Qed.

(** When [Fit] runs with a trainer that honours its contract it returns
    without error, and the tables and codes are the trainer's output. *)
Lemma Fit_runs :
  flatCentroids pq = [] ->
  TriggerThreshold (params pq) <= Count (items pq) ->
  exists points flat dists,
    Fit kmeansFit pq = Some (pq_set_tables pq points dists flat, None)
    /\ len flat = M * K * sub
    /\ len dists = M * K * K
    /\ length points = length (items pq)
    /\ (forall (j : nat) p, items pq !! j = Some p ->
          exists p', points !! j = Some p'
            /\ pq_id p' = pq_id p /\ Vector p' = Vector p /\ isDirty p' = true
            /\ len (CentroidIds p') = M
            /\ forall m, 0 <= m < M -> CentroidIds p' !! Z.to_nat m = labels m !! j)
    /\ (forall m c, 0 <= m < M -> 0 <= c < K ->
          centroid_of (pq_set_tables pq points dists flat) m c = tc m c)
    /\ (forall m a b, 0 <= m < M -> 0 <= a < K -> 0 <= b < K ->
          dists !! Z.to_nat (centroidDistIdx pq m a b)
          = Some (distFn pq (tc m a) (tc m b))).
Proof.
  intros Hflat Htrig. unfold Fit. rewrite Hflat. cbn [len length Z.of_nat Z.eqb negb].
  destruct (Z.ltb_spec (Count (items pq)) (TriggerThreshold (params pq))) as [?|_]; [lia|].
  rewrite collect_pass by done. cbn [mbind option_bind]. fold M K sub vectors.
  unfold make.
  assert (0 <= M * K) by nia.
  destruct (Z.ltb_spec (M * K * sub) 0) as [?|_]; [nia|].
  destruct (Z.ltb_spec (M * K * K) 0) as [?|_]; [nia|].
  cbn [mbind option_bind].
  destruct (foldM_upto (fit_subvector kmeansFit pq vectors) fit_inv M
              (map (reset_point pq) (items pq),
               replicate (Z.to_nat (M * K * sub)) F32.zero,
               replicate (Z.to_nat (M * K * K)) F32.zero))
    as ([[points flat] dists] & Hf & Hinv).
  { done. }
  { split; [apply length_map|]. unfold len. rewrite !length_replicate.
    split; [lia|]. split; [lia|]. split; [|split; intros; lia].
    intros j p Hp. exists (reset_point pq p).
    split; [apply list_lookup_fmap_Some; eauto|]. cbn. repeat split; try done.
    - rewrite length_replicate. fold M. lia.
    - intros; lia. }
  { intros i st Hi Hst. by apply fit_subvector_step. }
  rewrite Hf. cbn [mbind option_bind].
  destruct Hinv as (Hlen & Hfl & Hdl & Hpts & Hfc & Hdc).
  exists points, flat, dists. split; [reflexivity|].
  split; [done|]. split; [done|]. split; [done|]. split; [done|]. split; [|done].
  intros m c Hm Hc. unfold centroid_of, pq_set_tables. cbn. fold K sub.
  pose proof (tc_length m c Hm Hc) as Htl.
  apply list_eq. intros t.
  destruct (Nat.lt_ge_cases t (Z.to_nat sub)) as [Ht|Ht].
  - rewrite lookup_take_lt by done. rewrite lookup_drop.
    specialize (Hfc m c (Z.of_nat t) Hm Hc ltac:(lia)).
    rewrite Nat2Z.id in Hfc. rewrite <- Hfc. f_equal. nia.
  - rewrite lookup_take_ge by done. symmetry. apply lookup_ge_None_2.
    unfold len in Htl. lia.
Qed.

End FitRuns.

(** A fit that runs on a proper geometry leaves a fitted quantizer. *)
Lemma Fit_fitted (kmeansFit : Z -> Z -> Z -> Z -> list (list float32) -> option KMeans)
  (pq : productQuantizer) :
  flatCentroids pq = [] ->
  TriggerThreshold (params pq) <= Count (items pq) ->
  0 < NumSubVectors (params pq) -> 0 < NumCentroids (params pq) <= 256 ->
  0 < subVectorLen pq ->
  trainer_ok kmeansFit pq (map Vector (items pq)) ->
  exists pq', Fit kmeansFit pq = Some (pq', None) /\ fitted pq'.
Proof.
  intros Hflat Htrig HM HK Hsub Htr.
  destruct (Fit_runs kmeansFit pq ltac:(lia) ltac:(lia) ltac:(lia) Htr Hflat Htrig)
    as (points & flat & dists & HFit & Hlen & _).
  exists (pq_set_tables pq points dists flat). split; [exact HFit|].
  split; cbn; lia.
Qed.

(** ** The Euclidean kernel in binary32 *)

Lemma binary_round_aux_opp (s : bool) (m e : Z) (l : location) :
  binary_round_aux F32.prec F32.emax (negb s) m e l
  = SFopp (binary_round_aux F32.prec F32.emax s m e l).
Proof.
  unfold binary_round_aux.
  destruct (shr_fexp F32.prec F32.emax m e l) as [mrs' e'].
  destruct (shr_fexp F32.prec F32.emax _ e' loc_Exact) as [mrs'' e''].
  destruct (shr_m mrs'') as [|p|p]; [reflexivity| |reflexivity].
  destruct (e'' <=? F32.emax - F32.prec); reflexivity.
Qed.

Lemma binary_normalize_opp (m e : Z) :
  m <> 0 ->
  binary_normalize F32.prec F32.emax (- m) e false
  = SFopp (binary_normalize F32.prec F32.emax m e false).
Proof.
  intros Hm. destruct m as [|p|p]; [done| |].
  - change (- Z.pos p) with (Z.neg p). unfold binary_normalize, binary_round.
    destruct (shl_align p e _) as [mz ez].
    apply (binary_round_aux_opp false).
  - change (- Z.neg p) with (Z.pos p). unfold binary_normalize, binary_round.
    destruct (shl_align p e _) as [mz ez].
    rewrite (binary_round_aux_opp false).
    by destruct (binary_round_aux _ _ _ _ _ _) as [[]|[]| |[] ? ?].
Qed.

Lemma mul_opp_opp (d : float32) : F32.mul (SFopp d) (SFopp d) = F32.mul d d.
Proof. destruct d as [[]|[]| |[] m e]; reflexivity. Qed.

Lemma sub_swap_square (a b : float32) :
  F32.mul (F32.sub a b) (F32.sub a b) = F32.mul (F32.sub b a) (F32.sub b a).
Proof.
  destruct a as [sa|sa| |sa ma ea], b as [sb|sb| |sb mb eb];
    try (destruct sa, sb; reflexivity); try (destruct sa; reflexivity);
    try (destruct sb; reflexivity); try reflexivity.
  unfold F32.sub, SFsub. cbn zeta. rewrite (Z.min_comm eb ea).
  set (A := cond_Zopp sa (Z.pos (fst (shl_align ma ea (Z.min ea eb))))).
  set (B := cond_Zopp sb (Z.pos (fst (shl_align mb eb (Z.min ea eb))))).
  destruct (Z.eq_dec (A - B) 0) as [E|E].
  - replace (B - A) with 0 by lia. rewrite E. reflexivity.
  - replace (B - A) with (- (A - B)) by lia. rewrite binary_normalize_opp by done.
    symmetry. apply mul_opp_opp.
Qed.

Lemma euclidean_fold_sym (x y : list float32) (acc : float32) :
  fold_left (fun (sum : float32) (ab : float32 * float32) =>
               let diff := F32.sub (fst ab) (snd ab) in F32.add sum (F32.mul diff diff))
            (zip x y) acc
  = fold_left (fun (sum : float32) (ab : float32 * float32) =>
               let diff := F32.sub (fst ab) (snd ab) in F32.add sum (F32.mul diff diff))
            (zip y x) acc.
Proof.
  revert y acc. induction x as [|a x IH]; intros [|b y] acc; try reflexivity.
  cbn [zip_with fold_left fst snd]. rewrite (sub_swap_square a b). apply IH.
Qed.

Lemma euclideanDistance_sym (x y : list float32) :
  euclideanDistance x y = euclideanDistance y x.
Proof. apply euclidean_fold_sym. Qed.

Lemma sub_diag_finite (a : float32) : F32.is_finite a = true -> F32.sub a a = F32.zero.
Proof.
  destruct a as [[]|[]| |s m e]; try discriminate; try reflexivity.
  intros _. unfold F32.sub, SFsub. cbn zeta. rewrite Z.sub_diag. reflexivity.
Qed.

Lemma euclideanDistance_diag (x : list float32) :
  Forall (fun a => F32.is_finite a = true) x -> euclideanDistance x x = F32.zero.
Proof.
  unfold euclideanDistance. induction 1 as [|a x Ha _ IH]; [reflexivity|].
  cbn [zip_with fold_left fst snd]. rewrite (sub_diag_finite a Ha). exact IH.
Qed.

Lemma square_sign_clear (d : float32) : sign_clear (F32.mul d d).
Proof.
  destruct d as [[]|[]| |s m e]; try reflexivity.
  unfold F32.mul, SFmul. replace (xorb s s) with false by (by destruct s).
  unfold binary_round_aux.
  destruct (shr_fexp F32.prec F32.emax _ _ _) as [mrs' e'].
  destruct (shr_fexp F32.prec F32.emax _ e' loc_Exact) as [mrs'' e''].
  destruct (shr_m mrs'') as [|p|p]; [reflexivity| |exact I].
  destruct (e'' <=? F32.emax - F32.prec); reflexivity.
Qed.

Lemma add_sign_clear (x y : float32) :
  sign_clear x -> sign_clear y -> sign_clear (F32.add x y).
Proof.
  destruct x as [sx|sx| |sx mx ex], y as [sy|sy| |sy my ey];
    try (cbn; intros Hx Hy; subst; try reflexivity; exact I).
  intros Hx Hy. cbn in Hx, Hy. subst sx sy.
  unfold F32.add, SFadd. cbn zeta. unfold cond_Zopp.
  set (pa := fst (shl_align mx ex (Z.min ex ey))).
  set (pb := fst (shl_align my ey (Z.min ex ey))).
  change (Z.pos pa + Z.pos pb) with (Z.pos (pa + pb)).
  unfold binary_normalize, binary_round.
  destruct (shl_align (pa + pb) _ _) as [mz ez]. unfold binary_round_aux.
  destruct (shr_fexp F32.prec F32.emax _ _ _) as [mrs' e'].
  destruct (shr_fexp F32.prec F32.emax _ e' loc_Exact) as [mrs'' e''].
  destruct (shr_m mrs'') as [|p|p]; [reflexivity| |exact I].
  destruct (e'' <=? F32.emax - F32.prec); reflexivity.
Qed.

Lemma euclideanDistance_sign_clear (x y : list float32) :
  sign_clear (euclideanDistance x y).
Proof.
  unfold euclideanDistance.
  assert (G : forall l acc, sign_clear acc ->
            sign_clear (fold_left
              (fun (sum : float32) (ab : float32 * float32) =>
                 let diff := F32.sub (fst ab) (snd ab) in F32.add sum (F32.mul diff diff))
              l acc)).
  { induction l as [|ab l IH]; intros acc Hacc; [done|].
    cbn [fold_left]. apply IH. apply add_sign_clear; [done|apply square_sign_clear]. }
  apply G. reflexivity.
Qed.

Lemma sign_clear_nonneg (x : float32) :
  sign_clear x -> F32.is_nan x = false -> F32.leb F32.zero x = true.
Proof. destruct x as [[]|[]| |[] m e]; cbn; intros H1 H2; congruence. Qed.

(** ** The centroid-distance table after the fit *)

(** C5, as [Fit] fills the table: when [Fit] runs with a trainer that
    honours its contract, every entry [centroid_dists[m, a, b]] is the
    quantizer's kernel between the stored centroids [a] and [b] of subvector
    [m]; under the Euclidean kernel it is bit for bit the entry
    [centroid_dists[m, b, a]], it is non-negative unless NaN, and the diagonal
    is zero when the centroid's coordinates are finite. *)
Theorem Fit_centroid_dists
  (kmeansFit : Z -> Z -> Z -> Z -> list (list float32) -> option KMeans)
  (pq : productQuantizer) :
  flatCentroids pq = [] ->
  TriggerThreshold (params pq) <= Count (items pq) ->
  0 <= NumSubVectors (params pq) -> 0 <= NumCentroids (params pq) ->
  0 <= subVectorLen pq ->
  trainer_ok kmeansFit pq (map Vector (items pq)) ->
  exists pq' : productQuantizer,
    Fit kmeansFit pq = Some (pq', None)
    /\ forall m a b,
         0 <= m < NumSubVectors (params pq) ->
         0 <= a < NumCentroids (params pq) -> 0 <= b < NumCentroids (params pq) ->
         exists d : float32,
           centroidDists pq' !! Z.to_nat (centroidDistIdx pq' m a b) = Some d
           /\ d = distFn pq' (centroid_of pq' m a) (centroid_of pq' m b)
           /\ (distFn pq' = euclideanDistance ->
               centroidDists pq' !! Z.to_nat (centroidDistIdx pq' m b a) = Some d
               /\ (F32.is_nan d = false -> F32.leb F32.zero d = true)
               /\ (a = b ->
                   Forall (fun x => F32.is_finite x = true) (centroid_of pq' m a) ->
                   d = F32.zero)).
Proof.
  intros Hflat Htrig HM HK Hsub Htr.
  destruct (Fit_runs kmeansFit pq HM HK Hsub Htr Hflat Htrig)
    as (points & flat & dists & HFit & _ & _ & _ & _ & Hcent & Hdist).
  exists (pq_set_tables pq points dists flat). split; [exact HFit|].
  intros m a b Hm Ha Hb.
  exists (distFn pq (centroid_of (pq_set_tables pq points dists flat) m a)
                    (centroid_of (pq_set_tables pq points dists flat) m b)).
  change (centroidDists (pq_set_tables pq points dists flat)) with dists.
  change (distFn (pq_set_tables pq points dists flat)) with (distFn pq).
  change (centroidDistIdx (pq_set_tables pq points dists flat))
    with (centroidDistIdx pq).
  rewrite !Hcent by done.
  split; [by apply Hdist|]. split; [reflexivity|].
  intros Heuc. rewrite Heuc. split; [|split].
  - rewrite Hdist by done. rewrite Heuc. f_equal. apply euclideanDistance_sym.
  - apply sign_clear_nonneg. apply euclideanDistance_sign_clear.
  - intros -> Hfin. by apply euclideanDistance_diag.
Qed.

Lemma s1_trainer_ok : trainer_ok Lloyd.Fit s1_pq (map Vector (items s1_pq)).
Proof.
  intros m Hm. cbn in Hm.
  assert (Hcases : m = 0 \/ m = 1) by lia.
  destruct Hcases as [-> | ->]; eexists;
    (split; [vm_compute; reflexivity|]);
    (split; [reflexivity|]); (split; [repeat constructor|reflexivity]).
Qed.

Lemma Fit_centroid_dists_witness :
  exists pq' : productQuantizer,
    Fit Lloyd.Fit s1_pq = Some (pq', None)
    /\ forall m a b,
         0 <= m < NumSubVectors (params s1_pq) ->
         0 <= a < NumCentroids (params s1_pq) -> 0 <= b < NumCentroids (params s1_pq) ->
         exists d : float32,
           centroidDists pq' !! Z.to_nat (centroidDistIdx pq' m a b) = Some d
           /\ d = distFn pq' (centroid_of pq' m a) (centroid_of pq' m b)
           /\ (distFn pq' = euclideanDistance ->
               centroidDists pq' !! Z.to_nat (centroidDistIdx pq' m b a) = Some d
               /\ (F32.is_nan d = false -> F32.leb F32.zero d = true)
               /\ (a = b ->
                   Forall (fun x => F32.is_finite x = true) (centroid_of pq' m a) ->
                   d = F32.zero)).
Proof.
  apply (Fit_centroid_dists Lloyd.Fit s1_pq).
  - reflexivity.
  - apply Z.leb_le. reflexivity.
  - apply Z.leb_le. reflexivity.
  - apply Z.leb_le. reflexivity.
  - apply Z.leb_le. reflexivity.
  - exact s1_trainer_ok.
Defined.

(** Scenario S1 of the spec: after the fit every code has two entries,
    points 1 and 2 share their code and differ from points 3 and 4. *)
Example Fit_s1 :
  map CentroidIds (items s1_fitted) = [[0; 1]; [0; 1]; [1; 0]; [1; 0]]
  /\ DistanceFromPoint s1_fitted (PQPoint (s1_point 0)) (PQPoint (s1_point 1))
     = Some (F32.zero, [])
  /\ (exists d, DistanceFromPoint s1_fitted (PQPoint (s1_point 0)) (PQPoint (s1_point 2))
                = Some (d, [])
                /\ F32.ltb F32.zero d = true).
Proof.
  split; [reflexivity|]. split; [vm_compute; reflexivity|].
  eexists. split; vm_compute; reflexivity.
Qed.

(** The claim of C5 fails under the dot kernel: fitted on the points 1 and
    -1 with two centroids, the table holds the negative entry
    [centroid_dists[0, 0, 1] = -1]. *)
Lemma Fit_dot_table_negative :
  exists pq' : productQuantizer,
    Fit Lloyd.Fit dotfit_pq = Some (pq', None)
    /\ floatDistanceFns DistanceDot = inl (distFn dotfit_pq)
    /\ flatCentroids pq' = [f32 1; f32 (-1)]
    /\ centroidDists pq' !! Z.to_nat (centroidDistIdx pq' 0 0 1) = Some (f32 (-1))
    /\ F32.ltb (f32 (-1)) F32.zero = true.
Proof.
  assert (He : option_map (fun r => (centroidDists (fst r), flatCentroids (fst r),
                                     NumCentroids (params (fst r)), snd r))
                          (Fit Lloyd.Fit dotfit_pq)
               = Some ([f32 1; f32 (-1); f32 (-1); f32 1], [f32 1; f32 (-1)], 2, None))
    by (vm_compute; reflexivity).
  destruct (Fit Lloyd.Fit dotfit_pq) as [[pq' e]|]; [|discriminate He].
  exists pq'. cbn [option_map fst snd] in He. injection He as Hd Hf HK ->.
  split; [reflexivity|]. split; [reflexivity|]. split; [exact Hf|].
  unfold centroidDistIdx. rewrite HK, Hd. split; reflexivity.
Qed.

(** ** Idempotence of the fit *)

Lemma label_step_keys (i : Z) (labels : list Z) (points : list productQuantizedPoint)
  (j : Z) (points' : list productQuantizedPoint) :
  label_step i labels points j = Some points' ->
  map point_key points' = map point_key points.
Proof.
  unfold label_step. intros H.
  destruct (index points j) as [p|] eqn:Hp; [|discriminate]. cbn [mbind option_bind] in H.
  destruct (index labels j) as [l|]; [|discriminate]. cbn [mbind option_bind] in H.
  destruct (store (CentroidIds p) i l) as [ids|]; [|discriminate].
  cbn [mbind option_bind] in H. unfold store in H.
  destruct ((0 <=? j) && (j <? len points)); [|discriminate]. injection H as <-.
  apply index_Some in Hp as [_ Hp].
  rewrite list_fmap_insert. apply list_insert_id.
  rewrite list_lookup_fmap, Hp. reflexivity.
Qed.

Lemma foldM_preserves {A B C} (f : A -> B -> option A) (k : A -> C) (l : list B) (a a' : A) :
  (forall a1 b a2, f a1 b = Some a2 -> k a2 = k a1) ->
  foldM f a l = Some a' -> k a' = k a.
Proof.
  intros Hstep H.
  apply (foldM_invariant f (fun _ a1 => k a1 = k a) l a a'); [reflexivity| |exact H].
  intros pre b a1 a2 H1 H2. rewrite <- H1. eapply Hstep; eauto.
Qed.

Section Idempotence.

Variable kmeansFit : Z -> Z -> Z -> Z -> list (list float32) -> option KMeans.

Lemma fit_subvector_keys (pq : productQuantizer) (vectors : list (list float32))
  (st : list productQuantizedPoint * list float32 * list float32) (i : Z)
  (st' : list productQuantizedPoint * list float32 * list float32) :
  fit_subvector kmeansFit pq vectors st i = Some st' ->
  map point_key (fst (fst st')) = map point_key (fst (fst st)).
Proof.
  destruct st as [[points flat] dists]. unfold fit_subvector. intros H.
  destruct (kmeansFit _ _ _ _ _) as [km|]; [|discriminate]. cbn [mbind option_bind] in H.
  destruct (foldM (label_step i (Labels km)) points _) as [points'|] eqn:Hl;
    [|discriminate].
  cbn [mbind option_bind] in H.
  destruct (foldM (flat_step pq i (Centroids km)) flat _) as [flat'|]; [|discriminate].
  cbn [mbind option_bind] in H.
  destruct (foldM (dist_row pq i (Centroids km)) dists _) as [dists'|]; [|discriminate].
  injection H as <-. cbn [fst].
  apply (foldM_preserves _ (map point_key) _ _ _ (label_step_keys i (Labels km)) Hl).
Qed.

Lemma collect_keys (pq : productQuantizer) (points points' : list productQuantizedPoint)
  (acc : list (list float32)) :
  map point_key points' = map point_key points ->
  ForEach (collect_step pq) acc points' = ForEach (collect_step pq) acc points.
Proof.
  revert points acc. induction points' as [|p' points' IH]; intros [|p points] acc H;
    try discriminate; [reflexivity|].
  cbn [map] in H. injection H as Hid Hv Hrest. cbn [ForEach].
  assert (Hstep : collect_step pq acc p' = collect_step pq acc p).
  { destruct p, p'. cbn in Hid, Hv. subst. reflexivity. }
  rewrite Hstep. destruct (collect_step pq acc p) as [[s1 p1]|]; [|reflexivity].
  cbn [mbind option_bind]. rewrite (IH points) by done. reflexivity.
Qed.

Lemma collect_pass_keys (pq : productQuantizer) (points points' : list productQuantizedPoint)
  (acc vs : list (list float32)) :
  ForEach (collect_step pq) acc points = Some (vs, points') ->
  map point_key points' = map point_key points.
Proof.
  revert acc vs points'. induction points as [|p points IH]; intros acc vs points' H.
  - injection H as _ <-. reflexivity.
  - cbn [ForEach] in H.
    destruct (collect_step pq acc p) as [[s1 p1]|] eqn:E1;
      cbn [mbind option_bind] in H; [|discriminate].
    destruct (ForEach (collect_step pq) s1 points) as [[s2 rest]|] eqn:E;
      cbn [mbind option_bind] in H; [|discriminate].
    injection H as _ <-. cbn [map]. f_equal; [|eapply IH; exact E].
    unfold collect_step in E1.
    destruct (make (NumSubVectors (params pq)) 0) as [ids|];
      cbn [mbind option_bind] in E1; [|discriminate].
    injection E1 as _ <-. reflexivity.
Qed.

Lemma Fit_gated (pq : productQuantizer) :
  flatCentroids pq <> [] \/ Count (items pq) < TriggerThreshold (params pq) ->
  Fit kmeansFit pq = Some (pq, None).
Proof.
  intros H. unfold Fit.
  destruct (len (flatCentroids pq) =? 0) eqn:E; [|reflexivity]. cbn [negb].
  apply len_zero_iff in E. destruct H as [H|H]; [contradiction|].
  destruct (Z.ltb_spec (Count (items pq)) (TriggerThreshold (params pq))); [reflexivity|lia].
Qed.

Lemma Fit_twice (pq pq' : productQuantizer) (e : error) :
  Fit kmeansFit pq = Some (pq', e) ->
  e = None /\ Fit kmeansFit pq' = Some (pq', None).
Proof.
  intros H.
  destruct (decide (flatCentroids pq <> [] \/ Count (items pq) < TriggerThreshold (params pq)))
    as [Hg|Hg].
  { rewrite (Fit_gated pq Hg) in H. injection H as <- <-. split; [done|by apply Fit_gated]. }
  assert (Hflat : flatCentroids pq = []).
  { destruct (flatCentroids pq); [done|]. exfalso. apply Hg. left. done. }
  assert (Htrig : TriggerThreshold (params pq) <= Count (items pq)) by lia.
  unfold Fit in H. rewrite Hflat in H.
  change (negb (len (@nil float32) =? 0)) with false in H. cbv iota in H.
  destruct (Z.ltb_spec (Count (items pq)) (TriggerThreshold (params pq))) as [?|_]; [lia|].
  destruct (ForEach (collect_step pq) [] (items pq)) as [[allVectors allPoints]|] eqn:Ecol;
    [|discriminate].
  cbn [mbind option_bind] in H.
  destruct (make (NumSubVectors (params pq) * NumCentroids (params pq) * subVectorLen pq)
                 F32.zero) as [flat0|] eqn:Ef; [|discriminate].
  cbn [mbind option_bind] in H.
  destruct (make (NumSubVectors (params pq) * NumCentroids (params pq)
                  * NumCentroids (params pq)) F32.zero) as [dists0|] eqn:Ed; [|discriminate].
  cbn [mbind option_bind] in H.
  destruct (foldM (fit_subvector kmeansFit pq allVectors) _ _)
    as [[[points flat] dists]|] eqn:Eloop; [|discriminate].
  cbn [mbind option_bind] in H. cbv beta iota in H.
  injection H as <- <-. split; [reflexivity|].
  destruct (decide (flat = [])) as [->|Hne]; [|apply Fit_gated; left; exact Hne].
  (* the degenerate geometry: the table is empty and [Fit] runs again *)
  assert (Hkeys : map point_key points = map point_key (items pq)).
  { pose proof (foldM_preserves _ (fun st => map point_key (fst (fst st))) _ _ _
                  (fit_subvector_keys pq allVectors) Eloop) as Hk.
    cbn [fst] in Hk. rewrite Hk.
    eapply collect_pass_keys. exact Ecol. }
  unfold Fit. cbn [flatCentroids pq_set_tables len length Z.of_nat Z.eqb negb items params
                   subVectorLen].
  assert (Hcount : Count points = Count (items pq)).
  { unfold Count, len. apply (f_equal length) in Hkeys. rewrite !length_map in Hkeys.
    by rewrite Hkeys. }
  rewrite Hcount.
  destruct (Z.ltb_spec (Count (items pq)) (TriggerThreshold (params pq))) as [?|_]; [lia|].
  change (collect_step (pq_set_tables pq points dists [])) with (collect_step pq).
  rewrite (collect_keys pq (items pq) points) by done. rewrite Ecol.
  cbn [mbind option_bind]. rewrite Ef, Ed. cbn [mbind option_bind].
  change (fit_subvector kmeansFit (pq_set_tables pq points dists []))
    with (fit_subvector kmeansFit pq).
  rewrite Eloop. reflexivity.
Qed.

End Idempotence.

Lemma bq_Fit_gated (bq : binaryQuantizer) :
  threshold bq <> Nil \/ Count (bq_items bq) < bq_TriggerThreshold (bq_params bq) ->
  bq_Fit bq = Some (bq, None).
Proof.
  intros H. unfold bq_Fit. destruct (threshold bq) as [|thr] eqn:E; [|reflexivity].
  cbn [is_nil negb orb]. destruct H as [H|H]; [done|].
  destruct (Z.ltb_spec (Count (bq_items bq)) (bq_TriggerThreshold (bq_params bq)));
    [reflexivity|lia].
Qed.

Lemma bq_sum_step_point (acc acc' : slice float32 * Z) (p p' : binaryQuantizedPoint) :
  bq_sum_step acc p = Some (acc', p') -> p' = p /\ is_nil (fst acc') = false.
Proof.
  unfold bq_sum_step. destruct acc as [sum count].
  destruct (foldM _ _ _) as [sum1|]; cbn [mbind option_bind]; [|discriminate].
  intros [= <- <-]. done.
Qed.

Lemma sum_pass_inv (points points' : ItemCache binaryQuantizedPoint)
  (acc acc' : slice float32 * Z) :
  ForEach bq_sum_step acc points = Some (acc', points') ->
  points' = points /\ (points <> [] -> is_nil (fst acc') = false).
Proof.
  revert acc acc' points'. induction points as [|p points IH]; intros acc acc' points' H.
  - injection H as <- <-. done.
  - cbn [ForEach] in H.
    destruct (bq_sum_step acc p) as [[acc1 p1]|] eqn:E1;
      cbn [mbind option_bind] in H; [|discriminate].
    destruct (ForEach bq_sum_step acc1 points) as [[acc2 rest]|] eqn:E2;
      cbn [mbind option_bind] in H; [|discriminate].
    injection H as <- <-.
    apply bq_sum_step_point in E1 as [-> Hn1].
    destruct (IH _ _ _ E2) as [-> Hn2]. split; [reflexivity|]. intros _.
    destruct points as [|q points]; [|by apply Hn2].
    injection E2 as <-. exact Hn1.
Qed.

Lemma is_nil_divide_all (sum : slice float32) (count : Z) :
  is_nil (divide_all sum count) = is_nil sum.
Proof. by destruct sum. Qed.

Lemma bq_Fit_twice (bq bq' : binaryQuantizer) (e : error) :
  bq_Fit bq = Some (bq', e) -> e = None /\ bq_Fit bq' = Some (bq', None).
Proof.
  intros H.
  assert (Hgate : forall b, bq_Fit b = Some (bq', e) ->
            (threshold b <> Nil \/ Count (bq_items b) < bq_TriggerThreshold (bq_params b)) ->
            e = None /\ bq_Fit bq' = Some (bq', None)).
  { intros b Hb Hg. rewrite (bq_Fit_gated b Hg) in Hb. injection Hb as <- <-.
    split; [done|by apply bq_Fit_gated]. }
  destruct (threshold bq) as [|thr] eqn:Hnil.
  2:{ apply (Hgate bq H). left. rewrite Hnil. discriminate. }
  destruct (Z.lt_ge_cases (Count (bq_items bq)) (bq_TriggerThreshold (bq_params bq)))
    as [Hlt|Htrig].
  { apply (Hgate bq H). by right. }
  clear Hgate. unfold bq_Fit in H. rewrite Hnil in H. cbn [is_nil negb orb] in H.
  destruct (Z.ltb_spec (Count (bq_items bq)) (bq_TriggerThreshold (bq_params bq)))
    as [?|_]; [lia|].
  destruct (ForEach bq_sum_step (Nil, 0) (bq_items bq)) as [[[sum count] items1]|] eqn:E1;
    cbn [mbind option_bind] in H; [|discriminate].
  destruct (ForEach _ tt items1) as [[u items2]|] eqn:E2;
    cbn [mbind option_bind] in H; [|discriminate].
  injection H as <- <-. split; [reflexivity|].
  pose proof (sum_pass_inv _ _ _ _ E1) as [-> Hsum]. cbn [fst] in Hsum.
  destruct (bq_items bq) as [|p points] eqn:Ei.
  - (* an empty cache: nothing was learnt, and the second call repeats the first *)
    cbn [ForEach] in E1, E2. injection E1 as <- <-. injection E2 as <- <-.
    unfold bq_Fit. cbn [threshold bq_items bq_params bq_set_items bq_set_threshold
                        divide_all is_nil negb orb].
    change (Count (@nil binaryQuantizedPoint)) with 0 in *.
    destruct (Z.ltb_spec 0 (bq_TriggerThreshold (bq_params bq))); [lia|].
    reflexivity.
  - apply bq_Fit_gated. left. cbn [threshold bq_set_items bq_set_threshold].
    specialize (Hsum ltac:(done)). rewrite <- (is_nil_divide_all sum count) in Hsum.
    destruct (divide_all sum count); [discriminate|done].
Qed.

(** C6: [Fit] is gated and idempotent.  When the centroid table of the
    product quantizer or the threshold of the binary quantizer is populated,
    or the cache holds fewer points than the trigger, [Fit] returns no error
    and leaves the quantizer, its tables and its points as they were; and
    whenever a call of [Fit] returns, the next call changes nothing. *)
Theorem Fit_gated_idempotent
  (kmeansFit : Z -> Z -> Z -> Z -> list (list float32) -> option KMeans)
  (pq : productQuantizer) (bq : binaryQuantizer) :
  (flatCentroids pq <> [] \/ Count (items pq) < TriggerThreshold (params pq) ->
   Fit kmeansFit pq = Some (pq, None))
  /\ (threshold bq <> Nil \/ Count (bq_items bq) < bq_TriggerThreshold (bq_params bq) ->
      bq_Fit bq = Some (bq, None))
  /\ (forall pq' e, Fit kmeansFit pq = Some (pq', e) ->
        e = None /\ Fit kmeansFit pq' = Some (pq', None))
  /\ (forall bq' e, bq_Fit bq = Some (bq', e) ->
        e = None /\ bq_Fit bq' = Some (bq', None)).
Proof.
  split; [apply Fit_gated|]. split; [apply bq_Fit_gated|].
  split; [apply Fit_twice|apply bq_Fit_twice].
Qed.

Lemma Fit_gated_idempotent_witness :
  Fit Lloyd.Fit s1_fitted = Some (s1_fitted, None)
  /\ bq_Fit s4_bq = Some (s4_bq, None).
Proof.
  split.
  - apply (proj1 (Fit_gated_idempotent Lloyd.Fit s1_fitted s4_bq)).
    left. discriminate.
  - apply (proj1 (proj2 (Fit_gated_idempotent Lloyd.Fit s1_fitted s4_bq))).
    left. discriminate.
Defined.

(** ** Byte codecs *)

Lemma length_le_bytes (n : nat) (x : Z) : length (le_bytes n x) = n.
Proof. revert x. induction n as [|n IH]; intros x; cbn; [done|by rewrite IH]. Qed.

Lemma le_value_le_bytes (n : nat) (x : Z) :
  0 <= x < 256 ^ Z.of_nat n -> le_value (le_bytes n x) = x.
Proof.
  revert x. induction n as [|n IH]; intros x Hx.
  - cbn in *. lia.
  - cbn [le_bytes le_value]. rewrite IH.
    + pose proof (Z.div_mod x 256 ltac:(lia)). lia.
    + replace (Z.of_nat (S n)) with (Z.of_nat n + 1) in Hx by lia.
      rewrite Z.pow_add_r, Z.pow_1_r in Hx by lia.
      split; [apply Z.div_pos; lia|]. apply Z.div_lt_upper_bound; lia.
Qed.

Lemma le_bytes_inj (n : nat) (x y : Z) :
  0 <= x < 256 ^ Z.of_nat n -> 0 <= y < 256 ^ Z.of_nat n ->
  le_bytes n x = le_bytes n y -> x = y.
Proof.
  intros Hx Hy E. rewrite <- (le_value_le_bytes n x Hx), <- (le_value_le_bytes n y Hy).
  by rewrite E.
Qed.

Lemma wrap64_range (x : Z) : 0 <= wrap64 x < 256 ^ Z.of_nat 8.
Proof. unfold wrap64. change (256 ^ Z.of_nat 8) with (2 ^ 64). apply Z.mod_pos_bound. lia. Qed.

Lemma wrap64_small (x : Z) : 0 <= x < 2 ^ 64 -> wrap64 x = x.
Proof. intros H. unfold wrap64. by apply Z.mod_small. Qed.

Lemma NodeKey_inj (id id' tag tag' : Z) :
  NodeKey id tag = NodeKey id' tag' -> tag = tag' /\ wrap64 id = wrap64 id'.
Proof.
  unfold NodeKey. remember (le_bytes 8 (wrap64 id)) as L eqn:HL.
  remember (le_bytes 8 (wrap64 id')) as L' eqn:HL'. intros [= Ht Hr]. split; [done|].
  apply (f_equal (@rev Z)) in Hr. rewrite !rev_involutive in Hr. subst L L'.
  apply (le_bytes_inj 8); [apply wrap64_range|apply wrap64_range|done].
Qed.

Lemma NodeKey_ne_id (id id' tag tag' : Z) :
  0 <= id < 2 ^ 64 -> 0 <= id' < 2 ^ 64 -> id <> id' -> NodeKey id tag <> NodeKey id' tag'.
Proof.
  intros Hi Hi' Hne E. apply NodeKey_inj in E as [_ E].
  rewrite !wrap64_small in E by done. contradiction.
Qed.

Lemma NodeIdFromKey_NodeKey (id tag tag' : Z) :
  NodeIdFromKey (NodeKey id tag) tag'
  = if tag =? tag' then (wrap64 id, true) else (0, false).
Proof.
  unfold NodeIdFromKey, NodeKey.
  assert (Hl : len (rev (le_bytes 8 (wrap64 id))) = 8).
  { unfold len. by rewrite length_rev, length_le_bytes. }
  rewrite Hl, rev_involutive. destruct (tag =? tag'); [|reflexivity].
  cbn [andb Z.eqb]. rewrite le_value_le_bytes by apply wrap64_range. reflexivity.
Qed.

Lemma BytesToEdgeList_app (w : Z) (rest : list Z) :
  0 <= w < 2 ^ 64 ->
  BytesToEdgeList (le_bytes 8 w ++ rest) = w :: BytesToEdgeList rest.
Proof.
  intros Hw. pose proof (le_value_le_bytes 8 w Hw) as E.
  cbn [le_bytes] in *. cbn [app BytesToEdgeList]. by rewrite E.
Qed.

Lemma EdgeList_roundtrip (ws : list Z) :
  Forall (fun w => 0 <= w < 2 ^ 64) ws -> BytesToEdgeList (EdgeListToBytes ws) = ws.
Proof.
  induction 1 as [|w ws Hw _ IH]; [reflexivity|].
  unfold EdgeListToBytes in *. cbn [flat_map]. rewrite BytesToEdgeList_app by done.
  by rewrite IH.
Qed.

(** The binary32 values: canonical finite numbers, zeros, infinities, NaN. *)
Lemma pow2_double (d : Z) : 0 < d -> 2 ^ d = 2 * 2 ^ (d - 1).
Proof.
  intros Hd. replace d with (Z.succ (d - 1)) at 1 by lia. apply Z.pow_succ_r. lia.
Qed.

Lemma digits2_pos_bounds (m : positive) :
  2 ^ (Z.pos (digits2_pos m) - 1) <= Z.pos m < 2 ^ Z.pos (digits2_pos m).
Proof.
  induction m as [m IH|m IH|]; cbn [digits2_pos]; [| |cbn; lia].
  all: rewrite Pos2Z.inj_succ;
    pose proof (pow2_double (Z.pos (digits2_pos m)) ltac:(lia)) as Hd;
    replace (Z.succ (Z.pos (digits2_pos m)) - 1) with (Z.pos (digits2_pos m)) by lia;
    rewrite Z.pow_succ_r by lia.
  - change (Z.pos m~1) with (2 * Z.pos m + 1). lia.
  - change (Z.pos m~0) with (2 * Z.pos m). lia.
Qed.

Lemma valid_finite_cases (m : positive) (e : Z) :
  bounded F32.prec F32.emax m e = true ->
  (Z.pos m < 2 ^ 23 /\ e = -149) \/ (2 ^ 23 <= Z.pos m < 2 ^ 24 /\ -149 <= e <= 104).
Proof.
  unfold bounded, canonical_mantissa, fexp, emin, F32.prec, F32.emax.
  intros H. apply andb_prop in H as [H1 H2].
  apply Z.eqb_eq in H1. apply Z.leb_le in H2.
  pose proof (digits2_pos_bounds m) as [Hlo Hhi].
  destruct (Z.le_gt_cases 24 (Z.pos (digits2_pos m))) as [Hd|Hd].
  - assert (Z.pos (digits2_pos m) = 24) by lia. right. rewrite H in *.
    change (2 ^ (24 - 1)) with (2 ^ 23) in Hlo. lia.
  - left. assert (e = -149) by lia. split; [|done].
    assert (2 ^ Z.pos (digits2_pos m) <= 2 ^ 23) by (apply Z.pow_le_mono_r; lia). lia.
Qed.

Lemma bits_fields (S E Mm : Z) :
  0 <= S <= 1 -> 0 <= E < 256 -> 0 <= Mm < 2 ^ 23 ->
  let b := S * 2 ^ 31 + E * 2 ^ 23 + Mm in
  Z.testbit b 31 = (S =? 1) /\ (b / 2 ^ 23) mod 256 = E /\ b mod 2 ^ 23 = Mm
  /\ 0 <= b < 2 ^ 32.
Proof.
  intros HS HE HM b.
  assert (Hb : b = (S * 256 + E) * 2 ^ 23 + Mm) by (unfold b; lia).
  assert (Hb31 : b = S * 2 ^ 31 + (E * 2 ^ 23 + Mm)) by (unfold b; lia).
  split; [|split; [|split]].
  - rewrite Z.testbit_odd, Z.shiftr_div_pow2 by lia.
    replace (b / 2 ^ 31) with S by (apply Z.div_unique with (r := E * 2 ^ 23 + Mm); lia).
    assert (S = 0 \/ S = 1) as [-> | ->] by lia; reflexivity.
  - replace (b / 2 ^ 23) with (S * 256 + E) by (apply Z.div_unique with (r := Mm); lia).
    symmetry. apply Z.mod_unique with (q := S); lia.
  - symmetry. apply Z.mod_unique with (q := S * 256 + E); lia.
  - lia.
Qed.

Lemma f32_bits_roundtrip (x : float32) :
  valid_binary F32.prec F32.emax x = true ->
  bits_f32 (f32_bits x) = x /\ 0 <= f32_bits x < 2 ^ 32.
Proof.
  intros Hv. unfold bits_f32, f32_bits.
  destruct x as [s|s| |s m e].
  - destruct (bits_fields (if s then 1 else 0) 0 0) as (H1 & H2 & H3 & H4);
      [destruct s; lia|lia|lia|].
    cbn zeta in *.
    replace ((if s then 1 else 0) * 2 ^ 31 + 0 * 2 ^ 23 + 0)
      with (if s then 2 ^ 31 else 0) in * by (destruct s; lia).
    rewrite H1, H2, H3. split; [|done]. by destruct s.
  - destruct (bits_fields (if s then 1 else 0) 255 0) as (H1 & H2 & H3 & H4);
      [destruct s; lia|lia|lia|].
    cbn zeta in *.
    replace ((if s then 1 else 0) * 2 ^ 31 + 255 * 2 ^ 23 + 0)
      with ((if s then 2 ^ 31 else 0) + 255 * 2 ^ 23) in * by (destruct s; lia).
    rewrite H1, H2, H3. split; [|done]. by destruct s.
  - split; [reflexivity|]. cbn. lia.
  - cbn [valid_binary] in Hv. apply valid_finite_cases in Hv as [[Hm He]|[Hm He]].
    + destruct (Z.ltb_spec (Z.pos m) (2 ^ 23)) as [_|?]; [|lia].
      destruct (bits_fields (if s then 1 else 0) 0 (Z.pos m)) as (H1 & H2 & H3 & H4);
        [destruct s; lia|lia|lia|].
      cbn zeta in *.
      replace ((if s then 1 else 0) * 2 ^ 31 + 0 * 2 ^ 23 + Z.pos m)
        with ((if s then 2 ^ 31 else 0) + Z.pos m) in * by (destruct s; lia).
      rewrite H1, H2, H3. split; [|done]. subst e. by destruct s.
    + destruct (Z.ltb_spec (Z.pos m) (2 ^ 23)) as [?|_]; [lia|].
      destruct (bits_fields (if s then 1 else 0) (e + 150) (Z.pos m - 2 ^ 23))
        as (H1 & H2 & H3 & H4); [destruct s; lia|lia|lia|].
      cbn zeta in *.
      replace ((if s then 1 else 0) * 2 ^ 31 + (e + 150) * 2 ^ 23 + (Z.pos m - 2 ^ 23))
        with ((if s then 2 ^ 31 else 0) + (e + 150) * 2 ^ 23 + (Z.pos m - 2 ^ 23)) in *
        by (destruct s; lia).
      rewrite H1, H2, H3. split; [|done].
      destruct (Z.eqb_spec (e + 150) 255); [lia|].
      destruct (Z.eqb_spec (e + 150) 0); [lia|].
      replace (Z.pos m - 2 ^ 23 + 2 ^ 23) with (Z.pos m) by lia.
      replace (e + 150 - 150) with e by lia. by destruct s.
Qed.

Lemma Float32_roundtrip (v : list float32) :
  Forall (fun x => valid_binary F32.prec F32.emax x = true) v ->
  BytesToFloat32 (Float32ToBytes v) = v.
Proof.
  induction 1 as [|x v Hx _ IH]; [reflexivity|].
  unfold Float32ToBytes in *. cbn [flat_map].
  destruct (f32_bits_roundtrip x Hx) as [Hr Hb].
  pose proof (le_value_le_bytes 4 (f32_bits x) Hb) as E.
  remember (f32_bits x) as b. cbn [le_bytes] in *. cbn [app BytesToFloat32].
  rewrite E, Hr, IH. reflexivity.
Qed.

(** ** Points on the store *)

Lemma Storage_Put_writable (st : Storage) (k v : list Z) :
  st_readOnly st = false ->
  Storage_Put st k v = (mkStorage (<[k := v]> (st_data st)) false, None).
Proof. intros H. unfold Storage_Put. by rewrite H. Qed.

Lemma Storage_Delete_writable (st : Storage) (k : list Z) :
  st_readOnly st = false ->
  Storage_Delete st k = (mkStorage (delete k (st_data st)) false, None).
Proof. intros H. unfold Storage_Delete. by rewrite H. Qed.

Lemma len_nonzero {A} (l : list A) : l <> [] -> (len l =? 0) = false.
Proof.
  intros H. destruct (len l =? 0) eqn:E; [|done]. apply len_zero_iff in E. contradiction.
Qed.

Lemma tag_q_ne_v : tag_q <> tag_v.
Proof. unfold tag_q, tag_v. lia. Qed.

(** The store after [pq_WriteTo] on a writable store. *)
Lemma pq_WriteTo_writable (p : productQuantizedPoint) (id : Z) (st : Storage) :
  st_readOnly st = false ->
  pq_WriteTo p id st
  = (mkStorage
       ((if len (CentroidIds p) =? 0 then fun m => m
         else <[NodeKey id tag_q := CentroidIds p]>)
          ((if len (Vector p) =? 0 then fun m => m
            else <[NodeKey id tag_v := Float32ToBytes (Vector p)]>) (st_data st)))
       false, None).
Proof.
  intros Hw. unfold pq_WriteTo. destruct st as [data ro]. cbn in Hw. subst ro.
  destruct (len (Vector p) =? 0), (len (CentroidIds p) =? 0); reflexivity.
Qed.

(** X1: A point with a code reads back as its code alone: the raw vector stays
    on the store and is not loaded. *)
Theorem pq_code_roundtrip (p : productQuantizedPoint) (id : Z) (st : Storage) :
  st_readOnly st = false -> CentroidIds p <> [] ->
  exists st',
    pq_WriteTo p id st = (st', None)
    /\ pq_ReadFrom id st' = (mkPQPoint id [] (CentroidIds p) false, None)
    /\ (Vector p <> [] ->
        Storage_Get st' (NodeKey id tag_v) = Some (Float32ToBytes (Vector p))).
Proof.
  intros Hw Hc. rewrite pq_WriteTo_writable by done. rewrite (len_nonzero _ Hc).
  eexists. split; [reflexivity|]. split.
  - unfold pq_ReadFrom, Storage_Get. cbn [st_data]. rewrite lookup_insert_eq. reflexivity.
  - intros Hv. rewrite (len_nonzero _ Hv). unfold Storage_Get. cbn [st_data].
    rewrite lookup_insert_ne by (apply NodeKey_tag_inj, tag_q_ne_v).
    apply lookup_insert_eq.
Qed.

Lemma pq_code_roundtrip_witness :
  exists st',
    pq_WriteTo pq_point_noraw 9 emptyStorage = (st', None)
    /\ pq_ReadFrom 9 st' = (mkPQPoint 9 [] (CentroidIds pq_point_noraw) false, None)
    /\ (Vector pq_point_noraw <> [] ->
        Storage_Get st' (NodeKey 9 tag_v) = Some (Float32ToBytes (Vector pq_point_noraw))).
Proof. apply (pq_code_roundtrip pq_point_noraw 9 emptyStorage); [reflexivity | discriminate]. Defined.

(** X2: A point without code reads back as its raw vector when the store holds
    no code for the id; a code already stored under the id masks the vector
    just written. *)
Theorem pq_raw_roundtrip (p : productQuantizedPoint) (id : Z) (st : Storage) :
  st_readOnly st = false -> CentroidIds p = [] -> Vector p <> [] ->
  Forall is_float32 (Vector p) ->
  exists st',
    pq_WriteTo p id st = (st', None)
    /\ pq_ReadFrom id st'
       = match Storage_Get st (NodeKey id tag_q) with
         | Some stale => (mkPQPoint id [] stale false, None)
         | None => (mkPQPoint id (Vector p) [] false, None)
         end.
Proof.
  intros Hw Hc Hv Hvalid. rewrite pq_WriteTo_writable by done.
  rewrite Hc, (len_nonzero _ Hv). change (len (@nil Z) =? 0) with true. cbv beta iota.
  eexists. split; [reflexivity|].
  unfold pq_ReadFrom, Storage_Get. cbn [st_data].
  rewrite lookup_insert_ne by (intros E; apply NodeKey_inj in E as [E _]; revert E;
                               unfold tag_q, tag_v; lia).
  destruct (st_data st !! NodeKey id tag_q); [reflexivity|].
  rewrite lookup_insert_eq. by rewrite Float32_roundtrip.
Qed.

Lemma pq_raw_roundtrip_witness :
  exists st',
    pq_WriteTo pq_point_raw 3 emptyStorage = (st', None)
    /\ pq_ReadFrom 3 st'
       = match Storage_Get emptyStorage (NodeKey 3 tag_q) with
         | Some stale => (mkPQPoint 3 [] stale false, None)
         | None => (mkPQPoint 3 (Vector pq_point_raw) [] false, None)
         end.
Proof.
  apply (pq_raw_roundtrip pq_point_raw 3 emptyStorage);
    [reflexivity | reflexivity | discriminate | repeat constructor].
Defined.

(** The store after [DeleteFrom] on a writable store. *)
Lemma DeleteFrom_writable (id : Z) (st : Storage) :
  st_readOnly st = false ->
  DeleteFrom id st
  = (mkStorage (delete (NodeKey id tag_q) (delete (NodeKey id tag_v) (st_data st))) false,
     None).
Proof.
  intros Hw. unfold DeleteFrom. destruct st as [data ro]. cbn in Hw. subst ro. reflexivity.
Qed.

(** X3: After [DeleteFrom] neither key is left and the point reads back as not
    found, whatever the store held; every other key is untouched. *)
Theorem DeleteFrom_not_found (id : Z) (st : Storage) :
  st_readOnly st = false ->
  exists st',
    DeleteFrom id st = (st', None)
    /\ Storage_Get st' (NodeKey id tag_v) = None
    /\ Storage_Get st' (NodeKey id tag_q) = None
    /\ pq_ReadFrom id st' = (mkPQPoint id [] [] false, Some ErrNotFound)
    /\ bq_ReadFrom id st' = (mkBQPoint id [] [] false, Some ErrNotFound)
    /\ (forall k, k <> NodeKey id tag_v -> k <> NodeKey id tag_q ->
          Storage_Get st' k = Storage_Get st k).
Proof.
  intros Hw. rewrite DeleteFrom_writable by done. eexists. split; [reflexivity|].
  assert (Hv : Storage_Get
                 (mkStorage (delete (NodeKey id tag_q) (delete (NodeKey id tag_v) (st_data st)))
                            false) (NodeKey id tag_v) = None).
  { unfold Storage_Get. cbn [st_data].
    rewrite lookup_delete_ne by (apply NodeKey_tag_inj, tag_q_ne_v). apply lookup_delete_eq. }
  assert (Hq : Storage_Get
                 (mkStorage (delete (NodeKey id tag_q) (delete (NodeKey id tag_v) (st_data st)))
                            false) (NodeKey id tag_q) = None).
  { unfold Storage_Get. cbn [st_data]. apply lookup_delete_eq. }
  split; [exact Hv|]. split; [exact Hq|].
  split; [unfold pq_ReadFrom; by rewrite Hq, Hv|].
  split; [unfold bq_ReadFrom; by rewrite Hq, Hv|].
  intros k Hkv Hkq. unfold Storage_Get. cbn [st_data].
  rewrite !lookup_delete_ne by done. reflexivity.
Qed.

Lemma DeleteFrom_not_found_witness :
  exists st',
    DeleteFrom 7 storage_with_v = (st', None)
    /\ Storage_Get st' (NodeKey 7 tag_v) = None
    /\ Storage_Get st' (NodeKey 7 tag_q) = None
    /\ pq_ReadFrom 7 st' = (mkPQPoint 7 [] [] false, Some ErrNotFound)
    /\ bq_ReadFrom 7 st' = (mkBQPoint 7 [] [] false, Some ErrNotFound)
    /\ (forall k, k <> NodeKey 7 tag_v -> k <> NodeKey 7 tag_q ->
          Storage_Get st' k = Storage_Get storage_with_v k).
Proof. apply (DeleteFrom_not_found 7 storage_with_v). reflexivity. Defined.

(** No operation on a point changes a key that is not one of the point's
    two keys, on any store and whether it fails or not. *)
Lemma pq_WriteTo_frame (p : productQuantizedPoint) (id : Z) (st : Storage) (k : list Z) :
  k <> NodeKey id tag_v -> k <> NodeKey id tag_q ->
  Storage_Get (fst (pq_WriteTo p id st)) k = Storage_Get st k.
Proof.
  intros Hv Hq. unfold pq_WriteTo, Storage_Put, Storage_Get.
  destruct st as [data [|]]; cbn [st_readOnly st_data];
    destruct (len (Vector p) =? 0), (len (CentroidIds p) =? 0); cbn;
    rewrite ?lookup_insert_ne by done; reflexivity.
Qed.

Lemma bq_WriteTo_frame (p : binaryQuantizedPoint) (id : Z) (st : Storage) (k : list Z) :
  k <> NodeKey id tag_v -> k <> NodeKey id tag_q ->
  Storage_Get (fst (bq_WriteTo p id st)) k = Storage_Get st k.
Proof.
  intros Hv Hq. unfold bq_WriteTo, Storage_Put, Storage_Get.
  destruct st as [data [|]]; cbn [st_readOnly st_data];
    destruct (len (BinaryVector p) =? 0), (len (bq_Vector p) =? 0); cbn;
    rewrite ?lookup_insert_ne by done; reflexivity.
Qed.

Lemma DeleteFrom_frame (id : Z) (st : Storage) (k : list Z) :
  k <> NodeKey id tag_v -> k <> NodeKey id tag_q ->
  Storage_Get (fst (DeleteFrom id st)) k = Storage_Get st k.
Proof.
  intros Hv Hq. unfold DeleteFrom, Storage_Delete, Storage_Get.
  destruct st as [data [|]]; cbn; rewrite ?lookup_delete_ne by done; reflexivity.
Qed.

Lemma pq_ReadFrom_ext (id : Z) (st st' : Storage) :
  Storage_Get st' (NodeKey id tag_q) = Storage_Get st (NodeKey id tag_q) ->
  Storage_Get st' (NodeKey id tag_v) = Storage_Get st (NodeKey id tag_v) ->
  pq_ReadFrom id st' = pq_ReadFrom id st.
Proof. intros Hq Hv. unfold pq_ReadFrom. by rewrite Hq, Hv. Qed.

Lemma bq_ReadFrom_ext (id : Z) (st st' : Storage) :
  Storage_Get st' (NodeKey id tag_q) = Storage_Get st (NodeKey id tag_q) ->
  Storage_Get st' (NodeKey id tag_v) = Storage_Get st (NodeKey id tag_v) ->
  bq_ReadFrom id st' = bq_ReadFrom id st.
Proof. intros Hq Hv. unfold bq_ReadFrom. by rewrite Hq, Hv. Qed.

(** X4: Writing or deleting the point of one id never changes what is read for
    another id. *)
Theorem persistence_isolated (id id' : Z) (st : Storage)
  (p : productQuantizedPoint) (b : binaryQuantizedPoint) :
  0 <= id < 2 ^ 64 -> 0 <= id' < 2 ^ 64 -> id <> id' ->
  pq_ReadFrom id' (fst (pq_WriteTo p id st)) = pq_ReadFrom id' st
  /\ pq_ReadFrom id' (fst (DeleteFrom id st)) = pq_ReadFrom id' st
  /\ bq_ReadFrom id' (fst (bq_WriteTo b id st)) = bq_ReadFrom id' st
  /\ bq_ReadFrom id' (fst (DeleteFrom id st)) = bq_ReadFrom id' st.
Proof.
  intros Hi Hi' Hne.
  assert (Hk : forall t t', NodeKey id' t <> NodeKey id t').
  { intros t t'. apply NodeKey_ne_id; done. }
  repeat split.
  - apply pq_ReadFrom_ext; apply pq_WriteTo_frame; apply Hk.
  - apply pq_ReadFrom_ext; apply DeleteFrom_frame; apply Hk.
  - apply bq_ReadFrom_ext; apply bq_WriteTo_frame; apply Hk.
  - apply bq_ReadFrom_ext; apply DeleteFrom_frame; apply Hk.
Qed.

Lemma persistence_isolated_witness :
  pq_ReadFrom 7 (fst (pq_WriteTo pq_point_raw 3 storage_with_v)) = pq_ReadFrom 7 storage_with_v
  /\ pq_ReadFrom 7 (fst (DeleteFrom 3 storage_with_v)) = pq_ReadFrom 7 storage_with_v
  /\ bq_ReadFrom 7 (fst (bq_WriteTo bq_encoded_point 3 storage_with_v))
     = bq_ReadFrom 7 storage_with_v
  /\ bq_ReadFrom 7 (fst (DeleteFrom 3 storage_with_v)) = bq_ReadFrom 7 storage_with_v.
Proof.
  apply (persistence_isolated 3 7 storage_with_v pq_point_raw bq_encoded_point); lia.
Defined.

(** X5: On a read-only store a write of a point that holds anything and every
    delete fail with the store's error and change nothing; a point that holds
    neither vector nor code is accepted without a write. *)
Theorem read_only_store (p : productQuantizedPoint) (b : binaryQuantizedPoint)
  (id : Z) (st : Storage) :
  st_readOnly st = true ->
  pq_WriteTo p id st
  = (st, if (len (Vector p) =? 0) && (len (CentroidIds p) =? 0) then None
         else Some StorageFailure)
  /\ bq_WriteTo b id st
     = (st, if (len (BinaryVector b) =? 0) && (len (bq_Vector b) =? 0) then None
            else Some StorageFailure)
  /\ DeleteFrom id st = (st, Some StorageFailure).
Proof.
  intros Hro. unfold pq_WriteTo, bq_WriteTo, DeleteFrom, Storage_Put, Storage_Delete.
  rewrite Hro. repeat split.
  - destruct (len (Vector p) =? 0), (len (CentroidIds p) =? 0); cbn; rewrite ?Hro;
      reflexivity.
  - destruct (len (BinaryVector b) =? 0), (len (bq_Vector b) =? 0); cbn; rewrite ?Hro;
      reflexivity.
Qed.

Lemma read_only_store_witness :
  pq_WriteTo pq_point_raw 3 nullReadOnlyStorage
  = (nullReadOnlyStorage,
     if (len (Vector pq_point_raw) =? 0) && (len (CentroidIds pq_point_raw) =? 0) then None
     else Some StorageFailure)
  /\ bq_WriteTo bq_encoded_point 3 nullReadOnlyStorage
     = (nullReadOnlyStorage,
        if (len (BinaryVector bq_encoded_point) =? 0) && (len (bq_Vector bq_encoded_point) =? 0)
        then None else Some StorageFailure)
  /\ DeleteFrom 3 nullReadOnlyStorage = (nullReadOnlyStorage, Some StorageFailure).
Proof.
  apply (read_only_store pq_point_raw bq_encoded_point 3 nullReadOnlyStorage). reflexivity.
Defined.

(** The empty read-only store of [storage.go] holds no point. *)
Lemma nullReadOnlyStorage_empty (id : Z) :
  pq_ReadFrom id nullReadOnlyStorage = (mkPQPoint id [] [] false, Some ErrNotFound)
  /\ bq_ReadFrom id nullReadOnlyStorage = (mkBQPoint id [] [] false, Some ErrNotFound).
Proof. split; reflexivity. Qed.

(** X6: The packed bits of a point read back as they were written, and the raw
    vector is neither written nor loaded. *)
Theorem bq_code_roundtrip (p : binaryQuantizedPoint) (id : Z) (st : Storage) :
  st_readOnly st = false -> BinaryVector p <> [] ->
  Forall (fun w => 0 <= w < 2 ^ 64) (BinaryVector p) ->
  exists st',
    bq_WriteTo p id st = (st', None)
    /\ bq_ReadFrom id st' = (mkBQPoint id [] (BinaryVector p) false, None)
    /\ Storage_Get st' (NodeKey id tag_v) = Storage_Get st (NodeKey id tag_v).
Proof.
  intros Hw Hb Hwords. unfold bq_WriteTo. rewrite (len_nonzero _ Hb). cbn [negb].
  rewrite Storage_Put_writable by done. eexists. split; [reflexivity|]. split.
  - unfold bq_ReadFrom, Storage_Get. cbn [st_data]. rewrite lookup_insert_eq.
    by rewrite EdgeList_roundtrip.
  - unfold Storage_Get. cbn [st_data]. apply lookup_insert_ne.
    apply NodeKey_tag_inj, tag_q_ne_v.
Qed.

Lemma bq_code_roundtrip_witness :
  exists st',
    bq_WriteTo bq_encoded_point 7 storage_with_v = (st', None)
    /\ bq_ReadFrom 7 st' = (mkBQPoint 7 [] (BinaryVector bq_encoded_point) false, None)
    /\ Storage_Get st' (NodeKey 7 tag_v) = Storage_Get storage_with_v (NodeKey 7 tag_v).
Proof.
  apply (bq_code_roundtrip bq_encoded_point 7 storage_with_v);
    [reflexivity | discriminate | repeat constructor; lia].
Defined.

(** X7: A binary point without bits reads back as its raw vector when the store
    holds no bits for the id; bits already stored under the id mask the
    vector just written. *)
Theorem bq_raw_roundtrip (p : binaryQuantizedPoint) (id : Z) (st : Storage) :
  st_readOnly st = false -> BinaryVector p = [] -> bq_Vector p <> [] ->
  Forall is_float32 (bq_Vector p) ->
  exists st',
    bq_WriteTo p id st = (st', None)
    /\ bq_ReadFrom id st'
       = match Storage_Get st (NodeKey id tag_q) with
         | Some stale => (mkBQPoint id [] (BytesToEdgeList stale) false, None)
         | None => (mkBQPoint id (bq_Vector p) [] false, None)
         end.
Proof.
  intros Hw Hb Hv Hvalid. unfold bq_WriteTo. rewrite Hb, (len_nonzero _ Hv).
  change (len (@nil Z) =? 0) with true. cbn [negb].
  rewrite Storage_Put_writable by done. eexists. split; [reflexivity|].
  unfold bq_ReadFrom, Storage_Get. cbn [st_data].
  rewrite lookup_insert_ne by (apply not_eq_sym, NodeKey_tag_inj, tag_q_ne_v).
  destruct (st_data st !! NodeKey id tag_q); [reflexivity|].
  rewrite lookup_insert_eq. by rewrite Float32_roundtrip.
Qed.

Lemma bq_raw_roundtrip_witness :
  exists st',
    bq_WriteTo bq_raw_point 7 emptyStorage = (st', None)
    /\ bq_ReadFrom 7 st'
       = match Storage_Get emptyStorage (NodeKey 7 tag_q) with
         | Some stale => (mkBQPoint 7 [] (BytesToEdgeList stale) false, None)
         | None => (mkBQPoint 7 (bq_Vector bq_raw_point) [] false, None)
         end.
Proof.
  apply (bq_raw_roundtrip bq_raw_point 7 emptyStorage);
    [reflexivity | reflexivity | discriminate | repeat constructor].
Defined.


(** ** The binary code beyond equal lengths *)

Lemma index_None_ge {A} (l : list A) (i : Z) : len l <= i -> index l i = None.
Proof.
  intros H. destruct (index l i) eqn:E; [|done].
  apply index_Some in E as [? _]. lia.
Qed.

(** The loop of [encode] panics at the first index past the threshold. *)
Lemma bq_encode_loop_panics (thr : list float32) :
  forall (vs : list float32) (k : nat) (enc : list Z),
    (k <= length thr)%nat -> (length thr < k + length vs)%nat ->
    Z.of_nat (k + length vs) <= 64 * len enc ->
    foldM (bq_encode_step thr) enc (zip (map Z.of_nat (seq k (length vs))) vs) = None.
Proof.
  induction vs as [|v vs IH]; intros k enc Hk Hlong Henc.
  - simpl in Hlong. lia.
  - cbn [length seq map zip_with]. rewrite foldM_cons.
    destruct (decide (k = length thr)) as [->|Hne].
    + assert (E : bq_encode_step thr enc (Z.of_nat (length thr), v) = None).
      { unfold bq_encode_step. rewrite (index_None_ge thr) by (unfold len; lia). reflexivity. }
      rewrite E. reflexivity.
    + destruct (lookup_lt_is_Some_2 thr k) as [t Ht]; [lia|].
      destruct (bq_encode_step_spec thr enc (Z.of_nat k) v t) as (enc1 & Hs & Hl1 & _).
      { lia. } { rewrite Nat2Z.id. done. }
      { simpl in Henc. apply Z.div_lt_upper_bound; lia. }
      rewrite Hs. cbn [mbind option_bind]. apply IH.
      * lia.
      * simpl in Hlong. lia.
      * simpl in Henc. unfold len in *. rewrite Hl1. lia.
Qed.

Lemma wrap64_bounds (x : Z) : 0 <= wrap64 x < 2 ^ 64.
Proof. unfold wrap64. apply Z.mod_pos_bound. lia. Qed.

(** Every word the loop of [encode] stores is a [uint64]. *)
Lemma bq_encode_step_words (thr : list float32) (enc enc' : list Z) (iv : Z * float32) :
  Forall (fun w => 0 <= w < 2 ^ 64) enc ->
  bq_encode_step thr enc iv = Some enc' ->
  Forall (fun w => 0 <= w < 2 ^ 64) enc'.
Proof.
  intros Hall. destruct iv as [i v]. unfold bq_encode_step.
  destruct (index thr i) as [t|]; cbn [mbind option_bind]; [|discriminate].
  destruct (F32.gtb v t); [|intros [= <-]; done].
  destruct (index enc (Z.quot i 64)) as [w|]; cbn [mbind option_bind]; [|discriminate].
  unfold store.
  destruct ((0 <=? Z.quot i 64) && (Z.quot i 64 <? len enc)); [|discriminate].
  intros [= <-]. apply Forall_insert; [done|]. apply wrap64_bounds.
Qed.

Lemma bq_encode_loop_words (thr : list float32) (l : list (Z * float32)) :
  forall enc enc',
    Forall (fun w => 0 <= w < 2 ^ 64) enc ->
    foldM (bq_encode_step thr) enc l = Some enc' ->
    Forall (fun w => 0 <= w < 2 ^ 64) enc'.
Proof.
  induction l as [|iv l IH]; intros enc enc' Hall.
  - intros [= <-]. done.
  - rewrite foldM_cons. destruct (bq_encode_step thr enc iv) as [enc1|] eqn:E;
      cbn [mbind option_bind]; [|discriminate].
    apply IH. eapply bq_encode_step_words; eauto.
Qed.

Lemma bq_encode_words (bq : binaryQuantizer) (vector : list float32) (enc : list Z) :
  bq_encode bq vector = Some (Slice enc) -> Forall (fun w => 0 <= w < 2 ^ 64) enc.
Proof.
  unfold bq_encode. destruct (threshold bq) as [|thr]; [discriminate|].
  cbv zeta. destruct (make _ 0) as [enc0|] eqn:Em; cbn [mbind option_bind]; [|discriminate].
  destruct (foldM _ _ _) as [enc1|] eqn:Ef; cbn [mbind option_bind]; [|discriminate].
  intros [= <-]. eapply bq_encode_loop_words; [|exact Ef].
  unfold make in Em. destruct (_ <? 0); [discriminate|]. injection Em as <-.
  apply Forall_replicate. lia.
Qed.

(** The code under a threshold at least as long as the vector. *)
Lemma bq_encode_long_threshold (bq : binaryQuantizer) (vector thr : list float32) :
  threshold bq = Slice thr -> (length vector <= length thr)%nat ->
  exists enc : list Z,
    bq_encode bq vector = Some (Slice enc)
    /\ len enc = (len vector + 63) / 64
    /\ (forall (i : Z) (x t : float32),
          0 <= i -> vector !! Z.to_nat i = Some x -> thr !! Z.to_nat i = Some t ->
          bit_of enc i = F32.gtb x t)
    /\ (forall j, len vector <= j -> bit_of enc j = false).
Proof.
  intros Hthr Hlen. unfold bq_encode. rewrite Hthr.
  pose proof (len_nonneg vector) as Hd.
  rewrite numUint64s_ceil by done.
  assert (Hw : 0 <= (len vector + 63) / 64) by (apply Z.div_pos; lia).
  unfold make. destruct (Z.ltb_spec ((len vector + 63) / 64) 0) as [?|_]; [lia|].
  cbn [mbind option_bind].
  set (enc0 := replicate (Z.to_nat ((len vector + 63) / 64)) 0).
  destruct (bq_encode_loop_spec thr vector 0 enc0) as (enc & Hf & Hl & Hout & Hin).
  { simpl. lia. }
  { assert (E : len enc0 = (len vector + 63) / 64).
    { unfold len at 1. unfold enc0. rewrite length_replicate. lia. }
    rewrite E. change (0 + length vector)%nat with (length vector).
    fold (len vector).
    pose proof (Z.div_mod (len vector + 63) 64 ltac:(lia)).
    pose proof (Z.mod_pos_bound (len vector + 63) 64 ltac:(lia)).
    unfold len in *. lia. }
  unfold range, upto, len. rewrite Nat2Z.id. rewrite Hf.
  exists enc. split; [reflexivity|]. split; [|split].
  - unfold len in *. rewrite Hl. unfold enc0. rewrite length_replicate. lia.
  - intros i x t Hi Hx Ht.
    specialize (Hin (Z.to_nat i) x t Hx Ht). simpl in Hin.
    rewrite Z2Nat.id in Hin by done. unfold enc0 in Hin.
    rewrite bit_of_replicate in Hin. exact Hin.
  - intros j Hj. rewrite Hout.
    + apply bit_of_replicate.
    + unfold len in *. lia.
    + right. simpl. unfold len in Hj. lia.
Qed.

Lemma bq_encode_short_threshold (bq : binaryQuantizer) (vector thr : list float32) :
  threshold bq = Slice thr -> (length thr < length vector)%nat ->
  bq_encode bq vector = None.
Proof.
  intros Hthr Hlong. unfold bq_encode. rewrite Hthr.
  pose proof (len_nonneg vector) as Hd.
  rewrite numUint64s_ceil by done.
  assert (Hw : 0 <= (len vector + 63) / 64) by (apply Z.div_pos; lia).
  unfold make. destruct (Z.ltb_spec ((len vector + 63) / 64) 0) as [?|_]; [lia|].
  cbn [mbind option_bind]. unfold range, upto, len. rewrite Nat2Z.id.
  rewrite bq_encode_loop_panics; [reflexivity|lia|simpl; lia|].
  unfold len. rewrite length_replicate. simpl.
  pose proof (Z.div_mod (len vector + 63) 64 ltac:(lia)).
  pose proof (Z.mod_pos_bound (len vector + 63) 64 ltac:(lia)).
  unfold len in *. lia.
Qed.

(** X8: With a threshold, [encode] panics exactly on a vector longer than the
    threshold.  On any other vector it returns [uint64] words in which bit
    [i] compares coordinate [i] with the threshold and every bit from the
    vector's length on is clear. *)
Theorem bq_encode_bounds (bq : binaryQuantizer) (vector thr : list float32) :
  threshold bq = Slice thr ->
  (bq_encode bq vector = None <-> (length thr < length vector)%nat)
  /\ ((length vector <= length thr)%nat ->
      exists enc : list Z,
        bq_encode bq vector = Some (Slice enc)
        /\ len enc = (len vector + 63) / 64
        /\ Forall (fun w => 0 <= w < 2 ^ 64) enc
        /\ (forall (i : Z) (x t : float32),
              0 <= i -> vector !! Z.to_nat i = Some x -> thr !! Z.to_nat i = Some t ->
              bit_of enc i = F32.gtb x t)
        /\ (forall j, len vector <= j -> bit_of enc j = false)).
Proof.
  intros Hthr. split; [split|].
  - intros Hnone. destruct (Nat.lt_ge_cases (length thr) (length vector)) as [|Hle]; [done|].
    destruct (bq_encode_long_threshold bq vector thr Hthr Hle) as (enc & He & _).
    congruence.
  - intros Hlong. by apply (bq_encode_short_threshold bq vector thr).
  - intros Hle.
    destruct (bq_encode_long_threshold bq vector thr Hthr Hle) as (enc & He & Hl & Hb & Hp).
    exists enc. repeat split; try done. eapply bq_encode_words; eauto.
Qed.

Lemma bq_encode_bounds_witness :
  (bq_encode s4_bq s4_vector = None <-> (length (replicate 4 f32_half) < length s4_vector)%nat)
  /\ ((length s4_vector <= length (replicate 4 f32_half))%nat ->
      exists enc : list Z,
        bq_encode s4_bq s4_vector = Some (Slice enc)
        /\ len enc = (len s4_vector + 63) / 64
        /\ Forall (fun w => 0 <= w < 2 ^ 64) enc
        /\ (forall (i : Z) (x t : float32),
              0 <= i -> s4_vector !! Z.to_nat i = Some x ->
              replicate 4 f32_half !! Z.to_nat i = Some t ->
              bit_of enc i = F32.gtb x t)
        /\ (forall j, len s4_vector <= j -> bit_of enc j = false)).
Proof. apply (bq_encode_bounds s4_bq s4_vector (replicate 4 f32_half)). reflexivity. Defined.


(** ** The product code beyond equal lengths *)

Lemma foldM_None {A B} (f : A -> B -> option A) (b : B) (l : list B) (a : A) :
  b ∈ l -> (forall a, f a b = None) -> foldM f a l = None.
Proof.
  intros Hin Hf. revert a. induction l as [|b' l IH]; intros a.
  - inversion Hin.
  - rewrite foldM_cons. apply elem_of_cons in Hin as [<-|Hin].
    + by rewrite Hf.
    + destruct (f a b') as [a1|]; cbn [mbind option_bind]; [by apply IH|done].
Qed.


Lemma fitted_flat_nonempty (pq : productQuantizer) :
  fitted pq -> (len (flatCentroids pq) =? 0) = false.
Proof.
  intros [HM HK Hs Hflat]. destruct (Z.eqb_spec (len (flatCentroids pq)) 0) as [E|]; [|done].
  rewrite Hflat in E. nia.
Qed.

(** On a fitted quantizer [encode] accepts every vector that holds [M]
    subvectors, and entry [m] of the code is the running closest centroid of
    subvector [m]. *)
Lemma encode_runs (pq : productQuantizer) (v : list float32) :
  fitted pq -> NumSubVectors (params pq) * subVectorLen pq <= len v ->
  exists code : list Z,
    encode pq v = Some code
    /\ len code = NumSubVectors (params pq)
    /\ forall m, 0 <= m < NumSubVectors (params pq) ->
         code !! Z.to_nat m
         = Some (snd (argmin (centroid_dist pq v m) (NumCentroids (params pq)))).
Proof.
  intros Hfit Hv. pose proof Hfit as [HM HK Hs Hflat].
  set (M := NumSubVectors (params pq)) in *. set (K := NumCentroids (params pq)) in *.
  unfold encode. rewrite fitted_flat_nonempty by done.
  fold M K. unfold make. destruct (Z.ltb_spec M 0) as [?|_]; [lia|].
  cbn [mbind option_bind].
  destruct (foldM_store (fun i : Z => i)
              (fun i => wrap8 (snd (argmin (centroid_dist pq v i) K)))
              (Z.to_nat M) (encode_step pq v) (upto M) (replicate (Z.to_nat M) 0))
    as (code & Hcode & Hlen & Hin & _).
  { apply length_replicate. }
  { intros acc i Hi _. apply elem_of_upto in Hi. unfold encode_step.
    rewrite subvector_slice by (done || fold M; lia).
    cbn [mbind option_bind]. fold K. rewrite closest_loop_argmin by done.
    reflexivity. }
  { intros i Hi. apply elem_of_upto in Hi. lia. }
  { intros i i' _ _ ->. reflexivity. }
  exists code. split; [exact Hcode|]. split; [unfold len; rewrite Hlen; lia|].
  intros m Hm.
  pose proof (argmin_range (centroid_dist pq v m) (Z.to_nat K)) as [Hr0 Hr1].
  rewrite Z2Nat.id in Hr0, Hr1 by lia.
  rewrite (Hin m) by (apply elem_of_upto; done). f_equal.
  unfold wrap8. apply Z.mod_small. lia.
Qed.







(** ** Distances between codes *)

Lemma valid_code_nth (pq : productQuantizer) (ids : list Z) (m : Z) :
  valid_code pq ids -> 0 <= m < NumSubVectors (params pq) ->
  index ids m = Some (nth (Z.to_nat m) ids 0)
  /\ 0 <= nth (Z.to_nat m) ids 0 < NumCentroids (params pq).
Proof.
  intros [Hl Hr] Hm. split.
  - apply index_nth. lia.
  - apply Hr. apply list_elem_of_In. apply nth_In. unfold len in Hl. lia.
Qed.

Lemma centroidDistIdx_range (pq : productQuantizer) (m a b : Z) :
  0 <= m < NumSubVectors (params pq) ->
  0 <= a < NumCentroids (params pq) -> 0 <= b < NumCentroids (params pq) ->
  0 <= centroidDistIdx pq m a b
  < NumSubVectors (params pq) * NumCentroids (params pq) * NumCentroids (params pq).
Proof. unfold centroidDistIdx. nia. Qed.

Lemma DistanceFromPoint_codes (pq : productQuantizer) (x y : productQuantizedPoint) :
  flatCentroids pq <> [] ->
  len (centroidDists pq)
  = NumSubVectors (params pq) * NumCentroids (params pq) * NumCentroids (params pq) ->
  valid_code pq (CentroidIds x) -> valid_code pq (CentroidIds y) ->
  DistanceFromPoint pq (PQPoint x) (PQPoint y)
  = Some (code_distance pq (CentroidIds x) (CentroidIds y), []).
Proof.
  intros Hflat Hd Hx Hy. unfold DistanceFromPoint. rewrite len_nonzero by done.
  destruct (foldM_fold
              (fun (dist : float32) (i : Z) =>
                 cx ← index (CentroidIds x) i;
                 cy ← index (CentroidIds y) i;
                 d ← index (centroidDists pq) (centroidDistIdx pq i cx cy);
                 Some (F32.add dist d))
              (fun (dist : float32) (m : Z) =>
                 F32.add dist
                   (nth (Z.to_nat (centroidDistIdx pq m (nth (Z.to_nat m) (CentroidIds x) 0)
                                                   (nth (Z.to_nat m) (CentroidIds y) 0)))
                        (centroidDists pq) F32.zero))
              (fun _ => True) (upto (NumSubVectors (params pq))) F32.zero I) as [Hf _].
  { intros a i _ Hi. apply elem_of_upto in Hi. split; [|done].
    destruct (valid_code_nth pq _ i Hx Hi) as [Ex Rx].
    destruct (valid_code_nth pq _ i Hy Hi) as [Ey Ry].
    rewrite Ex, Ey. cbn [mbind option_bind].
    rewrite (index_nth _ _ F32.zero); [reflexivity|].
    rewrite Hd. by apply centroidDistIdx_range. }
  rewrite Hf. cbn [mbind option_bind]. unfold code_distance.
  rewrite <- fold_left_map_r. reflexivity.
Qed.

(** X10: After [Fit] the distance between two points is the sum of the kernel
    distances between the trained centroids their codes name; it is
    symmetric when the kernel is. *)
Theorem Fit_DistanceFromPoint
  (kmeansFit : Z -> Z -> Z -> Z -> list (list float32) -> option KMeans)
  (pq : productQuantizer) :
  flatCentroids pq = [] ->
  TriggerThreshold (params pq) <= Count (items pq) ->
  0 < NumSubVectors (params pq) -> 0 < NumCentroids (params pq) -> 0 < subVectorLen pq ->
  trainer_ok kmeansFit pq (map Vector (items pq)) ->
  exists pq' : productQuantizer,
    Fit kmeansFit pq = Some (pq', None)
    /\ forall x y : productQuantizedPoint,
         valid_code pq (CentroidIds x) -> valid_code pq (CentroidIds y) ->
         DistanceFromPoint pq' (PQPoint x) (PQPoint y)
         = Some (trained_code_distance kmeansFit pq (CentroidIds x) (CentroidIds y), [])
         /\ ((forall a b, distFn pq a b = distFn pq b a) ->
             DistanceFromPoint pq' (PQPoint x) (PQPoint y)
             = DistanceFromPoint pq' (PQPoint y) (PQPoint x)).
Proof.
  intros Hflat Htrig HM HK Hs Htr.
  destruct (Fit_runs kmeansFit pq) as (points & flat & dists & Hfit & Hlf & Hld & _ & _ & _ & Hd);
    try done; try lia.
  exists (pq_set_tables pq points dists flat). split; [exact Hfit|].
  assert (Hne : flatCentroids (pq_set_tables pq points dists flat) <> []).
  { cbn. intros ->. unfold len in Hlf. cbn in Hlf. nia. }
  assert (Hsum : forall x y : productQuantizedPoint,
             valid_code pq (CentroidIds x) -> valid_code pq (CentroidIds y) ->
             DistanceFromPoint (pq_set_tables pq points dists flat) (PQPoint x) (PQPoint y)
             = Some (trained_code_distance kmeansFit pq (CentroidIds x) (CentroidIds y), [])).
  { intros x y Hx Hy. rewrite DistanceFromPoint_codes; try done.
    do 2 f_equal. unfold code_distance, trained_code_distance. cbn [params pq_set_tables].
    f_equal. apply map_ext_in. intros m Hm. apply list_elem_of_In, elem_of_upto in Hm.
    destruct (valid_code_nth pq _ m Hx Hm) as [_ Rx].
    destruct (valid_code_nth pq _ m Hy Hm) as [_ Ry].
    apply nth_lookup_Z. apply (Hd m _ _ Hm Rx Ry). }
  intros x y Hx Hy. split; [by apply Hsum|].
  intros Hsym. rewrite !Hsum by done. do 2 f_equal.
  unfold trained_code_distance. f_equal. apply map_ext. intros m. apply Hsym.
Qed.

Lemma Fit_DistanceFromPoint_witness :
  exists pq' : productQuantizer,
    Fit Lloyd.Fit s1_pq = Some (pq', None)
    /\ forall x y : productQuantizedPoint,
         valid_code s1_pq (CentroidIds x) -> valid_code s1_pq (CentroidIds y) ->
         DistanceFromPoint pq' (PQPoint x) (PQPoint y)
         = Some (trained_code_distance Lloyd.Fit s1_pq (CentroidIds x) (CentroidIds y), [])
         /\ ((forall a b, distFn s1_pq a b = distFn s1_pq b a) ->
             DistanceFromPoint pq' (PQPoint x) (PQPoint y)
             = DistanceFromPoint pq' (PQPoint y) (PQPoint x)).
Proof.
  apply (Fit_DistanceFromPoint Lloyd.Fit s1_pq);
    [reflexivity | vm_compute; discriminate | reflexivity | reflexivity | reflexivity
    | exact s1_trainer_ok].
Defined.

(** X11: On a quantizer that holds centroids both distance closures panic on a
    point whose code is shorter than [M]. *)
Theorem short_code_panics (pq : productQuantizer) (px py : productQuantizedPoint) :
  flatCentroids pq <> [] -> 0 < NumSubVectors (params pq) ->
  len (CentroidIds py) < NumSubVectors (params pq) ->
  DistanceFromPoint pq (PQPoint px) (PQPoint py) = None
  /\ DistanceFromPoint pq (PQPoint py) (PQPoint px) = None
  /\ forall (x : list float32) (f : PointIdDistFn),
       DistanceFromFloat pq x = Some f -> f (PQPoint py) = None.
Proof.
  intros Hflat HM Hshort.
  assert (Hidx : index (CentroidIds py) (NumSubVectors (params pq) - 1) = None).
  { apply index_None_ge. lia. }
  assert (Hin : NumSubVectors (params pq) - 1 ∈ upto (NumSubVectors (params pq))).
  { apply elem_of_upto. lia. }
  split; [|split].
  - unfold DistanceFromPoint. rewrite len_nonzero by done.
    rewrite (foldM_None _ _ _ _ Hin); [reflexivity|].
    intros dist. rewrite Hidx.
    destruct (index (CentroidIds px) _); reflexivity.
  - unfold DistanceFromPoint. rewrite len_nonzero by done.
    rewrite (foldM_None _ _ _ _ Hin); [reflexivity|].
    intros dist. rewrite Hidx. reflexivity.
  - intros x f. unfold DistanceFromFloat. rewrite len_nonzero by done.
    destruct (lookupTable pq x) as [dists|]; cbn [mbind option_bind]; [|discriminate].
    intros [= <-]. unfold floatClosureFitted.
    rewrite (foldM_None _ _ _ _ Hin); [reflexivity|].
    intros dist. rewrite Hidx. reflexivity.
Qed.

Lemma short_code_panics_witness :
  DistanceFromPoint s1_fitted (PQPoint (s1_point 0)) (PQPoint pq_point_raw) = None
  /\ DistanceFromPoint s1_fitted (PQPoint pq_point_raw) (PQPoint (s1_point 0)) = None
  /\ forall (x : list float32) (f : PointIdDistFn),
       DistanceFromFloat s1_fitted x = Some f -> f (PQPoint pq_point_raw) = None.
Proof.
  apply (short_code_panics s1_fitted (s1_point 0) pq_point_raw);
    [discriminate | reflexivity | reflexivity].
Defined.

(** X12: [Fit] keeps the id and the raw vector of every cached point, marks it
    dirty and gives it a code of [M] ids: the labels the trainer returned for
    the point, subvector by subvector.  The parameters and the store of the
    quantizer stay as they were. *)
Theorem Fit_relabels_points
  (kmeansFit : Z -> Z -> Z -> Z -> list (list float32) -> option KMeans)
  (pq : productQuantizer) :
  flatCentroids pq = [] ->
  TriggerThreshold (params pq) <= Count (items pq) ->
  0 <= NumSubVectors (params pq) -> 0 <= NumCentroids (params pq) -> 0 <= subVectorLen pq ->
  trainer_ok kmeansFit pq (map Vector (items pq)) ->
  exists pq' : productQuantizer,
    Fit kmeansFit pq = Some (pq', None)
    /\ params pq' = params pq /\ pq_storage pq' = pq_storage pq
    /\ length (items pq') = length (items pq)
    /\ forall (j : nat) (p : productQuantizedPoint),
         items pq !! j = Some p ->
         exists p' : productQuantizedPoint,
           items pq' !! j = Some p'
           /\ pq_id p' = pq_id p /\ Vector p' = Vector p /\ isDirty p' = true
           /\ len (CentroidIds p') = NumSubVectors (params pq)
           /\ forall m, 0 <= m < NumSubVectors (params pq) ->
                CentroidIds p' !! Z.to_nat m
                = Labels (trained kmeansFit pq (map Vector (items pq)) m) !! j.
Proof.
  intros Hflat Htrig HM HK Hs Htr.
  destruct (Fit_runs kmeansFit pq) as (points & flat & dists & Hfit & _ & _ & Hlen & Hp & _);
    try done.
  exists (pq_set_tables pq points dists flat). split; [exact Hfit|].
  split; [reflexivity|]. split; [reflexivity|]. split; [exact Hlen|]. exact Hp.
Qed.

Lemma Fit_relabels_points_witness :
  exists pq' : productQuantizer,
    Fit Lloyd.Fit s1_pq = Some (pq', None)
    /\ params pq' = params s1_pq /\ pq_storage pq' = pq_storage s1_pq
    /\ length (items pq') = length (items s1_pq)
    /\ forall (j : nat) (p : productQuantizedPoint),
         items s1_pq !! j = Some p ->
         exists p' : productQuantizedPoint,
           items pq' !! j = Some p'
           /\ pq_id p' = pq_id p /\ Vector p' = Vector p /\ isDirty p' = true
           /\ len (CentroidIds p') = NumSubVectors (params s1_pq)
           /\ forall m, 0 <= m < NumSubVectors (params s1_pq) ->
                CentroidIds p' !! Z.to_nat m
                = Labels (trained Lloyd.Fit s1_pq (map Vector (items s1_pq)) m) !! j.
Proof.
  apply (Fit_relabels_points Lloyd.Fit s1_pq);
    [reflexivity | vm_compute; discriminate | vm_compute; discriminate
    | vm_compute; discriminate | vm_compute; discriminate | exact s1_trainer_ok].
Defined.

(** ** Set and Flush of the product quantizer *)

(** X13: On a fitted quantizer [Set] hands the cache a point that carries the raw
    vector and its code of [M] ids, with its own dirty flag clear.  Written to
    a writable store and read back, the point is its code alone; the raw
    vector stays on the store under the 'v' key, which [IdFromKey] maps to
    the id, while it rejects the 'q' key. *)
Theorem pq_Set_roundtrip
  (put : Z -> productQuantizedPoint -> ItemCache productQuantizedPoint
         -> ItemCache productQuantizedPoint)
  (pq : productQuantizer) (id : Z) (v : list float32) (st : Storage) :
  fitted pq -> NumSubVectors (params pq) * subVectorLen pq <= len v ->
  st_readOnly st = false ->
  exists (code : list Z) (st' : Storage),
    len code = NumSubVectors (params pq)
    /\ pq_Set put pq id v
       = Some (pq_set_items pq (put id (mkPQPoint id v code false) (items pq)),
               mkPQPoint id v code false)
    /\ pq_WriteTo (mkPQPoint id v code false) id st = (st', None)
    /\ pq_ReadFrom id st' = (mkPQPoint id [] code false, None)
    /\ Storage_Get st' (NodeKey id tag_v) = Some (Float32ToBytes v)
    /\ pq_IdFromKey (NodeKey id tag_v) = (wrap64 id, true)
    /\ pq_IdFromKey (NodeKey id tag_q) = (0, false).
Proof.
  intros Hfit Hv Hw. pose proof Hfit as [HM HK Hs Hflat].
  destruct (encode_runs pq v Hfit Hv) as (code & Hc & Hl & _).
  assert (Hcode : code <> []).
  { intros ->. unfold len in Hl. cbn in Hl. lia. }
  assert (Hvec : v <> []).
  { intros ->. unfold len in Hv. cbn in Hv. nia. }
  eexists code, _. split; [exact Hl|]. split.
  { unfold pq_Set. rewrite Hc. reflexivity. }
  split.
  { rewrite pq_WriteTo_writable by done. cbn [Vector CentroidIds].
    rewrite (len_nonzero _ Hcode), (len_nonzero _ Hvec). reflexivity. }
  split.
  { unfold pq_ReadFrom, Storage_Get. cbn [st_data]. rewrite lookup_insert_eq. reflexivity. }
  split.
  { unfold Storage_Get. cbn [st_data].
    rewrite lookup_insert_ne by (apply NodeKey_tag_inj, tag_q_ne_v).
    apply lookup_insert_eq. }
  unfold pq_IdFromKey. rewrite !NodeIdFromKey_NodeKey. split; reflexivity.
Qed.

Lemma pq_Set_roundtrip_witness :
  exists (code : list Z) (st' : Storage),
    len code = NumSubVectors (params s1_fitted)
    /\ pq_Set (cachePut pq_id) s1_fitted 9 query4
       = Some (pq_set_items s1_fitted
                 (cachePut pq_id 9 (mkPQPoint 9 query4 code false) (items s1_fitted)),
               mkPQPoint 9 query4 code false)
    /\ pq_WriteTo (mkPQPoint 9 query4 code false) 9 emptyStorage = (st', None)
    /\ pq_ReadFrom 9 st' = (mkPQPoint 9 [] code false, None)
    /\ Storage_Get st' (NodeKey 9 tag_v) = Some (Float32ToBytes query4)
    /\ pq_IdFromKey (NodeKey 9 tag_v) = (wrap64 9, true)
    /\ pq_IdFromKey (NodeKey 9 tag_q) = (0, false).
Proof.
  apply (pq_Set_roundtrip (cachePut pq_id) s1_fitted 9 query4 emptyStorage);
    [exact s1_fitted_ok | vm_compute; discriminate | reflexivity].
Defined.

Lemma table_keys_differ : productQuantizerCentroidDistsKey <> productQuantizerFlatCentroidsKey.
Proof. discriminate. Qed.

(** X14: [Flush] writes the two tables after the cache, and only when the cache
    flushed without error and the centroid table is not empty; otherwise the
    store is as the cache left it.  After a [Flush] without error the
    constructor reloads the tables of a fitted quantizer from the store. *)
Theorem pq_Flush_reopen
  (flush : ItemCache productQuantizedPoint -> Storage
           -> ItemCache productQuantizedPoint * Storage * error)
  (pq : productQuantizer) :
  Forall is_float32 (flatCentroids pq) -> Forall is_float32 (centroidDists pq) ->
  (forall items' st1 e,
     flush (items pq) (pq_storage pq) = (items', st1, e) ->
     e <> None \/ flatCentroids pq = [] ->
     pq_Flush flush pq = (UpdateStorage (pq_set_items pq items') st1, e))
  /\ (forall pq',
        pq_Flush flush pq = (pq', None) -> flatCentroids pq <> [] ->
        flatCentroids pq' = flatCentroids pq /\ centroidDists pq' = centroidDists pq
        /\ forall GetFloatDistanceFn name p D pq2,
             newProductQuantizer GetFloatDistanceFn (pq_storage pq') name p D
             = Some (inl pq2) ->
             flatCentroids pq2 = flatCentroids pq /\ centroidDists pq2 = centroidDists pq).
Proof.
  intros Hvf Hvd. split.
  - intros items' st1 e Hfl Hcase. unfold pq_Flush. rewrite Hfl.
    destruct e as [e|]; [reflexivity|].
    destruct Hcase as [Hc|Hc]; [done|].
    unfold pq_Flush_tables. rewrite Hc. reflexivity.
  - intros pq' Hflush Hne. unfold pq_Flush in Hflush.
    destruct (flush (items pq) (pq_storage pq)) as [[items' st1] e].
    destruct e as [e|]; [discriminate|].
    unfold pq_Flush_tables in Hflush. rewrite (len_nonzero _ Hne) in Hflush.
    cbn [negb] in Hflush. unfold Storage_Put in Hflush.
    destruct (st_readOnly st1) eqn:Hro; [discriminate|].
    cbn [st_readOnly] in Hflush. injection Hflush as <-.
    split; [reflexivity|]. split; [reflexivity|].
    intros GetFloatDistanceFn name p D pq2. unfold newProductQuantizer.
    destruct (NumSubVectors p =? 0); [discriminate|].
    destruct (negb _); [discriminate|]. destruct (_ && _); [discriminate|].
    destruct (NumCentroids p >? 256); [discriminate|].
    destruct (GetFloatDistanceFn _) as [fn|]; [|discriminate].
    intros [= <-]. cbn [flatCentroids centroidDists UpdateStorage pq_storage].
    unfold Storage_Get. cbn [st_data].
    rewrite lookup_insert_eq.
    rewrite lookup_insert_ne by (apply not_eq_sym, table_keys_differ).
    rewrite lookup_insert_eq.
    split; apply Float32_roundtrip; done.
Qed.

Lemma pq_Flush_reopen_witness :
  (forall items' st1 e,
     cacheFlush pq_id pq_CheckAndClearDirty pq_WriteTo (items s1_fitted)
                (pq_storage s1_fitted) = (items', st1, e) ->
     e <> None \/ flatCentroids s1_fitted = [] ->
     pq_Flush (cacheFlush pq_id pq_CheckAndClearDirty pq_WriteTo) s1_fitted
     = (UpdateStorage (pq_set_items s1_fitted items') st1, e))
  /\ (forall pq',
        pq_Flush (cacheFlush pq_id pq_CheckAndClearDirty pq_WriteTo) s1_fitted = (pq', None) ->
        flatCentroids s1_fitted <> [] ->
        flatCentroids pq' = flatCentroids s1_fitted
        /\ centroidDists pq' = centroidDists s1_fitted
        /\ forall GetFloatDistanceFn name p D pq2,
             newProductQuantizer GetFloatDistanceFn (pq_storage pq') name p D
             = Some (inl pq2) ->
             flatCentroids pq2 = flatCentroids s1_fitted
             /\ centroidDists pq2 = centroidDists s1_fitted).
Proof.
  apply (pq_Flush_reopen (cacheFlush pq_id pq_CheckAndClearDirty pq_WriteTo) s1_fitted);
    repeat constructor.
Defined.

Example pq_Flush_s1 :
  snd (pq_Flush (cacheFlush pq_id pq_CheckAndClearDirty pq_WriteTo) s1_fitted) = None
  /\ option_map (fun r => match r with
                          | inl pq2 => (flatCentroids pq2, centroidDists pq2)
                          | inr _ => ([], [])
                          end)
       (newProductQuantizer floatDistanceFns
          (pq_storage (fst (pq_Flush (cacheFlush pq_id pq_CheckAndClearDirty pq_WriteTo)
                                     s1_fitted)))
          DistanceEuclidean s1_params 4)
     = Some (flatCentroids s1_fitted, centroidDists s1_fitted).
Proof. split; vm_compute; reflexivity. Qed.

(** ** Set, distances and Flush of the binary quantizer *)

(** X15: With a threshold, [Set] hands the cache a point that carries the raw
    vector and its packed bits.  Written to a writable store and read back,
    the point is its bits alone, and every key that [IdFromKey] recognises is
    as it was: this write does not put the raw vector on the store. *)
Theorem bq_Set_roundtrip
  (put : Z -> binaryQuantizedPoint -> ItemCache binaryQuantizedPoint
         -> ItemCache binaryQuantizedPoint)
  (bq : binaryQuantizer) (thr : list float32) (id : Z) (v : list float32) (st : Storage) :
  threshold bq = Slice thr -> v <> [] -> (length v <= length thr)%nat ->
  st_readOnly st = false ->
  exists (enc : list Z) (st' : Storage),
    bq_encode bq v = Some (Slice enc)
    /\ bq_Set put bq id v
       = Some (bq_set_items bq (put id (mkBQPoint id v enc false) (bq_items bq)),
               mkBQPoint id v enc false)
    /\ bq_WriteTo (mkBQPoint id v enc false) id st = (st', None)
    /\ bq_ReadFrom id st' = (mkBQPoint id [] enc false, None)
    /\ forall (k : list Z) (i : Z),
         bq_IdFromKey k = (i, true) -> Storage_Get st' k = Storage_Get st k.
Proof.
  intros Hthr Hv Hlen Hw.
  destruct (bq_encode_long_threshold bq v thr Hthr Hlen) as (enc & He & Hl & _).
  assert (Hwords : Forall (fun w => 0 <= w < 2 ^ 64) enc) by (eapply bq_encode_words; eauto).
  assert (Henc : enc <> []).
  { intros ->. assert (0 < len v) by (destruct v; [done|unfold len; cbn; lia]).
    assert (1 <= (len v + 63) / 64) by (apply Z.div_le_lower_bound; lia).
    unfold len in Hl at 1. cbn in Hl. lia. }
  eexists enc, _. split; [exact He|]. split.
  { unfold bq_Set. rewrite He. reflexivity. }
  split.
  { unfold bq_WriteTo. cbn [BinaryVector]. rewrite (len_nonzero _ Henc). cbn [negb].
    rewrite Storage_Put_writable by done. reflexivity. }
  split.
  { unfold bq_ReadFrom, Storage_Get. cbn [st_data]. rewrite lookup_insert_eq.
    by rewrite EdgeList_roundtrip. }
  intros k i Hk. unfold Storage_Get. cbn [st_data]. apply lookup_insert_ne.
  intros <-. unfold bq_IdFromKey in Hk. rewrite NodeIdFromKey_NodeKey in Hk.
  discriminate Hk.
Qed.

Lemma bq_Set_roundtrip_witness :
  exists (enc : list Z) (st' : Storage),
    bq_encode s4_bq s4_vector = Some (Slice enc)
    /\ bq_Set (cachePut bq_id) s4_bq 7 s4_vector
       = Some (bq_set_items s4_bq
                 (cachePut bq_id 7 (mkBQPoint 7 s4_vector enc false) (bq_items s4_bq)),
               mkBQPoint 7 s4_vector enc false)
    /\ bq_WriteTo (mkBQPoint 7 s4_vector enc false) 7 emptyStorage = (st', None)
    /\ bq_ReadFrom 7 st' = (mkBQPoint 7 [] enc false, None)
    /\ forall (k : list Z) (i : Z),
         bq_IdFromKey k = (i, true) -> Storage_Get st' k = Storage_Get emptyStorage k.
Proof.
  apply (bq_Set_roundtrip (cachePut bq_id) s4_bq (replicate 4 f32_half) 7 s4_vector
                          emptyStorage);
    [reflexivity | discriminate | vm_compute; lia | reflexivity].
Defined.

(** X16: With a threshold, [DistanceFromFloat] panics exactly on a query longer
    than the threshold.  Otherwise it encodes the query once; its closure
    applies the bit kernel to that code and the bits of the point, which is
    what [DistanceFromPoint] returns for the point that [Set] builds from the
    query, and answers the largest float for a point of another variant. *)
Theorem bq_DistanceFromFloat_fitted (bq : binaryQuantizer) (thr x : list float32) :
  threshold bq = Slice thr ->
  (bq_DistanceFromFloat bq x = None <-> (length thr < length x)%nat)
  /\ ((length x <= length thr)%nat ->
      exists (f : PointIdDistFn) (enc : list Z),
        bq_DistanceFromFloat bq x = Some f
        /\ bq_encode bq x = Some (Slice enc)
        /\ (forall y : binaryQuantizedPoint,
              f (BQPoint y) = Some (bitDistFn bq enc (BinaryVector y), [])
              /\ forall id dirty,
                   bq_DistanceFromPoint bq (BQPoint (mkBQPoint id x enc dirty)) (BQPoint y)
                   = f (BQPoint y))
        /\ (forall y : VectorStorePoint,
              (forall p, y <> BQPoint p) ->
              f y = Some (F32.MaxFloat32, [Warn msg_bq_float [Id y]]))).
Proof.
  intros Hthr. unfold bq_DistanceFromFloat, bq_DistanceFromPoint. rewrite Hthr. split; [split|].
  - intros Hnone. destruct (Nat.lt_ge_cases (length thr) (length x)) as [|Hle]; [done|].
    destruct (bq_encode_long_threshold bq x thr Hthr Hle) as (enc & He & _).
    rewrite He in Hnone. discriminate.
  - intros Hlong. by rewrite (bq_encode_short_threshold bq x thr).
  - intros Hle. destruct (bq_encode_long_threshold bq x thr Hthr Hle) as (enc & He & _).
    rewrite He. cbn [mbind option_bind elems_of]. eexists _, enc.
    split; [reflexivity|]. split; [reflexivity|]. split.
    + intros y. split; reflexivity.
    + intros y Hy. destruct y as [p|p|i]; try reflexivity. by destruct (Hy p).
Qed.

Lemma bq_DistanceFromFloat_fitted_witness :
  (bq_DistanceFromFloat s4_bq s4_vector = None
   <-> (length (replicate 4 f32_half) < length s4_vector)%nat)
  /\ ((length s4_vector <= length (replicate 4 f32_half))%nat ->
      exists (f : PointIdDistFn) (enc : list Z),
        bq_DistanceFromFloat s4_bq s4_vector = Some f
        /\ bq_encode s4_bq s4_vector = Some (Slice enc)
        /\ (forall y : binaryQuantizedPoint,
              f (BQPoint y) = Some (bitDistFn s4_bq enc (BinaryVector y), [])
              /\ forall id dirty,
                   bq_DistanceFromPoint s4_bq (BQPoint (mkBQPoint id s4_vector enc dirty))
                                        (BQPoint y)
                   = f (BQPoint y))
        /\ (forall y : VectorStorePoint,
              (forall p, y <> BQPoint p) ->
              f y = Some (F32.MaxFloat32, [Warn msg_bq_float [Id y]]))).
Proof.
  apply (bq_DistanceFromFloat_fitted s4_bq (replicate 4 f32_half) s4_vector). reflexivity.
Defined.

(** X17: A quantizer built with a configured scalar threshold carries [D] copies
    of it whatever the store holds, so [Fit] never trains it, whatever its
    cache holds, and [encode] accepts exactly the vectors of at most [D]
    coordinates; a negative [D] panics in the constructor. *)
Theorem newBinaryQuantizer_preset
  (GetBitDistanceFn : string -> (list Z -> list Z -> float32) + errorKind)
  (storage : Storage) (floatDistFn : FloatDistFunc) (params : BinaryQuantizerParamaters)
  (D : Z) (t : float32) (bitDistFn : list Z -> list Z -> float32) :
  GetBitDistanceFn (DistanceMetric params) = inl bitDistFn ->
  Threshold params = Some t ->
  (D < 0 -> newBinaryQuantizer GetBitDistanceFn storage floatDistFn params D = None)
  /\ (0 <= D ->
      exists bq : binaryQuantizer,
        newBinaryQuantizer GetBitDistanceFn storage floatDistFn params D = Some (inl bq)
        /\ threshold bq = Slice (replicate (Z.to_nat D) t)
        /\ bq_items bq = []
        /\ (forall items, bq_Fit (bq_set_items bq items) = Some (bq_set_items bq items, None))
        /\ (forall v, bq_encode bq v = None <-> D < len v)).
Proof.
  intros Hbit Hthr. unfold newBinaryQuantizer. rewrite Hbit, Hthr. unfold make. split.
  - intros HD. destruct (Z.ltb_spec D 0); [reflexivity|lia].
  - intros HD. destruct (Z.ltb_spec D 0); [lia|]. cbn [mbind option_bind].
    eexists. split; [reflexivity|]. cbn [threshold bq_items].
    assert (Hmap : map (fun _ : float32 => t) (replicate (Z.to_nat D) F32.zero)
                   = replicate (Z.to_nat D) t).
    { induction (Z.to_nat D) as [|n IH]; [done|]. cbn. by rewrite IH. }
    rewrite Hmap. split; [reflexivity|]. split; [reflexivity|]. split.
    + intros items. apply bq_Fit_gated. left. discriminate.
    + intros v. split.
      * intros Hnone. destruct (Z.lt_ge_cases D (len v)) as [|Hle]; [done|].
        edestruct (bq_encode_long_threshold) as (enc & He & _);
          [| |rewrite He in Hnone; discriminate Hnone].
        -- reflexivity.
        -- rewrite length_replicate. unfold len in Hle. lia.
      * intros Hlong. eapply bq_encode_short_threshold; [reflexivity|].
        rewrite length_replicate. unfold len in Hlong. lia.
Qed.

Lemma newBinaryQuantizer_preset_witness :
  (4 < 0 -> newBinaryQuantizer hammingOnly storage_with_v euclideanDistance
                               (bq_params s4_bq) 4 = None)
  /\ (0 <= 4 ->
      exists bq : binaryQuantizer,
        newBinaryQuantizer hammingOnly storage_with_v euclideanDistance (bq_params s4_bq) 4
        = Some (inl bq)
        /\ threshold bq = Slice (replicate (Z.to_nat 4) f32_half)
        /\ bq_items bq = []
        /\ (forall items, bq_Fit (bq_set_items bq items) = Some (bq_set_items bq items, None))
        /\ (forall v, bq_encode bq v = None <-> 4 < len v)).
Proof.
  apply (newBinaryQuantizer_preset hammingOnly storage_with_v euclideanDistance
                                   (bq_params s4_bq) 4 f32_half hammingDistance);
    reflexivity.
Defined.

(** X18: [Flush] persists a threshold that is not empty after the cache, and only
    when the cache flushed without error; otherwise the store is as the cache
    left it.  After a [Flush] without error a constructor call without a
    configured threshold reloads the threshold from the store. *)
Theorem bq_Flush_reopen
  (flush : ItemCache binaryQuantizedPoint -> Storage
           -> ItemCache binaryQuantizedPoint * Storage * error)
  (bq : binaryQuantizer) (storage : Storage) :
  Forall is_float32 (elems_of (threshold bq)) ->
  (forall items' st1 e,
     flush (bq_items bq) storage = (items', st1, e) ->
     e <> None \/ elems_of (threshold bq) = [] ->
     bq_Flush flush bq storage = (bq_set_items bq items', st1, e))
  /\ (forall bq' st',
        bq_Flush flush bq storage = (bq', st', None) -> elems_of (threshold bq) <> [] ->
        threshold bq' = threshold bq
        /\ forall GetBitDistanceFn floatDistFn params D bitDistFn,
             GetBitDistanceFn (DistanceMetric params) = inl bitDistFn ->
             Threshold params = None ->
             exists bq2,
               newBinaryQuantizer GetBitDistanceFn st' floatDistFn params D = Some (inl bq2)
               /\ threshold bq2 = Slice (elems_of (threshold bq))).
Proof.
  intros Hvalid. split.
  - intros items' st1 e Hfl Hcase. unfold bq_Flush. rewrite Hfl.
    destruct e as [e|]; [reflexivity|].
    destruct Hcase as [Hc|Hc]; [done|].
    unfold bq_Flush_threshold. rewrite Hc. reflexivity.
  - intros bq' st' Hflush Hne. unfold bq_Flush in Hflush.
    destruct (flush (bq_items bq) storage) as [[items' st1] e].
    destruct e as [e|]; [discriminate|].
    unfold bq_Flush_threshold in Hflush.
    assert (Hpos : (len (elems_of (threshold bq)) >? 0) = true).
    { destruct (elems_of (threshold bq)); [done|]. reflexivity. }
    rewrite Hpos in Hflush. unfold Storage_Put in Hflush.
    destruct (st_readOnly st1) eqn:Hro; [discriminate|].
    injection Hflush as <- <-. split; [reflexivity|].
    intros GetBitDistanceFn floatDistFn params D bitDistFn Hbit Hthr.
    unfold newBinaryQuantizer. rewrite Hbit, Hthr. unfold Storage_Get. cbn [st_data].
    rewrite lookup_insert_eq. eexists. split; [reflexivity|]. cbn [threshold].
    by rewrite Float32_roundtrip.
Qed.

Lemma bq_Flush_reopen_witness :
  (forall items' st1 e,
     cacheFlush bq_id bq_CheckAndClearDirty bq_WriteTo (bq_items s4_bq) emptyStorage
     = (items', st1, e) ->
     e <> None \/ elems_of (threshold s4_bq) = [] ->
     bq_Flush (cacheFlush bq_id bq_CheckAndClearDirty bq_WriteTo) s4_bq emptyStorage
     = (bq_set_items s4_bq items', st1, e))
  /\ (forall bq' st',
        bq_Flush (cacheFlush bq_id bq_CheckAndClearDirty bq_WriteTo) s4_bq emptyStorage
        = (bq', st', None) ->
        elems_of (threshold s4_bq) <> [] ->
        threshold bq' = threshold s4_bq
        /\ forall GetBitDistanceFn floatDistFn params D bitDistFn,
             GetBitDistanceFn (DistanceMetric params) = inl bitDistFn ->
             Threshold params = None ->
             exists bq2,
               newBinaryQuantizer GetBitDistanceFn st' floatDistFn params D = Some (inl bq2)
               /\ threshold bq2 = Slice (elems_of (threshold s4_bq))).
Proof.
  apply (bq_Flush_reopen (cacheFlush bq_id bq_CheckAndClearDirty bq_WriteTo) s4_bq
                         emptyStorage).
  repeat constructor.
Defined.

Example bq_Flush_s4 :
  snd (bq_Flush (cacheFlush bq_id bq_CheckAndClearDirty bq_WriteTo) s4_bq emptyStorage)
  = None
  /\ option_map (fun r => match r with
                          | inl bq2 => threshold bq2
                          | inr _ => Nil
                          end)
       (newBinaryQuantizer hammingOnly
          (snd (fst (bq_Flush (cacheFlush bq_id bq_CheckAndClearDirty bq_WriteTo) s4_bq
                              emptyStorage)))
          euclideanDistance (mkBQParams 0 "hamming" None) 4)
     = Some (threshold s4_bq).
Proof. split; vm_compute; reflexivity. Qed.

(** ** Ragged caches *)

Lemma add_loop_runs :
  forall (v : list float32) (k : nat) (s : list float32),
    (k + length v <= length s)%nat ->
    exists s',
      foldM (fun (s : list float32) (iv : Z * float32) =>
               cur ← index s (fst iv); store s (fst iv) (F32.add cur (snd iv)))
            s (zip (map Z.of_nat (seq k (length v))) v) = Some s'
      /\ length s' = length s.
Proof.
  induction v as [|x v IH]; intros k s Hlen.
  - exists s. done.
  - cbn [length seq map zip_with]. rewrite foldM_cons. cbn [fst snd].
    destruct (index_in_range s (Z.of_nat k)) as (cur & Hc & _).
    { unfold len. cbn [length] in Hlen. lia. }
    rewrite Hc. cbn [mbind option_bind].
    rewrite store_Some by (unfold len; cbn [length] in Hlen; lia).
    cbn [mbind option_bind].
    destruct (IH (S k) (<[Z.to_nat (Z.of_nat k) := F32.add cur x]> s)) as (s' & Hs & Hl).
    { rewrite length_insert. cbn [length] in Hlen. lia. }
    exists s'. split; [exact Hs|]. rewrite Hl. apply length_insert.
Qed.

Lemma add_loop_panics :
  forall (v : list float32) (k : nat) (s : list float32),
    (k <= length s)%nat -> (length s < k + length v)%nat ->
    foldM (fun (s : list float32) (iv : Z * float32) =>
             cur ← index s (fst iv); store s (fst iv) (F32.add cur (snd iv)))
          s (zip (map Z.of_nat (seq k (length v))) v) = None.
Proof.
  induction v as [|x v IH]; intros k s Hk Hlong.
  - cbn [length] in Hlong. lia.
  - cbn [length seq map zip_with]. rewrite foldM_cons. cbn [fst snd].
    destruct (decide (k = length s)) as [->|Hne].
    + rewrite index_None_ge by (unfold len; lia). reflexivity.
    + destruct (index_in_range s (Z.of_nat k)) as (cur & Hc & _).
      { unfold len. lia. }
      rewrite Hc. cbn [mbind option_bind].
      rewrite store_Some by (unfold len; lia). cbn [mbind option_bind].
      apply IH; rewrite length_insert; cbn [length] in Hlong; lia.
Qed.

(** The first sweep of the binary quantizer's [Fit] over points whose vectors
    fit the running sum, and over a cache that holds a longer one. *)
Lemma bq_sum_step_runs (s : list float32) (c : Z) (p : binaryQuantizedPoint) :
  (length (bq_Vector p) <= length s)%nat ->
  exists s', bq_sum_step (Slice s, c) p = Some ((Slice s', c + 1), p)
             /\ length s' = length s.
Proof.
  intros Hle. unfold bq_sum_step, range, upto, len. rewrite Nat2Z.id.
  destruct (add_loop_runs (bq_Vector p) 0 s) as (s' & Hs & Hl); [simpl; lia|].
  rewrite Hs. exists s'. done.
Qed.

Lemma bq_sum_step_panics (s : list float32) (c : Z) (p : binaryQuantizedPoint) :
  (length s < length (bq_Vector p))%nat -> bq_sum_step (Slice s, c) p = None.
Proof.
  intros Hlt. unfold bq_sum_step, range, upto, len. rewrite Nat2Z.id.
  rewrite add_loop_panics; [reflexivity|lia|simpl; lia].
Qed.

Lemma sum_pass_runs (points : ItemCache binaryQuantizedPoint) :
  forall (s : list float32) (c : Z),
    Forall (fun q => (length (bq_Vector q) <= length s)%nat) points ->
    exists s', ForEach bq_sum_step (Slice s, c) points = Some ((Slice s', c + len points), points)
               /\ length s' = length s.
Proof.
  induction points as [|p points IH]; intros s c Hall.
  - exists s. cbn. rewrite Z.add_0_r. done.
  - apply Forall_cons in Hall as [Hp Hall]. cbn [ForEach].
    destruct (bq_sum_step_runs s c p Hp) as (s1 & Hs1 & Hl1). rewrite Hs1.
    cbn [mbind option_bind].
    destruct (IH s1 (c + 1)) as (s' & Hs' & Hl'); [by rewrite Hl1|].
    rewrite Hs'. cbn [mbind option_bind]. exists s'. split; [|congruence].
    do 3 f_equal. unfold len. cbn [length]. lia.
Qed.

Lemma sum_pass_panics (points : ItemCache binaryQuantizedPoint) :
  forall (s : list float32) (c : Z),
    Exists (fun q => (length s < length (bq_Vector q))%nat) points ->
    ForEach bq_sum_step (Slice s, c) points = None.
Proof.
  induction points as [|p points IH]; intros s c Hex.
  - inversion Hex.
  - cbn [ForEach]. destruct (Nat.lt_ge_cases (length s) (length (bq_Vector p))) as [Hlt|Hge].
    + by rewrite bq_sum_step_panics.
    + destruct (bq_sum_step_runs s c p Hge) as (s1 & Hs1 & Hl1). rewrite Hs1.
      cbn [mbind option_bind]. rewrite IH; [reflexivity|].
      apply Exists_cons in Hex as [Hex|Hex]; [lia|]. by rewrite Hl1.
Qed.

Lemma reencode_pass_runs (bq : binaryQuantizer) (thr : list float32)
  (points : ItemCache binaryQuantizedPoint) :
  threshold bq = Slice thr ->
  Forall (fun q => (length (bq_Vector q) <= length thr)%nat) points ->
  exists points', ForEach (bq_reencode_step bq) tt points = Some (tt, points').
Proof.
  intros Hthr. induction points as [|p points IH]; intros Hall.
  - exists []. reflexivity.
  - apply Forall_cons in Hall as [Hp Hall]. destruct (IH Hall) as (points' & Hps).
    destruct (bq_encode_long_threshold bq (bq_Vector p) thr Hthr Hp) as (enc & He & _).
    assert (Hstep : bq_reencode_step bq tt p
                    = Some (tt, mkBQPoint (bq_id p) (bq_Vector p) enc true)).
    { unfold bq_reencode_step. rewrite He. reflexivity. }
    cbn [ForEach]. rewrite Hstep. cbn [mbind option_bind].
    rewrite Hps. cbn [mbind option_bind]. eexists. reflexivity.
Qed.

(** X19: [Fit] of the binary quantizer sizes the threshold by the first cached
    vector: it panics exactly when a later vector is longer, and over an empty
    cache it returns without a threshold. *)
Theorem bq_Fit_ragged (bq : binaryQuantizer) :
  threshold bq = Nil ->
  bq_TriggerThreshold (bq_params bq) <= Count (bq_items bq) ->
  (bq_items bq = [] -> bq_Fit bq = Some (bq, None))
  /\ (forall p rest,
        bq_items bq = p :: rest ->
        (bq_Fit bq = None
         <-> Exists (fun q => (length (bq_Vector p) < length (bq_Vector q))%nat) rest)).
Proof.
  intros Hthr Htrig.
  assert (Hgate : negb (is_nil (threshold bq))
                  || (Count (bq_items bq) <? bq_TriggerThreshold (bq_params bq)) = false).
  { rewrite Hthr. cbn [is_nil negb orb]. apply Z.ltb_ge. exact Htrig. }
  split.
  - intros Hempty. unfold bq_Fit. rewrite Hgate, Hempty. cbn.
    destruct bq as [t ps its fd bd]. cbn in Hthr, Hempty. subst. reflexivity.
  - intros p rest Hitems. unfold bq_Fit. rewrite Hgate, Hitems. cbn [ForEach].
    assert (Hfirst : exists s1, bq_sum_step (Nil, 0) p = Some ((Slice s1, 1), p)
                                /\ length s1 = length (bq_Vector p)).
    { unfold bq_sum_step, range, upto, len. rewrite Nat2Z.id.
      destruct (add_loop_runs (bq_Vector p) 0 (replicate (length (bq_Vector p)) F32.zero))
        as (s' & Hs & Hl); [rewrite length_replicate; simpl; lia|].
      rewrite Hs. exists s'. split; [reflexivity|]. rewrite Hl. apply length_replicate. }
    destruct Hfirst as (s1 & Hs1 & Hl1). rewrite Hs1. cbn [mbind option_bind].
    split.
    + intros Hnone.
      destruct (decide (Exists (fun q => (length (bq_Vector p) < length (bq_Vector q))%nat)
                               rest)) as [Hex|Hnex]; [exact Hex|exfalso].
      apply not_Exists_Forall in Hnex; [|apply _].
      assert (Hall : Forall (fun q => (length (bq_Vector q) <= length s1)%nat) rest).
      { eapply Forall_impl; [exact Hnex|]. intros q Hq. cbn in Hq. lia. }
      destruct (sum_pass_runs rest s1 1 Hall) as (s' & Hs' & Hl').
      rewrite Hs' in Hnone. cbn [mbind option_bind] in Hnone.
      destruct (reencode_pass_runs
                  (bq_set_items
                     (bq_set_threshold bq (divide_all (Slice s') (1 + len rest))) (p :: rest))
                  (map (fun x => F32.div x (F32.of_int (1 + len rest))) s') (p :: rest))
        as (points' & Hps).
      { reflexivity. }
      { rewrite length_map, Hl', Hl1. apply Forall_cons. split; [lia|].
        eapply Forall_impl; [exact Hall|]. intros q Hq. cbn in Hq. lia. }
      rewrite Hps in Hnone. discriminate Hnone.
    + intros Hex. rewrite sum_pass_panics; [reflexivity|].
      eapply Exists_impl; [exact Hex|]. intros q Hq. cbn in Hq. lia.
Qed.

Lemma bq_Fit_ragged_witness :
  (bq_items ragged_bq = [] -> bq_Fit ragged_bq = Some (ragged_bq, None))
  /\ (forall p rest,
        bq_items ragged_bq = p :: rest ->
        (bq_Fit ragged_bq = None
         <-> Exists (fun q => (length (bq_Vector p) < length (bq_Vector q))%nat) rest)).
Proof. apply (bq_Fit_ragged ragged_bq); [reflexivity | vm_compute; discriminate]. Defined.

Example bq_Fit_ragged_panics : bq_Fit ragged_bq = None.
Proof. reflexivity. Qed.

(** ** The constructor's geometry and the fallbacks of [DistanceFromPoint] *)



(** The constructor accepts a negative [M]. *)
Example newProductQuantizer_negative :
  exists pq, newProductQuantizer floatDistanceFns emptyStorage DistanceEuclidean
               (mkPQParams 0 (-2) 0) 4 = Some (inl pq)
             /\ subVectorLen pq = -2.
Proof. eexists. split; reflexivity. Qed.


